(** * Canright's compact AES S-box: gate-count optimiser and S-box generator

    A shallow embedding of [bestboth.c] (the pruned tree search that
    minimises the number of XOR gates of a pair of bit matrices) and of
    [sboxalg.c] (the S-box computed through the subfield tower), followed
    by the properties established about them.

    C [int] and [long] values are modelled as [Z]; the arrays [mat[128]]
    and [ind[256]] as lists of that length, read and written through
    checked accessors that report an access outside the array. *)

From Stdlib Require Import ZArith Lia Bool List.
From Stdlib Require Uint63 PArray.
From stdpp Require Import base list.
Import ListNotations.
Open Scope Z_scope.

(** ** Outcomes of running C code *)

(** [Normal a]: the code ran to its end.  [Undefined]: the code read or
    wrote outside an array (there is no check in the source, so the C
    program goes on with undefined behaviour).  [Aborted]: the process
    was stopped by a failed assertion.  [OutOfFuel]: the model was not
    given enough recursion depth. *)
Inductive outcome (A : Type) : Type :=
| Normal (a : A)
| Undefined
| Aborted
| OutOfFuel.
Arguments Normal {A} a.
Arguments Undefined {A}.
Arguments Aborted {A}.
Arguments OutOfFuel {A}.

#[global] Instance outcome_ret : MRet outcome := fun A a => Normal a.

#[global] Instance outcome_bind : MBind outcome := fun A B k m =>
  match m with
  | Normal a => k a
  | Undefined => Undefined
  | Aborted => Aborted
  | OutOfFuel => OutOfFuel
  end.

(** [for (i = lo; i < hi; i++) body], the loop state threaded through. *)
Fixpoint for_count {S : Type} (k : nat) (i : Z) (body : Z -> S -> outcome S)
    (s : S) : outcome S :=
  match k with
  | O => Normal s
  | S k' => s' ← body i s; for_count k' (i + 1) body s'
  end.

Definition for_loop {S : Type} (lo hi : Z) (body : Z -> S -> outcome S)
    (s : S) : outcome S :=
  for_count (Z.to_nat (hi - lo)) lo body s.

(** Array read [a[i]] and write [a[i] = v]. *)
Definition rd (a : list Z) (i : Z) : outcome Z :=
  if 0 <=? i then
    match a !! Z.to_nat i with
    | Some v => Normal v
    | None => Undefined
    end
  else Undefined.

Definition wr (a : list Z) (i v : Z) : outcome (list Z) :=
  if 0 <=? i then
    match a !! Z.to_nat i with
    | Some _ => Normal (<[Z.to_nat i := v]> a)
    | None => Undefined
    end
  else Undefined.

(** Stores into a [uint32_t] keep the low 32 bits. *)
Definition u32 (v : Z) : Z := v mod 4294967296.

(** ** sboxalg.c *)

Definition A2X : list Z := [0x98; 0xF3; 0xF2; 0x48; 0x09; 0x81; 0xA9; 0xFF].
Definition X2A : list Z := [0x64; 0x78; 0x6E; 0x8C; 0x68; 0x29; 0xDE; 0x60].
Definition X2S : list Z := [0x58; 0x2D; 0x9E; 0x0B; 0xDC; 0x04; 0x03; 0x24].
Definition S2X : list Z := [0x8C; 0x79; 0x05; 0xEB; 0x12; 0x04; 0x51; 0x53].

(** multiply in GF(2^2), normal basis (Omega^2, Omega) *)
Definition G4_mul (x y : Z) : Z :=
  let a := Z.shiftr (Z.land x 0x2) 1 in
  let b := Z.land x 0x1 in
  let c := Z.shiftr (Z.land y 0x2) 1 in
  let d := Z.land y 0x1 in
  let e := Z.land (Z.lxor a b) (Z.lxor c d) in
  let p := Z.lxor (Z.land a c) e in
  let q := Z.lxor (Z.land b d) e in
  Z.lor (Z.shiftl p 1) q.

(** scale by N = Omega^2 in GF(2^2) *)
Definition G4_scl_N (x : Z) : Z :=
  let a := Z.shiftr (Z.land x 0x2) 1 in
  let b := Z.land x 0x1 in
  let p := b in
  let q := Z.lxor a b in
  Z.lor (Z.shiftl p 1) q.

(** scale by N^2 = Omega in GF(2^2) *)
Definition G4_scl_N2 (x : Z) : Z :=
  let a := Z.shiftr (Z.land x 0x2) 1 in
  let b := Z.land x 0x1 in
  let p := Z.lxor a b in
  let q := a in
  Z.lor (Z.shiftl p 1) q.

(** square in GF(2^2) *)
Definition G4_sq (x : Z) : Z :=
  let a := Z.shiftr (Z.land x 0x2) 1 in
  let b := Z.land x 0x1 in
  Z.lor (Z.shiftl b 1) a.

(** multiply in GF(2^4), normal basis (alpha^8, alpha^2) *)
Definition G16_mul (x y : Z) : Z :=
  let a := Z.shiftr (Z.land x 0xC) 2 in
  let b := Z.land x 0x3 in
  let c := Z.shiftr (Z.land y 0xC) 2 in
  let d := Z.land y 0x3 in
  let e := G4_mul (Z.lxor a b) (Z.lxor c d) in
  let e := G4_scl_N e in
  let p := Z.lxor (G4_mul a c) e in
  let q := Z.lxor (G4_mul b d) e in
  Z.lor (Z.shiftl p 2) q.

(** square and scale by nu in GF(2^4)/GF(2^2) *)
Definition G16_sq_scl (x : Z) : Z :=
  let a := Z.shiftr (Z.land x 0xC) 2 in
  let b := Z.land x 0x3 in
  let p := G4_sq (Z.lxor a b) in
  let q := G4_scl_N2 (G4_sq b) in
  Z.lor (Z.shiftl p 2) q.

(** inverse in GF(2^4) *)
Definition G16_inv (x : Z) : Z :=
  let a := Z.shiftr (Z.land x 0xC) 2 in
  let b := Z.land x 0x3 in
  let c := G4_scl_N (G4_sq (Z.lxor a b)) in
  let d := G4_mul a b in
  let e := G4_sq (Z.lxor c d) in
  let p := G4_mul e b in
  let q := G4_mul e a in
  Z.lor (Z.shiftl p 2) q.

(** inverse in GF(2^8), normal basis (d^16, d) *)
Definition G256_inv (x : Z) : Z :=
  let a := Z.shiftr (Z.land x 0xF0) 4 in
  let b := Z.land x 0x0F in
  let c := G16_sq_scl (Z.lxor a b) in
  let d := G16_mul a b in
  let e := G16_inv (Z.lxor c d) in
  let p := G16_mul e b in
  let q := G16_mul e a in
  Z.lor (Z.shiftl p 4) q.

(** The loop of [G256_newbasis]: [k] iterations are left, [i = k - 1] is
    the index about to be used; the state is the pair [(x, y)]. *)
Fixpoint newbasis_loop (k : nat) (b : list Z) (x y : Z) : Z :=
  match k with
  | O => y
  | S k' =>
      let y' := if Z.land x 1 =? 0 then y else Z.lxor y (nth k' b 0) in
      newbasis_loop k' b (Z.shiftr x 1) y'
  end.

(** bit matrix multiply: convert to a new basis in GF(2^8) *)
Definition G256_newbasis (x : Z) (b : list Z) : Z := newbasis_loop 8 b x 0.

Definition Sbox (n : Z) : Z :=
  let t := G256_newbasis n A2X in
  let t := G256_inv t in
  let t := G256_newbasis t X2S in
  Z.lxor t 0x63.

Definition iSbox (n : Z) : Z :=
  let t := G256_newbasis (Z.lxor n 0x63) S2X in
  let t := G256_inv t in
  let t := G256_newbasis t X2A in
  t.

(** The 256 bytes [0 .. 255], the domain of the two tables built by
    [main]. *)
Definition bytes256 : list Z := map Z.of_nat (seq 0 256).


(** ** bestboth.c *)

Definition N : Z := 8.

(** [struct gatematrix]: an array of 16-bit columns, a list of indices
    (used in pairs), the number of columns and the number of gates. *)
Record GateMat : Type := mkGateMat {
  mat : list Z;   (* uint32_t mat[128] *)
  ind : list Z;   (* char ind[256] *)
  n : Z;
  g : Z
}.

Definition set_mat (p : GateMat) (m : list Z) : GateMat :=
  {| mat := m; ind := ind p; n := n p; g := g p |}.

(** The inner loop of the table initialisation in [main]:
    [for (j = i & 0xFFFF; j; j >>= 1) k += j & 1;].  A 16-bit [j] is zero
    after 16 shifts. *)
Fixpoint count_bits (fuel : nat) (j k : Z) : Z :=
  match fuel with
  | O => k
  | S fuel' =>
      if j =? 0 then k
      else count_bits fuel' (Z.shiftr j 1) (k + Z.land j 1)
  end.

(** The value [main] stores in [share[i]]. *)
Definition share_entry (i : Z) : Z :=
  if i =? 0 then 0
  else u32 (count_bits 16 (Z.land i 0xFFFF) 0 - 1).

(** The read [share[c]] of the table [static uint32_t share[65536]]. *)
Definition share (c : Z) : outcome Z :=
  if (0 <=? c) && (c <? 65536) then Normal (share_entry c) else Undefined.

(** [memcpy(dst + doff, src + soff, len)] on arrays of one-byte or
    equal-sized elements, [len] counted in elements. *)
Definition memcpy (dst : list Z) (doff : Z) (src : list Z) (soff len : Z)
    : outcome (list Z) :=
  if (0 <=? len) && (0 <=? doff) && (0 <=? soff)
     && (doff + len <=? Z.of_nat (length dst))
     && (soff + len <=? Z.of_nat (length src))
  then Normal (take (Z.to_nat doff) dst
               ++ take (Z.to_nat len) (drop (Z.to_nat soff) src)
               ++ drop (Z.to_nat (doff + len)) dst)
  else Undefined.

(** [copyMat(p, q)]: returns the new contents of [*q]. *)
Definition copyMat (p q : GateMat) : outcome GateMat :=
  let n := n p in
  m ← memcpy (mat q) 0 (mat p) 0 n;
  h ← memcpy (ind q) 0 (ind p) 0 ((n - N) * 2);
  Normal {| mat := m; ind := h; n := n; g := g p |}.

(** The locals [indb], [nb], [gb] of [bestgates]: the best branch seen so
    far in this call. *)
Record Best : Type := mkBest {
  indb : list Z;  (* char indb[256] *)
  nb : Z;
  gb : Z
}.

(** [indb] and [nb] are not initialised in the source; they are only
    read once [gb < 1024], that is after they have been written. *)
Definition best_init : Best :=
  {| indb := replicate 256 0; nb := 0; gb := 1024 |}.

(** The index pair added last: lines 110-115. *)
Definition old_pair (test : GateMat) : outcome (Z * Z) :=
  let n := n test in
  let n2 := 2 * (n - N) in
  if n =? N then Normal (0, 0)
  else
    io ← rd (ind test) (n2 - 2);
    jo ← rd (ind test) (n2 - 1);
    Normal (io, jo).

(** The test of line 121: a prior, independent pair. *)
Definition prior_indep (io jo nm i j : Z) : bool :=
  (i <? io) && negb (j =? io) && negb (j =? jo) && (j <? nm).

(** Lines 125-133: add the column [c] shared by columns [i] and [j]. *)
Definition combine (n g i j c t : Z) (test : GateMat) : outcome GateMat :=
  let np := n + 1 in
  let n2 := 2 * (n - N) in
  let n2p := n2 + 1 in
  mi ← rd (mat test) i;
  m1 ← wr (mat test) i (u32 (Z.lxor mi c));
  mj ← rd m1 j;
  m2 ← wr m1 j (u32 (Z.lxor mj c));
  m3 ← wr m2 n (u32 c);
  h1 ← wr (ind test) n2 i;
  h2 ← wr h1 n2p j;
  Normal {| mat := m3; ind := h2; n := np; g := g - t |}.

(** Lines 135-136: restore the current columns. *)
Definition undo (i j ci cj : Z) (test : GateMat) : outcome GateMat :=
  m1 ← wr (mat test) i (u32 ci);
  m2 ← wr m1 j (u32 cj);
  Normal (set_mat test m2).

(** Lines 137-141: if best yet, save data.  [n0] is the local [n] of
    [bestgates], the number of columns when the call was entered. *)
Definition keep_best (n0 : Z) (test : GateMat) (b : Best) : outcome Best :=
  let n2 := 2 * (n0 - N) in
  if g test <? gb b then
    h ← memcpy (indb b) 0 (ind test) n2 ((n test - n0) * 2);
    Normal {| indb := h; nb := n test; gb := g test |}
  else Normal b.

(** Lines 125-141: the pair [(i, j)] is expanded.  [rec] is the recursive
    call [bestgates()] on the shared state. *)
Definition expand (rec : GateMat -> outcome GateMat) (n g i j c t : Z)
    (s : GateMat * Best) : outcome (GateMat * Best) :=
  mi ← rd (mat s.1) i;
  mj ← rd (mat s.1) j;
  let ci := mi in
  let cj := mj in
  test ← combine n g i j c t s.1;
  test ← rec test;
  test ← undo i j ci cj test;
  b ← keep_best n test s.2;
  Normal (test, b).

(** Lines 118-142: the body of the two loops, for the pair [(i, j)]. *)
Definition visit (rec : GateMat -> outcome GateMat) (n g io jo i j : Z)
    (s : GateMat * Best) : outcome (GateMat * Best) :=
  let nm := n - 1 in
  mi ← rd (mat s.1) i;
  mj ← rd (mat s.1) j;
  let c := Z.land mi mj in
  t ← share c;
  if t =? 0 then Normal s
  else if prior_indep io jo nm i j then Normal s
  else expand rec n g i j c t s.

(** Lines 144-148: if improved, return best data. *)
Definition finish (n0 : Z) (s : GateMat * Best) : outcome GateMat :=
  let n2 := 2 * (n0 - N) in
  let test := s.1 in
  let b := s.2 in
  if gb b <? 1024 then
    h ← memcpy (ind test) n2 (indb b) 0 ((nb b - n0) * 2);
    Normal {| mat := mat test; ind := h; n := nb b; g := gb b |}
  else Normal test.

(** [bestgates()], on the contents of the global [test].  The recursion
    depth is bounded by [fuel]. *)
Fixpoint bestgates (fuel : nat) (test : GateMat) : outcome GateMat :=
  match fuel with
  | O => OutOfFuel
  | S fuel' =>
      let n := n test in
      let g := g test in
      let nm := n - 1 in
      '(io, jo) ← old_pair test;
      s ← for_loop 0 nm (fun i =>
             for_loop (i + 1) n (fun j =>
               visit (bestgates fuel') n g io jo i j))
           (test, best_init);
      finish n s
  end.

(** Line 159: the first loop of [bestmat], the original columns of [*p]
    are copied into [test]. *)
Definition load_orig (p test : GateMat) : outcome GateMat :=
  for_loop 0 N (fun i test =>
    v ← rd (mat p) i;
    m ← wr (mat test) i v;
    Normal (set_mat test m)) test.

(** Lines 161-166: the body of the second loop of [bestmat], for the
    recorded pair number [n]. *)
Definition replay_step (n : Z) (test : GateMat) : outcome GateMat :=
  i ← rd (ind test) (n * 2);
  j ← rd (ind test) (n * 2 + 1);
  mi ← rd (mat test) i;
  mj ← rd (mat test) j;
  let c := Z.land mi mj in
  m1 ← wr (mat test) i (u32 (Z.lxor mi c));
  mj ← rd m1 j;
  m2 ← wr m1 j (u32 (Z.lxor mj c));
  m3 ← wr m2 (n + N) (u32 c);
  Normal (set_mat test m3).

(** [bestmat(p)]: returns the new contents of [*p] and of [test].  [p]
    points to [orig[k]], an object other than [test]. *)
Definition bestmat (p test : GateMat) : outcome (GateMat * GateMat) :=
  let p' := {| mat := mat p; ind := ind p; n := n p; g := g test |} in
  test ← load_orig p test;
  test ← for_loop 0 (n test - N) replay_step test;
  Normal (p', test).

(** The text printed by [blockPrint(p, ...)], as the values it formats:
    the low bytes and the high bytes of the columns, the index pairs,
    the number of columns and the number of gates. *)
Record Block : Type := mkBlock {
  low_row : list Z;
  high_row : list Z;
  pairs : list (Z * Z);
  ncols : Z;
  gates : Z
}.

Fixpoint pairs_of (k : nat) (h : list Z) : list (Z * Z) :=
  match k, h with
  | S k', i :: j :: h' => (i, j) :: pairs_of k' h'
  | _, _ => []
  end.

Definition blockPrint (p : GateMat) : Block :=
  let cols := take (Z.to_nat (n p)) (mat p) in
  {| low_row := map (fun m => Z.land m 0xFF) cols;
     high_row := map (fun m => Z.shiftr (Z.land m 0xFF00) 8) cols;
     pairs := pairs_of (Z.to_nat (n p - N)) (ind p);
     ncols := n p;
     gates := g p |}.

(** Lines 200-203 and 207-211: the matrix pair [k] of a record, from the
    32 decoded bytes [InitMat] (order A2X, X2A, X2S, S2X).  [orig] is the
    local [orig[k]] as it stands (uninitialised at first). *)
Definition build_orig (InitMat : list Z) (k : Z) (orig : GateMat)
    : outcome GateMat :=
  let a := if k =? 0 then 0 else 2 in
  let b := if k =? 0 then 3 else 1 in
  m ← for_loop 0 8 (fun i m =>
         x ← rd InitMat (8 * a + i);
         y ← rd InitMat (8 * b + i);
         wr m i (u32 (Z.lor x (Z.shiftl y 8)))) (mat orig);
  j ← for_loop 0 8 (fun i j =>
         v ← rd m i;
         t ← share v;
         Normal (j + t)) 0;
  Normal {| mat := m; ind := ind orig; n := 8; g := j - 8 |}.

(** What is printed for one matrix pair, and for one input record. *)
Record PairReport : Type := mkPairReport {
  original : Block;
  optimized : Block
}.

Record Report : Type := mkReport {
  first_pair : PairReport;
  second_pair : PairReport;
  total : Z;            (* gt *)
  summands : Z * Z      (* (orig[0]).g, (orig[1]).g *)
}.

(** Lines 206-222 for one [k]: returns the new [orig[k]], the new [test]
    and what was printed. *)
Definition optimize_pair (fuel : nat) (InitMat : list Z) (k : Z)
    (orig test : GateMat) : outcome (GateMat * GateMat * PairReport) :=
  orig ← build_orig InitMat k orig;
  let before := blockPrint orig in
  test ← copyMat orig test;
  test ← bestgates fuel test;
  '(orig, test) ← bestmat orig test;
  Normal (orig, test, {| original := before; optimized := blockPrint test |}).

(** The body of the [while] loop of [main] for one record whose 32 bytes
    have been decoded into [InitMat]. *)
Definition main_record (fuel : nat) (InitMat : list Z)
    (orig0 orig1 test : GateMat) : outcome (GateMat * Report) :=
  '(orig0, test, r0) ← optimize_pair fuel InitMat 0 orig0 test;
  let gt := 0 + g test in
  '(orig1, test, r1) ← optimize_pair fuel InitMat 1 orig1 test;
  let gt := gt + g test in
  Normal (test, {| first_pair := r0; second_pair := r1; total := gt;
                   summands := (g orig0, g orig1) |}).

(** The contents of the zero-initialised [static GateMat test]. *)
Definition test_static : GateMat :=
  {| mat := replicate 128 0; ind := replicate 256 0; n := 0; g := 0 |}.

(** ** Definitions used to state the properties *)

(** Number of set bits among the low 16 bits. *)
Definition bit_at (v : Z) (k : nat) : Z :=
  if Z.testbit v (Z.of_nat k) then 1 else 0.

Definition sumZ (l : list Z) : Z := fold_right Z.add 0 l.

Definition popcount (v : Z) : Z := sumZ (map (bit_at v) (seq 0 16)).

(** The savings of a shared pattern as the specification words it. *)
Definition savings (v : Z) : Z := if v =? 0 then 0 else popcount v - 1.

(** The columns in use and their total number of set bits. *)
Definition cols (p : GateMat) : list Z := take (Z.to_nat (n p)) (mat p).

Definition weight (l : list Z) : Z := sumZ (map popcount l).

Definition col16 (v : Z) : bool := (0 <=? v) && (v <? 65536).

(** A state of the type [GateMat] whose columns in use are 16-bit
    patterns: the arrays have their declared sizes and the number of
    columns is at least the original 8. *)
Definition well_formed (p : GateMat) : bool :=
  (length (mat p) =? 128)%nat && (length (ind p) =? 256)%nat
  && (N <=? n p) && (n p <=? 128) && forallb col16 (cols p).

(** An initial state: well formed, with the 8 original columns. *)
Definition initial (p : GateMat) : bool := well_formed p && (n p =? N).

(** The combine move of columns [i < j] on a list of columns: the
    overlap is appended and removed from both columns.  Returns the new
    columns and the overlap. *)
Definition combine_cols (l : list Z) (i j : Z) : option (list Z * Z) :=
  if (0 <=? i) && (i <? j) && (j <? Z.of_nat (length l)) then
    match l !! Z.to_nat i, l !! Z.to_nat j with
    | Some mi, Some mj =>
        let c := Z.land mi mj in
        Some (<[Z.to_nat j := Z.lxor mj c]> (<[Z.to_nat i := Z.lxor mi c]> l)
              ++ [c], c)
    | _, _ => None
    end
  else None.

(** Replaying a list of index pairs as combine moves, each with nonzero
    savings: the final columns and the sum of the savings. *)
Fixpoint replay (l : list Z) (h : list (Z * Z)) : option (list Z * Z) :=
  match h with
  | [] => Some (l, 0)
  | (i, j) :: h' =>
      match combine_cols l i j with
      | Some (l', c) =>
          if savings c =? 0 then None
          else match replay l' h' with
               | Some (l'', s) => Some (l'', savings c + s)
               | None => None
               end
      | None => None
      end
  end.

(** The index pairs a state records for the columns from [a] on. *)
Definition history_from (a : Z) (p : GateMat) : list (Z * Z) :=
  pairs_of (Z.to_nat (n p - a)) (drop (Z.to_nat (2 * (a - N))) (ind p)).

Definition byte (v : Z) : bool := (0 <=? v) && (v <? 256).

(** The 8 packed columns of the matrix pair [k] of a record: the low
    byte from the first matrix of the pair, the high byte from the
    second. *)
Definition packed_columns (InitMat : list Z) (k : Z) : list Z :=
  let a := if k =? 0 then 0%nat else 2%nat in
  let b := if k =? 0 then 3%nat else 1%nat in
  map (fun i => Z.lor (nth (8 * a + i) InitMat 0)
                      (Z.shiftl (nth (8 * b + i) InitMat 0) 8))
      (seq 0 8).



(** The invariant of the search: a well-formed state with room for
    every column that can still be added (a combine removes at least two
    set bits from the columns and adds one column). *)
Definition inv (p : GateMat) : Prop :=
  well_formed p = true /\ 2 * n p + weight (cols p) <= 144.

(** What a call of [bestgates] entered in state [p] leaves in [p']: the
    columns and the history of [p] are as they were, and the history
    added replays from the columns of [p] with savings [g p - g p']. *)
Definition post (p p' : GateMat) : Prop :=
  length (mat p') = 128%nat /\ length (ind p') = 256%nat
  /\ take (Z.to_nat (n p)) (mat p') = cols p
  /\ take (Z.to_nat (2 * (n p - N))) (ind p')
     = take (Z.to_nat (2 * (n p - N))) (ind p)
  /\ n p <= n p' /\ 2 * n p' <= 2 * n p + weight (cols p)
  /\ exists l', replay (cols p) (history_from (n p) p') = Some (l', g p - g p').

(** The same for the best branch kept in the locals. *)
Definition best_ok (p : GateMat) (b : Best) : Prop :=
  length (indb b) = 256%nat /\ gb b <= 1024
  /\ (gb b < 1024 ->
      n p <= nb b /\ 2 * nb b <= 2 * n p + weight (cols p)
      /\ exists l', replay (cols p) (pairs_of (Z.to_nat (nb b - n p)) (indb b))
                    = Some (l', g p - gb b)).

(** A small initial state: two columns [3], the other columns empty. *)
Definition demo : GateMat :=
  {| mat := [3; 3] ++ replicate 126 0; ind := replicate 256 0;
     n := 8; g := -6 |}.

(** The same columns in a state whose 128 columns are all in use. *)
Definition full : GateMat :=
  {| mat := [3; 3] ++ replicate 126 0; ind := replicate 256 0;
     n := 128; g := 0 |}.

(** The state [bestgates] leaves when it is entered in state [demo]. *)
Definition demo_searched : GateMat :=
  {| mat := [3; 3; 0; 0; 0; 0; 0; 0; 3] ++ replicate 119 0;
     ind := [0; 1] ++ replicate 254 0; n := 9; g := -7 |}.

(** The 32 bytes of the record of the header comment (id 4). *)
Definition record4 : list Z := A2X ++ X2A ++ X2S ++ S2X.


(** [a] is a subset of [b], as sets of bits. *)
Definition sub (a b : Z) : Prop :=
  forall k, 0 <= k -> Z.testbit a k = true -> Z.testbit b k = true.

(** The combine moves on a multiset of columns: [reach L len s] when
    [len] moves, each on two columns that share at least two bits, can
    be made from [L], with savings [s] in total. *)
Inductive reach : list Z -> nat -> Z -> Prop :=
| reach_stop (L : list Z) : reach L 0 0
| reach_move (L : list Z) (a b : Z) (R : list Z) (len : nat) (s : Z) :
    L ≡ₚ a :: b :: R ->
    2 <= popcount (Z.land a b) ->
    reach (Z.land a b :: Z.lxor a (Z.land a b) :: Z.lxor b (Z.land a b) :: R)
      len s ->
    reach L (S len) (s + (popcount (Z.land a b) - 1)).

(** ** A bound from the columns alone *)

(** The overlap of [x] and [y] when it has at least [k] bits. *)
Definition ovl (k x y : Z) : Z :=
  if k <=? popcount (Z.land x y) then Z.land x y else 0.

(** The bits of [x] in an overlap of at least [k] bits with a column of
    [O]. *)
Fixpoint lev (k x : Z) (O : list Z) : Z :=
  match O with
  | [] => 0
  | y :: O' => Z.lor (ovl k x y) (lev k x O')
  end.

(** The number of columns of [l] that hold the bit [r] in an overlap of
    at least [k] bits with another column of [l] or a column of
    [pre]. *)
Fixpoint cnt (k : Z) (r : nat) (pre l : list Z) : Z :=
  match l with
  | [] => 0
  | a :: l' => bit_at (lev k a (pre ++ l')) r + cnt k r (a :: pre) l'
  end.

(** [n - 1], or 0 when [n] is 0. *)
Definition excess (n : Z) : Z := n - Z.min n 1.

Definition rows_pot (k : Z) (L : list Z) : Z :=
  sumZ (map (fun r => excess (cnt k r [] L)) (seq 0 16)).

(** Sixty times the bound: a move on an overlap of [p] bits takes one
    column from [p] bit positions at every level up to [p], and saves
    [p - 1]; the weights of the levels up to [p] add up to
    [60 * (p - 1) / p] (to 60 from level 6 on). *)
Definition potential (L : list Z) : Z :=
  30 * rows_pot 2 L + 10 * rows_pot 3 L + 5 * rows_pot 4 L
  + 3 * rows_pot 5 L + 12 * rows_pot 6 L.

(** The bit [r] is in an overlap of [x] and [y] of at least [k] bits. *)
Definition pair_at (k : Z) (r : nat) (x y : Z) : bool :=
  Z.testbit (Z.land x y) (Z.of_nat r) && (k <=? popcount (Z.land x y)).

(** ** A bound on the savings of all combine sequences

    The search of [bestgates] on the record of the header comment is too
    long to be evaluated in the model.  What it returns is settled with
    the help of a second, faster search over multisets of columns, on
    machine integers, with a table of the multisets already seen and a
    bound computed from the columns alone, which bounds the savings that
    any sequence of combine moves can make. *)

Abbreviation int := Uint63.int.
(** Constants of type [int]. *)
Definition i_0 : int := Eval vm_compute in Uint63.of_Z 0.
Definition i_1 : int := Eval vm_compute in Uint63.of_Z 1.
Definition i_2 : int := Eval vm_compute in Uint63.of_Z 2.
Definition i_3 : int := Eval vm_compute in Uint63.of_Z 3.
Definition i_4 : int := Eval vm_compute in Uint63.of_Z 4.
Definition i_5 : int := Eval vm_compute in Uint63.of_Z 5.
Definition i_8 : int := Eval vm_compute in Uint63.of_Z 8.
Definition i_10 : int := Eval vm_compute in Uint63.of_Z 10.
Definition i_12 : int := Eval vm_compute in Uint63.of_Z 12.
Definition i_30 : int := Eval vm_compute in Uint63.of_Z 30.
Definition i_60 : int := Eval vm_compute in Uint63.of_Z 60.
Definition i_xFF : int := Eval vm_compute in Uint63.of_Z 0xFF.
Definition i_x0F0F : int := Eval vm_compute in Uint63.of_Z 0x0F0F.
Definition i_x3333 : int := Eval vm_compute in Uint63.of_Z 0x3333.
Definition i_x5555 : int := Eval vm_compute in Uint63.of_Z 0x5555.
Definition i_x10000 : int := Eval vm_compute in Uint63.of_Z 0x10000.
Definition i_1000003 : int := Eval vm_compute in Uint63.of_Z 1000003.
Definition i_xFFFFF : int := Eval vm_compute in Uint63.of_Z 0xFFFFF.
Definition i_x100000 : int := Eval vm_compute in Uint63.of_Z 0x100000.
(** The largest [int]; as a bound it stands for no bound at all. *)
Definition i_max : int := Eval vm_compute in Uint63.of_Z 9223372036854775807.

(** Number of set bits of a 16-bit integer. *)
Definition pop16 (x : int) : int :=
  let x := Uint63.add (Uint63.land x i_x5555)
                      (Uint63.land (Uint63.lsr x i_1) i_x5555) in
  let x := Uint63.add (Uint63.land x i_x3333)
                      (Uint63.land (Uint63.lsr x i_2) i_x3333) in
  let x := Uint63.add (Uint63.land x i_x0F0F)
                      (Uint63.land (Uint63.lsr x i_4) i_x0F0F) in
  Uint63.add (Uint63.land x i_xFF) (Uint63.lsr x i_8).

(** The same, read from a table. *)
Fixpoint fill_pop (n : nat) (i : int) (t : PrimArray.array int)
    : PrimArray.array int :=
  match n with
  | O => t
  | S n' => fill_pop n' (Uint63.add i i_1) (PrimArray.set t i (pop16 i))
  end.

Definition pop_tbl : PrimArray.array int :=
  Eval vm_compute in
    fill_pop (Z.to_nat 65536) i_0 (PrimArray.make i_x10000 i_0).

Definition popt (x : int) : int := PrimArray.get pop_tbl x.

(** [x] without its lowest set bit. *)
Definition drop1 (c : int) : int := Uint63.land c (Uint63.sub c i_1).

(** An overlap of at least two bits. *)
Definition big (c : int) : bool := negb (Uint63.eqb (drop1 c) i_0).

Fixpoint insert_sorted (x : int) (l : list int) : list int :=
  match l with
  | [] => [x]
  | y :: l' => if Uint63.leb x y then x :: l else y :: insert_sorted x l'
  end.

(** The bits of [a] that are in an overlap of at least two bits with a
    column of [l], added to [acc]. *)
Fixpoint useful (a : int) (l : list int) (acc : int) : int :=
  match l with
  | [] => acc
  | b :: l' =>
      let c := Uint63.land a b in
      useful a l' (if big c then Uint63.lor acc c else acc)
  end.

(** Every column is reduced to its useful bits, empty columns are
    dropped, and the columns are sorted.  [pre] holds the columns
    before the first of [l], [acc] the result so far. *)
Fixpoint norm_aux (pre l acc : list int) : list int :=
  match l with
  | [] => acc
  | a :: l' =>
      let a' := useful a l' (useful a pre i_0) in
      norm_aux (a :: pre) l'
        (if Uint63.eqb a' i_0 then acc else insert_sorted a' acc)
  end.

Definition normalize (l : list int) : list int := norm_aux [] l [].

(** The bits of a column in overlaps of at least 2, 3, 4, 5 and 6 bits
    with another column. *)
Record levels : Type := mkLevels {
  lv2 : int; lv3 : int; lv4 : int; lv5 : int; lv6 : int
}.

Fixpoint add_levels (a : int) (l : list int) (B2 B3 B4 B5 B6 : int)
    : levels :=
  match l with
  | [] => mkLevels B2 B3 B4 B5 B6
  | b :: l' =>
      let c := Uint63.land a b in
      let c1 := drop1 c in
      if Uint63.eqb c1 i_0 then add_levels a l' B2 B3 B4 B5 B6 else
      let c2 := drop1 c1 in
      if Uint63.eqb c2 i_0 then
        add_levels a l' (Uint63.lor B2 c) B3 B4 B5 B6 else
      let c3 := drop1 c2 in
      if Uint63.eqb c3 i_0 then
        add_levels a l' (Uint63.lor B2 c) (Uint63.lor B3 c) B4 B5 B6 else
      let c4 := drop1 c3 in
      if Uint63.eqb c4 i_0 then
        add_levels a l' (Uint63.lor B2 c) (Uint63.lor B3 c) (Uint63.lor B4 c)
          B5 B6 else
      let c5 := drop1 c4 in
      if Uint63.eqb c5 i_0 then
        add_levels a l' (Uint63.lor B2 c) (Uint63.lor B3 c) (Uint63.lor B4 c)
          (Uint63.lor B5 c) B6 else
      add_levels a l' (Uint63.lor B2 c) (Uint63.lor B3 c) (Uint63.lor B4 c)
        (Uint63.lor B5 c) (Uint63.lor B6 c)
  end.

(** The weighted number of bits of five sets. *)
Definition wpop (B2 B3 B4 B5 B6 : int) : int :=
  Uint63.add (Uint63.mul i_30 (popt B2))
    (Uint63.add (Uint63.mul i_10 (popt B3))
      (Uint63.add (Uint63.mul i_5 (popt B4))
        (Uint63.add (Uint63.mul i_3 (popt B5))
                    (Uint63.mul i_12 (popt B6))))).

(** Addition that stays at [i_max] when it would overflow. *)
Definition sadd (a b : int) : int :=
  let x := Uint63.add a b in
  if Uint63.ltb x a then i_max else x.

Definition imax (a b : int) : int := if Uint63.ltb a b then b else a.

(** The normalized columns, as [normalize] gives them, and a bound on
    the savings of all sequences of moves from them: a sequence saves
    at most one sixtieth of the sum, over the bit positions and the
    levels, of the weighted number of columns less one that hold the
    position in an overlap of that level. *)
Fixpoint norm_pot (pre l acc : list int) (psum A2 A3 A4 A5 A6 : int)
    : list int * int :=
  match l with
  | [] =>
      (acc,
       if Uint63.eqb psum i_max then i_max
       else Uint63.div (Uint63.sub psum (wpop A2 A3 A4 A5 A6)) i_60)
  | a :: l' =>
      match add_levels a pre i_0 i_0 i_0 i_0 i_0 with
      | mkLevels p2 p3 p4 p5 p6 =>
          match add_levels a l' p2 p3 p4 p5 p6 with
          | mkLevels B2 B3 B4 B5 B6 =>
              norm_pot (a :: pre) l'
                (if Uint63.eqb B2 i_0 then acc else insert_sorted B2 acc)
                (sadd psum (wpop B2 B3 B4 B5 B6))
                (Uint63.lor A2 B2) (Uint63.lor A3 B3) (Uint63.lor A4 B4)
                (Uint63.lor A5 B5) (Uint63.lor A6 B6)
          end
      end
  end.

Definition normpot (l : list int) : list int * int :=
  norm_pot [] l [] i_0 i_0 i_0 i_0 i_0 i_0.

(** The table of the multisets already bounded, hashed on their
    columns. *)
Definition table : Type := PrimArray.array (list (list int * int)).

Fixpoint hash (k : list int) (h : int) : int :=
  match k with
  | [] => Uint63.land h i_xFFFFF
  | x :: k' => hash k' (Uint63.lxor (Uint63.mul h i_1000003) x)
  end.

Fixpoint list_eqb (a b : list int) : bool :=
  match a, b with
  | [], [] => true
  | x :: a', y :: b' => if Uint63.eqb x y then list_eqb a' b' else false
  | _, _ => false
  end.

Fixpoint assoc (k : list int) (l : list (list int * int)) : option int :=
  match l with
  | [] => None
  | (k', v) :: l' => if list_eqb k k' then Some v else assoc k l'
  end.

Definition empty_table : table := PrimArray.make i_x100000 [].

(** The columns after the move on [a] and [b], the other columns being
    [pre], [mid] (both reversed) and [rest]. *)
Definition moved (pre : list int) (a : int) (mid : list int) (b : int)
    (rest : list int) : list int :=
  let c := Uint63.land a b in
  c :: Uint63.lxor a c :: Uint63.lxor b c :: rev_append pre (rev_append mid rest).

Section Moves.
Variable rec : list int -> int -> table -> int * table.
Variable T : int.

(** All moves of the column [a] with a column of [rest]: [v] becomes
    the largest of [v] and of the savings of the move plus the bound of
    what it leaves.  [T] is the bound hoped for: what the columns alone
    bound by it is not searched. *)
Fixpoint inner (pre : list int) (a : int) (mid rest : list int)
    (v : int) (t : table) : int * table :=
  match rest with
  | [] => (v, t)
  | b :: rest' =>
      let c := Uint63.land a b in
      if Uint63.eqb (drop1 c) i_0 then inner pre a (b :: mid) rest' v t
      else
        let sv := Uint63.sub (popt c) i_1 in
        let T' := Uint63.sub T sv in
        match normpot (moved pre a mid b rest') with
        | (k', u) =>
            if Uint63.leb u T' then
              inner pre a (b :: mid) rest' (imax v (sadd sv u)) t
            else
              match rec k' T' t with
              | (r, t') => inner pre a (b :: mid) rest' (imax v (sadd sv r)) t'
              end
        end
  end.

(** All moves of two columns of [rest]. *)
Fixpoint outer (pre rest : list int) (v : int) (t : table) : int * table :=
  match rest with
  | [] => (v, t)
  | a :: rest' =>
      match inner pre a [] rest' v t with
      | (v', t') => outer (a :: pre) rest' v' t'
      end
  end.
End Moves.

(** The bound of the normalized multiset [k] from its moves, kept in
    the table when it is at most [T]. *)
Definition explore (rec : list int -> int -> table -> int * table)
    (k : list int) (T : int) (h : int) (t : table) : int * table :=
  match outer rec T [] k i_0 t with
  | (v, t') =>
      if Uint63.leb v T then
        match PrimArray.get t' h with
        | [] => (v, PrimArray.set t' h [(k, v)])
        | b => (v, PrimArray.set t' h ((k, v) :: b))
        end
      else (v, t')
  end.

Fixpoint solve (fuel : nat) (k : list int) (T : int) (t : table)
    : int * table :=
  match fuel with
  | O => (i_max, t)
  | S fuel' =>
      let h := hash k i_0 in
      match assoc k (PrimArray.get t h) with
      | Some v =>
          if Uint63.leb v T then (v, t) else explore (solve fuel') k T h t
      | None => explore (solve fuel') k T h t
      end
  end.

(** A bound for the columns [L] of the model, [T] being hoped for. *)
Definition bound (L : list Z) (T : Z) (t : table) : int * table :=
  match normpot (map Uint63.of_Z L) with
  | (k, u) =>
      let T' := Uint63.of_Z T in
      if Uint63.leb u T' then (u, t) else solve 200 k T' t
  end.

(** The columns of the model that a list of integers stands for. *)
Definition cols_of (k : list int) : list Z := map Uint63.to_Z k.

Definition valid16 (a : int) : Prop := Uint63.to_Z a < 65536.

(** [x] is zero. *)
Definition is0 (x : int) : bool := Uint63.eqb x i_0.

(** The facts about one column that are checked on all 16-bit
    integers: the table holds the number of set bits, and dropping the
    lowest set bit [j] times leaves nothing exactly when there are at
    most [j] set bits. *)
Definition check16 (v : Z) : bool :=
  let c := Uint63.of_Z v in
  let p := popcount v in
  Uint63.eqb (popt c) (Uint63.of_Z p)
  && Bool.eqb (is0 (drop1 c)) (p <? 2)
  && Bool.eqb (is0 (drop1 (drop1 c))) (p <? 3)
  && Bool.eqb (is0 (drop1 (drop1 (drop1 c)))) (p <? 4)
  && Bool.eqb (is0 (drop1 (drop1 (drop1 (drop1 c))))) (p <? 5)
  && Bool.eqb (is0 (drop1 (drop1 (drop1 (drop1 (drop1 c)))))) (p <? 6).

Fixpoint all_from (n : nat) (v : Z) : bool :=
  match n with
  | O => true
  | S n' => check16 v && all_from n' (v + 1)
  end.

(** The integer [v] bounds [s]: [i_max] bounds everything. *)
Definition bnd (s : Z) (v : int) : Prop := v = i_max \/ s <= Uint63.to_Z v.

(** [v] bounds the savings of all sequences of moves from [L]. *)
Definition sound (L : list Z) (v : int) : Prop :=
  forall len s, reach L len s -> bnd s v.

Definition tbl_ok (t : table) : Prop :=
  forall i k v, In (k, v) (PrimArray.get t i) -> sound (cols_of k) v.

(** The columns after the move on [A] and [B], the other columns
    being [R]. *)
Definition childZ (A B : Z) (R : list Z) : list Z :=
  Z.land A B :: Z.lxor A (Z.land A B) :: Z.lxor B (Z.land A B) :: R.

(** A function that returns sound bounds and keeps the table sound. *)
Definition rec_ok (rec : list int -> int -> table -> int * table) : Prop :=
  forall k T t, tbl_ok t -> Forall valid16 k ->
                sound (cols_of k) (rec k T t).1 /\ tbl_ok (rec k T t).2.

(** The level [k] of an overlap [c] added to the set [B]. *)
Definition add_level (k : Z) (c B : int) : int :=
  if k <=? popcount (Uint63.to_Z c) then Uint63.lor B c else B.

(** The sets of bits that [cnt] counts, one for each column. *)
Fixpoint levs (k : Z) (pre l : list Z) : list Z :=
  match l with
  | [] => []
  | a :: l' => lev k a (pre ++ l') :: levs k (a :: pre) l'
  end.

Definition lorall (l : list Z) : Z := fold_right Z.lor 0 l.

Definition wz (x2 x3 x4 x5 x6 : Z) : Z :=
  30 * x2 + 10 * x3 + 5 * x4 + 3 * x5 + 12 * x6.

(** The loops of [bestgates] as one pass over the list of the index
    pairs, in the order of the loops. *)
Fixpoint foldM {S A : Type} (f : A -> S -> outcome S) (l : list A) (s : S)
    : outcome S :=
  match l with
  | [] => Normal s
  | x :: l' => s' ← f x s; foldM f l' s'
  end.

Fixpoint zrange (k : nat) (lo : Z) : list Z :=
  match k with
  | O => []
  | S k' => lo :: zrange k' (lo + 1)
  end.

Definition pairs_lex (n : Z) : list (Z * Z) :=
  flat_map (fun i => map (pair i) (zrange (Z.to_nat (n - (i + 1))) (i + 1)))
    (zrange (Z.to_nat (n - 1 - 0)) 0).

(** After the move on the pair [ij] every sequence of moves saves less
    than [B] in all. *)
Definition worse (L : list Z) (B : Z) (ij : Z * Z) : Prop :=
  forall L' c, combine_cols L ij.1 ij.2 = Some (L', c) -> savings c <> 0 ->
    forall hh l s, replay L' hh = Some (l, s) -> savings c + s < B.

(** The history [h] is the one the search keeps from the columns [L]
    entered with the old pair [(io, jo)]: each of its moves is expanded,
    and the pairs visited before it save less than [B]. *)
Fixpoint path_ok (L : list Z) (io jo : Z) (h : list (Z * Z)) (B : Z) : Prop :=
  match h with
  | [] => B = 0
  | (i, j) :: h' =>
      exists L' c l1 l2,
        combine_cols L i j = Some (L', c) /\ savings c <> 0
        /\ prior_indep io jo (Z.of_nat (length L) - 1) i j = false
        /\ pairs_lex (Z.of_nat (length L)) = l1 ++ (i, j) :: l2
        /\ Forall (worse L B) l1
        /\ path_ok L' i j h' (B - savings c)
  end.

(** ** A check that a history is the one the search returns *)

(** The bound [v] shows savings of less than [B]. *)
Definition below (v : int) (B : Z) : bool :=
  negb (Uint63.eqb v i_max) && (Uint63.to_Z v <? B).

(** The pairs of [pl] before [(i, j)]: each has no savings, or the
    bound computed for the columns it leaves shows that it saves less
    than [B] in all. *)
Fixpoint check_before (L : list Z) (i j B : Z) (pl : list (Z * Z))
    (t : table) : bool * table :=
  match pl with
  | [] => (false, t)
  | (i', j') :: pl' =>
      if (i' =? i) && (j' =? j) then (true, t)
      else
        match combine_cols L i' j' with
        | Some (L', c) =>
            if savings c =? 0 then check_before L i j B pl' t
            else
              match bound L' (B - savings c - 1) t with
              | (v, t') =>
                  if below v (B - savings c) then check_before L i j B pl' t'
                  else (false, t')
              end
        | None => (false, t)
        end
  end.

Fixpoint check_path (L : list Z) (io jo : Z) (h : list (Z * Z)) (B : Z)
    (t : table) : bool * table :=
  match h with
  | [] => (B =? 0, t)
  | (i, j) :: h' =>
      match combine_cols L i j with
      | Some (L', c) =>
          if (savings c =? 0)
             || prior_indep io jo (Z.of_nat (length L) - 1) i j
          then (false, t)
          else
            match check_before L i j B (pairs_lex (Z.of_nat (length L))) t with
            | (true, t') => check_path L' i j h' (B - savings c) t'
            | (false, t') => (false, t')
            end
      | None => (false, t)
      end
  end.

(** The columns [L] are 16-bit patterns, no sequence of moves from them
    saves more than [B], and [h] is the first branch that saves [B]. *)
Definition check_search (L : list Z) (h : list (Z * Z)) (B : Z) : bool :=
  forallb col16 L
  && (match bound L B empty_table with
      | (v, t) => below v (B + 1) && (check_path L 0 0 h B t).1
      end).

(** The histories of the header comment of bestboth.c. *)
Definition history0 : list (Z * Z) :=
  [(0, 2); (0, 3); (1, 7); (2, 10); (3, 11); (4, 7); (5, 8); (6, 10); (4, 15)].

Definition history1 : list (Z * Z) :=
  [(0, 4); (1, 3); (1, 7); (2, 4); (2, 8); (2, 6); (3, 13); (5, 11); (6, 9);
   (10, 12)].

(** What [blockPrint] prints for the columns [L] with the history [h]
    and [gt] gates. *)
Definition block_of (L : list Z) (h : list (Z * Z)) (gt : Z) : Block :=
  {| low_row := map (fun m => Z.land m 0xFF) L;
     high_row := map (fun m => Z.shiftr (Z.land m 0xFF00) 8) L;
     pairs := h;
     ncols := Z.of_nat (length L);
     gates := gt |}.

(** The output the header comment of bestboth.c gives for record 4. *)
Definition header_report : Report :=
  {| first_pair :=
       {| original :=
            {| low_row := A2X; high_row := S2X; pairs := [];
               ncols := 8; gates := 42 |};
          optimized :=
            {| low_row := [0x00; 0x00; 0x00; 0x00; 0x00; 0x01; 0x28; 0x04;
                           0x10; 0x08; 0x10; 0x22; 0x40; 0x08; 0x80; 0x80;
                           0x01];
               high_row := [0x00; 0x28; 0x00; 0x62; 0x00; 0x00; 0x01; 0x00;
                            0x00; 0x88; 0x00; 0x00; 0x01; 0x02; 0x04; 0x40;
                            0x10];
               pairs := history0; ncols := 17; gates := 20 |} |};
     second_pair :=
       {| original :=
            {| low_row := X2S; high_row := X2A; pairs := [];
               ncols := 8; gates := 38 |};
          optimized :=
            {| low_row := [0x00; 0x00; 0x00; 0x00; 0x00; 0x00; 0x00; 0x00;
                           0x40; 0x08; 0x24; 0x80; 0x18; 0x00; 0x02; 0x04;
                           0x01; 0x00];
               high_row := [0x04; 0x10; 0x00; 0x80; 0x00; 0x21; 0xD0; 0x00;
                            0x00; 0x00; 0x00; 0x00; 0x00; 0x02; 0x04; 0x08;
                            0x08; 0x60];
               pairs := history1; ncols := 18; gates := 18 |} |};
     total := 38;
     summands := (20, 18) |}.


(** ** The field structure behind sboxalg.c *)

(** The integers [0 .. k-1] and all pairs and triples of them: the
    domains of the exhaustive checks of the subfield operations. *)
Definition upto (k : nat) : list Z := map Z.of_nat (seq 0 k).

Definition all1 (k : nat) (P : Z -> bool) : bool := forallb P (upto k).

Definition all2 (k : nat) (P : Z -> Z -> bool) : bool :=
  all1 k (fun x => all1 k (P x)).

Definition all3 (k : nat) (P : Z -> Z -> Z -> bool) : bool :=
  all1 k (fun x => all2 k (P x)).

(** The unit elements of the normal bases: the sum of the two basis
    elements is 1 in each extension. *)
Definition G4_one : Z := 0x3.
Definition G16_one : Z := 0xF.

(** [N = Omega^2] and [N^2 = Omega] in the basis (Omega^2, Omega). *)
Definition G4_N : Z := 0x2.
Definition G4_N2 : Z := 0x1.

(** [nu = N^2 * alpha^2] in the basis (alpha^8, alpha^2). *)
Definition G16_nu : Z := 0x1.

(** The composition of the steps of [Sbox] before the affine part, read
    in the polynomial basis: change to the normal basis, invert, change
    back. *)
Definition inverse_in_A (n : Z) : Z :=
  G256_newbasis (G256_inv (G256_newbasis n A2X)) X2A.

(** The AES field of FIPS-197: bytes as polynomials over GF(2) modulo
    [x^8 + x^4 + x^3 + x + 1]. *)
Definition xtime (a : Z) : Z :=
  let s := Z.land (Z.shiftl a 1) 0xFF in
  if Z.testbit a 7 then Z.lxor s 0x1B else s.

Fixpoint AES_mul_loop (k : nat) (a b acc : Z) : Z :=
  match k with
  | O => acc
  | S k' =>
      AES_mul_loop k' (xtime a) (Z.shiftr b 1)
        (if Z.testbit b 0 then Z.lxor acc a else acc)
  end.

Definition AES_mul (a b : Z) : Z := AES_mul_loop 8 a b 0.

(** The affine transformation of SubBytes:
    [b'_i = b_i + b_(i+4) + b_(i+5) + b_(i+6) + b_(i+7) + c_i] with the
    indices modulo 8 and [c = 0x63]. *)
Definition AES_affine_bit (b : Z) (i : nat) : bool :=
  let bit k := Z.testbit b (Z.of_nat ((i + k) mod 8)) in
  xorb (xorb (xorb (xorb (xorb (bit 0%nat) (bit 4%nat)) (bit 5%nat))
                   (bit 6%nat)) (bit 7%nat))
       (Z.testbit 0x63 (Z.of_nat i)).

Definition AES_affine (b : Z) : Z :=
  fold_right (fun i acc => if AES_affine_bit b i
                           then Z.lor acc (Z.shiftl 1 (Z.of_nat i)) else acc)
    0 (seq 0 8).

(** [m] is the multiplicative inverse of the byte [n] in the AES field,
    with 0 mapped to 0. *)
Definition AES_inverse_of (n m : Z) : Prop :=
  0 <= m < 256 /\ (n = 0 -> m = 0) /\ (n <> 0 -> AES_mul n m = 1).

(** ** Definitions used to state further properties of bestboth.c *)

(** Some two of the columns share at least two rows: [share[c]] is not
    zero for the overlap [c] of some pair the loops of [bestgates]
    visit. *)
Definition sharable (l : list Z) : bool :=
  existsb (fun ij => negb (savings (Z.land (nth (Z.to_nat ij.1) l 0)
                                           (nth (Z.to_nat ij.2) l 0)) =? 0))
    (pairs_lex (Z.of_nat (length l))).

(** The matrix as a linear map over GF(2): column [k] lists the output
    rows that input signal [k] feeds; the outputs, as a bit pattern, for
    the signal values [x]. *)
Fixpoint apply_cols (l : list Z) (x : list bool) : Z :=
  match l, x with
  | c :: l', b :: x' => Z.lxor (if b then c else 0) (apply_cols l' x')
  | _, _ => 0
  end.

(** The signals of the optimised network: each recorded pair [(i, j)]
    adds the signal that is the XOR of the signals [i] and [j]. *)
Fixpoint signals (x : list bool) (h : list (Z * Z)) : list bool :=
  match h with
  | [] => x
  | (i, j) :: h' =>
      signals (x ++ [xorb (nth (Z.to_nat i) x false)
                          (nth (Z.to_nat j) x false)]) h'
  end.

(** A state whose 8 columns are the unit patterns. *)
Definition unit_columns : GateMat :=
  {| mat := [1; 2; 4; 8; 16; 32; 64; 128] ++ replicate 120 0;
     ind := replicate 256 0; n := 8; g := -8 |}.



(** An initial state with two best branches: the columns 0, 2 and 3 are
    equal, and column 1 is part of them. *)
Definition tied : GateMat :=
  {| mat := [7; 3; 7; 7] ++ replicate 124 0; ind := replicate 256 0;
     n := 8; g := -1 |}.
(** * Properties *)

(** ** The outcome monad and the loops *)

Lemma bind_normal {A B : Type} (m : outcome A) (k : A -> outcome B) (b : B) :
  m ≫= k = Normal b <-> exists a, m = Normal a /\ k a = Normal b.
Proof.
  destruct m; simpl; split; try (intros [a0 [H _]]; discriminate);
    try discriminate.
  - intros H. exists a. auto.
  - intros [a0 [H1 H2]]. inversion H1. subst. exact H2.
Qed.

(** A loop whose body keeps an invariant and returns normally does so
    too. *)
Lemma for_count_inv {S : Type} (Inv : S -> Prop) (body : Z -> S -> outcome S) :
  forall (k : nat) (lo : Z) (s : S),
    Inv s ->
    (forall i s0, lo <= i < lo + Z.of_nat k -> Inv s0 ->
       exists s1, body i s0 = Normal s1 /\ Inv s1) ->
    exists s', for_count k lo body s = Normal s' /\ Inv s'.
Proof.
  induction k as [|k IH]; intros lo s Hs Hbody; simpl.
  - exists s. auto.
  - destruct (Hbody lo s) as [s1 [E1 H1]]; [lia | assumption |].
    rewrite E1. simpl. apply IH; [assumption |].
    intros i s0 Hi H0. apply Hbody; [lia | assumption].
Qed.

Lemma for_loop_inv {S : Type} (Inv : S -> Prop) (body : Z -> S -> outcome S)
    (lo hi : Z) (s : S) :
  Inv s ->
  (forall i s0, lo <= i < hi -> Inv s0 ->
     exists s1, body i s0 = Normal s1 /\ Inv s1) ->
  exists s', for_loop lo hi body s = Normal s' /\ Inv s'.
Proof.
  intros Hs Hbody. unfold for_loop. apply for_count_inv; [assumption |].
  intros i s0 Hi H0. apply Hbody; [lia | assumption].
Qed.

(** ** sboxalg.c: the two tables are inverse of each other *)

Lemma bytes256_spec (v : Z) : 0 <= v < 256 -> In v bytes256.
Proof.
  intros Hv. unfold bytes256. apply in_map_iff. exists (Z.to_nat v).
  split; [lia |]. apply in_seq. lia.
Qed.

Lemma Sbox_tables_check :
  forallb (fun v => (iSbox (Sbox v) =? v) && (Sbox (iSbox v) =? v)
                    && (0 <=? Sbox v) && (Sbox v <? 256)
                    && (0 <=? iSbox v) && (iSbox v <? 256)) bytes256 = true.
Proof. vm_compute. reflexivity. Qed.

(** C9: for every byte, [iSbox (Sbox v) = v] and [Sbox (iSbox v) = v], and
    both functions map bytes to bytes: they are permutations of 0..255,
    inverse of each other. *)
Theorem Sbox_iSbox_inverse (v : Z) :
  0 <= v < 256 ->
  iSbox (Sbox v) = v /\ Sbox (iSbox v) = v
  /\ 0 <= Sbox v < 256 /\ 0 <= iSbox v < 256.
Proof.
  intros Hv. pose proof Sbox_tables_check as H.
  rewrite forallb_forall in H. specialize (H v (bytes256_spec v Hv)).
  repeat (apply andb_prop in H; destruct H as [H ?]).
  lia.
Qed.

Lemma Sbox_iSbox_inverse_witness :
  0 <= 0x53 < 256 /\ iSbox (Sbox 0x53) = 0x53 /\ Sbox 0x53 = 0xED.
Proof.
  split; [lia |].
  split; [apply (Sbox_iSbox_inverse 0x53); lia | reflexivity].
Defined.

(** ** Bit counts *)

Lemma sumZ_app (l1 l2 : list Z) : sumZ (l1 ++ l2) = sumZ l1 + sumZ l2.
Proof. induction l1 as [|x l1 IH]; simpl; [reflexivity | rewrite IH; lia]. Qed.

Lemma sumZ_map_add {A : Type} (f h k : A -> Z) (l : list A) :
  (forall x, f x + h x = k x) ->
  sumZ (map f l) + sumZ (map h l) = sumZ (map k l).
Proof.
  intros E. induction l as [|x l IH]; simpl; [reflexivity |].
  specialize (E x). lia.
Qed.

Lemma sumZ_map_bounds {A : Type} (f : A -> Z) (l : list A) :
  (forall x, 0 <= f x <= 1) ->
  0 <= sumZ (map f l) <= Z.of_nat (length l).
Proof.
  intros E. induction l as [|x l IH]; simpl length; simpl sumZ; [lia |].
  specialize (E x). lia.
Qed.

Lemma bit_at_bounds (v : Z) (k : nat) : 0 <= bit_at v k <= 1.
Proof. unfold bit_at. destruct (Z.testbit _ _); lia. Qed.

Lemma popcount_bounds (v : Z) : 0 <= popcount v <= 16.
Proof.
  unfold popcount.
  pose proof (sumZ_map_bounds (bit_at v) (seq 0 16) (bit_at_bounds v)) as H.
  rewrite length_seq in H. lia.
Qed.

Lemma bit_at_shiftr (v : Z) (k : nat) :
  bit_at (Z.shiftr v 1) k = bit_at v (S k).
Proof.
  unfold bit_at. rewrite Z.shiftr_spec by lia.
  replace (Z.of_nat k + 1) with (Z.of_nat (S k)) by lia. reflexivity.
Qed.

Lemma land_1_bit (v : Z) : Z.land v 1 = bit_at v 0.
Proof.
  unfold bit_at. change 1 with (Z.ones 1) at 1. rewrite Z.land_ones by lia.
  change (Z.of_nat 0) with 0. rewrite Z.bit0_odd, Zmod_odd.
  reflexivity.
Qed.

Lemma bits_sum_S (v : Z) (m : nat) :
  sumZ (map (bit_at v) (seq 0 (S m)))
  = bit_at v 0 + sumZ (map (bit_at (Z.shiftr v 1)) (seq 0 m)).
Proof.
  simpl seq. simpl map. simpl sumZ. f_equal.
  rewrite <- seq_shift, map_map. f_equal.
  apply map_ext. intros k. symmetry. apply bit_at_shiftr.
Qed.

Lemma bits_sum_0 (l : list nat) : sumZ (map (bit_at 0) l) = 0.
Proof.
  induction l as [|k l IH]; simpl; [reflexivity |].
  unfold bit_at at 1. rewrite Z.bits_0. lia.
Qed.

(** The loop of the table initialisation counts the set bits. *)
Lemma count_bits_spec (fuel : nat) :
  forall j k, 0 <= j < 2 ^ Z.of_nat fuel ->
    count_bits fuel j k = k + sumZ (map (bit_at j) (seq 0 fuel)).
Proof.
  induction fuel as [|fuel IH]; intros j k Hj.
  - simpl. lia.
  - cbn [count_bits]. destruct (Z.eqb_spec j 0) as [->|Hne].
    + rewrite bits_sum_0. lia.
    + rewrite IH, bits_sum_S, land_1_bit; [lia |].
      rewrite Z.shiftr_div_pow2 by lia.
      rewrite Nat2Z.inj_succ, Z.pow_succ_r in Hj by lia.
      change (2 ^ 1) with 2. split; [apply Z.div_pos; lia |].
      apply Z.div_lt_upper_bound; lia.
Qed.

Lemma testbit_high (v : Z) (k : Z) :
  0 <= v < 65536 -> 16 <= k -> Z.testbit v k = false.
Proof.
  intros Hv Hk. destruct (Z.eq_dec v 0) as [->|Hne]; [apply Z.bits_0 |].
  apply Z.bits_above_log2; [lia |].
  assert (Z.log2 v < 16); [| lia].
  apply Z.log2_lt_pow2; lia.
Qed.

Lemma sumZ_map_nonneg {A : Type} (f : A -> Z) (l : list A) :
  (forall x, 0 <= f x) -> 0 <= sumZ (map f l).
Proof.
  intros Hf. induction l as [|z l IH]; simpl; [lia |].
  pose proof (Hf z). lia.
Qed.

Lemma sumZ_zero_all {A : Type} (f : A -> Z) (l : list A) :
  (forall x, 0 <= f x) -> sumZ (map f l) = 0 -> forall x, In x l -> f x = 0.
Proof.
  intros Hf. induction l as [|y l IH]; simpl; [tauto |].
  pose proof (sumZ_map_nonneg f l Hf). pose proof (Hf y).
  intros Hs x [->|Hx]; [lia |].
  apply IH; [lia | assumption].
Qed.

Lemma popcount_pos (v : Z) : 0 <= v < 65536 -> v <> 0 -> 1 <= popcount v.
Proof.
  intros Hv Hne. pose proof (popcount_bounds v) as Hb.
  destruct (Z.eq_dec (popcount v) 0) as [E|]; [| lia].
  exfalso. apply Hne. apply Z.bits_inj'. intros k Hk. rewrite Z.bits_0.
  destruct (Z_lt_le_dec k 16) as [Hlt|Hge]; [| apply testbit_high; lia].
  pose proof (sumZ_zero_all (bit_at v) (seq 0 16)
                (fun x => proj1 (bit_at_bounds v x)) E (Z.to_nat k)) as H.
  unfold bit_at in H. rewrite Z2Nat.id in H by lia.
  destruct (Z.testbit v k); [| reflexivity].
  exfalso. assert (1 = 0); [apply H; apply in_seq; lia | lia].
Qed.

Lemma popcount_0 : popcount 0 = 0.
Proof. reflexivity. Qed.

Lemma share_entry_spec (v : Z) :
  0 <= v < 65536 -> share_entry v = savings v.
Proof.
  intros Hv. unfold share_entry, savings.
  destruct (Z.eqb_spec v 0) as [|Hne]; [reflexivity |].
  change 0xFFFF with (Z.ones 16). rewrite Z.land_ones by lia.
  rewrite Z.mod_small by (change (2 ^ 16) with 65536; lia).
  rewrite count_bits_spec by (change (2 ^ Z.of_nat 16) with 65536; lia).
  fold (popcount v). pose proof (popcount_bounds v).
  pose proof (popcount_pos v Hv Hne).
  unfold u32. rewrite Z.mod_small; lia.
Qed.

Lemma share_spec (v : Z) : 0 <= v < 65536 -> share v = Normal (savings v).
Proof.
  intros Hv. unfold share.
  destruct (Z.leb_spec 0 v); [| lia]. destruct (Z.ltb_spec v 65536); [| lia].
  simpl. rewrite share_entry_spec by lia. reflexivity.
Qed.

Lemma popcount_pow2 (k : Z) : 0 <= k < 16 -> popcount (2 ^ k) = 1.
Proof.
  intros Hk.
  assert (H : In k (map Z.of_nat (seq 0 16))).
  { apply in_map_iff. exists (Z.to_nat k). split; [lia |]. apply in_seq. lia. }
  simpl in H.
  repeat (destruct H as [<-|H]; [reflexivity |]). destruct H.
Qed.

(** C6: the table entry of a 16-bit pattern [v] is [popcount v - 1] when
    [v] is not zero and 0 when it is; a pattern with a single set bit has
    savings 0. *)
Theorem share_table (v : Z) :
  0 <= v < 65536 ->
  share v = Normal (if v =? 0 then 0 else popcount v - 1)
  /\ (forall k, 0 <= k < 16 -> v = 2 ^ k -> share v = Normal 0).
Proof.
  intros Hv. split; [apply share_spec; assumption |].
  intros k Hk ->. rewrite share_spec by assumption. unfold savings.
  rewrite popcount_pow2 by assumption.
  destruct (2 ^ k =? 0); reflexivity.
Qed.

Lemma share_table_witness :
  0 <= 0x0F03 < 65536 /\ share 0x0F03 = Normal 5.
Proof.
  split; [lia |].
  exact (proj1 (share_table 0x0F03 ltac:(lia))).
Defined.

(** ** Array accesses *)

Lemma u32_small (v : Z) : 0 <= v < 4294967296 -> u32 v = v.
Proof. intros Hv. unfold u32. apply Z.mod_small. assumption. Qed.

Lemma rd_normal (a : list Z) (i v : Z) :
  0 <= i -> a !! Z.to_nat i = Some v -> rd a i = Normal v.
Proof.
  intros Hi E. unfold rd. destruct (Z.leb_spec 0 i); [| lia].
  rewrite E. reflexivity.
Qed.

Lemma wr_normal (a : list Z) (i v : Z) :
  0 <= i < Z.of_nat (length a) -> wr a i v = Normal (<[Z.to_nat i := v]> a).
Proof.
  intros Hi. unfold wr. destruct (Z.leb_spec 0 i); [| lia].
  destruct (lookup_lt_is_Some_2 a (Z.to_nat i)) as [x ->]; [lia |].
  reflexivity.
Qed.

Lemma rd_cases (a : list Z) (i : Z) :
  (exists v, rd a i = Normal v /\ a !! Z.to_nat i = Some v /\ 0 <= i)
  \/ rd a i = Undefined.
Proof.
  unfold rd. destruct (Z.leb_spec 0 i); [| right; reflexivity].
  destruct (a !! Z.to_nat i) as [v|]; [left; eauto | right; reflexivity].
Qed.

Lemma wr_cases (a : list Z) (i v : Z) :
  (wr a i v = Normal (<[Z.to_nat i := v]> a) /\ 0 <= i < Z.of_nat (length a))
  \/ wr a i v = Undefined.
Proof.
  unfold wr. destruct (Z.leb_spec 0 i); [| right; reflexivity].
  destruct (a !! Z.to_nat i) as [x|] eqn:E; [| right; reflexivity].
  left. split; [reflexivity |]. apply lookup_lt_Some in E. lia.
Qed.

Lemma memcpy_normal (dst : list Z) (doff : Z) (src : list Z) (soff len : Z) :
  0 <= len -> 0 <= doff -> 0 <= soff ->
  doff + len <= Z.of_nat (length dst) ->
  soff + len <= Z.of_nat (length src) ->
  memcpy dst doff src soff len
  = Normal (take (Z.to_nat doff) dst
            ++ take (Z.to_nat len) (drop (Z.to_nat soff) src)
            ++ drop (Z.to_nat (doff + len)) dst).
Proof.
  intros. unfold memcpy.
  repeat match goal with
         | |- context [?a <=? ?b] => destruct (Z.leb_spec a b); [| lia]
         end.
  reflexivity.
Qed.

Lemma memcpy_length (dst : list Z) (doff : Z) (src : list Z) (soff len : Z)
    (r : list Z) :
  memcpy dst doff src soff len = Normal r -> length r = length dst.
Proof.
  unfold memcpy.
  destruct (_ && _) eqn:E; [| discriminate].
  repeat (apply andb_prop in E; destruct E as [E ?]).
  intros [= <-]. rewrite !length_app, !length_take, !length_drop. lia.
Qed.

(** ** 16-bit patterns under AND and XOR *)

Lemma col16_spec (v : Z) : col16 v = true <-> 0 <= v < 65536.
Proof. unfold col16. rewrite andb_true_iff, Z.leb_le, Z.ltb_lt. tauto. Qed.

Lemma lt_65536_of_bits (x : Z) :
  0 <= x -> (forall k, 16 <= k -> Z.testbit x k = false) -> x < 65536.
Proof.
  intros Hx Hb.
  assert (E : x = x mod 2 ^ 16).
  { rewrite <- Z.land_ones by lia. apply Z.bits_inj'. intros k Hk.
    rewrite Z.land_spec. destruct (Z_lt_le_dec k 16).
    - rewrite Z.ones_spec_low by lia. rewrite andb_true_r. reflexivity.
    - rewrite Hb by lia. reflexivity. }
  rewrite E. change 65536 with (2 ^ 16). apply Z.mod_pos_bound. lia.
Qed.

Lemma land_16 (a b : Z) :
  0 <= a < 65536 -> 0 <= b < 65536 -> 0 <= Z.land a b < 65536.
Proof.
  intros Ha Hb. split; [apply Z.land_nonneg; lia |].
  apply lt_65536_of_bits; [apply Z.land_nonneg; lia |].
  intros k Hk. rewrite Z.land_spec, (testbit_high a) by lia. reflexivity.
Qed.

Lemma lxor_16 (a b : Z) :
  0 <= a < 65536 -> 0 <= b < 65536 -> 0 <= Z.lxor a b < 65536.
Proof.
  intros Ha Hb. split; [apply Z.lxor_nonneg; lia |].
  apply lt_65536_of_bits; [apply Z.lxor_nonneg; lia |].
  intros k Hk. rewrite Z.lxor_spec, (testbit_high a), (testbit_high b) by lia.
  reflexivity.
Qed.

(** Removing the overlap from a column removes its bits. *)
Lemma popcount_remove (a b : Z) :
  popcount (Z.lxor a (Z.land a b)) + popcount (Z.land a b) = popcount a.
Proof.
  unfold popcount. apply sumZ_map_add. intros k. unfold bit_at.
  rewrite Z.lxor_spec, Z.land_spec.
  destruct (Z.testbit a _), (Z.testbit b _); reflexivity.
Qed.

Lemma popcount_remove_r (a b : Z) :
  popcount (Z.lxor b (Z.land a b)) + popcount (Z.land a b) = popcount b.
Proof. rewrite (Z.land_comm a b). apply popcount_remove. Qed.

Lemma savings_nonzero (c : Z) :
  0 <= c < 65536 -> savings c <> 0 -> 2 <= popcount c /\ 1 <= savings c.
Proof.
  intros Hc. unfold savings. destruct (Z.eqb_spec c 0); [tauto |].
  pose proof (popcount_pos c Hc). lia.
Qed.

(** ** Weight of a list of columns *)

Lemma weight_app (l1 l2 : list Z) : weight (l1 ++ l2) = weight l1 + weight l2.
Proof. unfold weight. rewrite map_app. apply sumZ_app. Qed.

Lemma weight_nil : weight [] = 0.
Proof. reflexivity. Qed.

Lemma weight_cons (x : Z) (l : list Z) : weight (x :: l) = popcount x + weight l.
Proof. reflexivity. Qed.

Lemma weight_nonneg (l : list Z) : 0 <= weight l.
Proof. apply sumZ_map_nonneg. intros x. apply popcount_bounds. Qed.

Lemma weight_le (l : list Z) : weight l <= 16 * Z.of_nat (length l).
Proof.
  induction l as [|x l IH]; [rewrite weight_nil; simpl; lia |].
  rewrite weight_cons.
  pose proof (popcount_bounds x). rewrite length_cons. lia.
Qed.

Lemma weight_insert (l : list Z) (i : nat) (x y : Z) :
  l !! i = Some y ->
  weight (<[i := x]> l) = weight l - popcount y + popcount x.
Proof.
  revert i. induction l as [|z l IH]; intros [|i] E; try discriminate.
  - injection E as ->. simpl. rewrite !weight_cons. lia.
  - specialize (IH i E). simpl. rewrite !weight_cons. lia.
Qed.

Lemma Forall_col16_insert (l : list Z) (i : nat) (x : Z) :
  Forall (fun v => 0 <= v < 65536) l -> 0 <= x < 65536 ->
  Forall (fun v => 0 <= v < 65536) (<[i := x]> l).
Proof.
  intros Hl Hx. apply Forall_insert; assumption.
Qed.

Lemma forallb_col16 (l : list Z) :
  forallb col16 l = true <-> Forall (fun v => 0 <= v < 65536) l.
Proof.
  rewrite forallb_forall, Forall_forall. split; intros H x Hx.
  - apply col16_spec, H, list_elem_of_In, Hx.
  - apply col16_spec, H, list_elem_of_In, Hx.
Qed.

(** ** Combine moves and their replay *)

Lemma combine_cols_props (l : list Z) (i j : Z) (l' : list Z) (c : Z) :
  combine_cols l i j = Some (l', c) ->
  Forall (fun v => 0 <= v < 65536) l ->
  0 <= c < 65536
  /\ weight l' + popcount c = weight l
  /\ 2 * popcount c <= weight l
  /\ length l' = S (length l)
  /\ Forall (fun v => 0 <= v < 65536) l'.
Proof.
  unfold combine_cols. intros H Hl.
  destruct (_ && _) eqn:Hb; [| discriminate].
  apply andb_prop in Hb. destruct Hb as [Hb Hj]. apply andb_prop in Hb.
  destruct Hb as [Hi Hij]. apply Z.leb_le in Hi. apply Z.ltb_lt in Hij, Hj.
  destruct (l !! Z.to_nat i) as [mi|] eqn:Ei; [| discriminate].
  destruct (l !! Z.to_nat j) as [mj|] eqn:Ej; [| discriminate].
  injection H as <- <-.
  pose proof (Forall_lookup_1 _ _ _ _ Hl Ei) as Hmi. simpl in Hmi.
  pose proof (Forall_lookup_1 _ _ _ _ Hl Ej) as Hmj. simpl in Hmj.
  pose proof (land_16 mi mj Hmi Hmj) as Hc.
  assert (Ej' : <[Z.to_nat i := Z.lxor mi (Z.land mi mj)]> l !! Z.to_nat j
                = Some mj) by (rewrite list_lookup_insert_ne; [assumption | lia]).
  pose proof (popcount_remove mi mj). pose proof (popcount_remove_r mi mj).
  assert (Hw : 0 <= weight (<[Z.to_nat j := 0]> (<[Z.to_nat i := 0]> l)))
    by apply weight_nonneg.
  rewrite (weight_insert _ _ _ mj), (weight_insert _ _ _ mi), popcount_0 in Hw;
    [| assumption | rewrite list_lookup_insert_ne; [assumption | lia]].
  split; [assumption |]. split.
  { rewrite weight_app, (weight_insert _ _ _ mj), (weight_insert _ _ _ mi)
      by assumption.
    rewrite weight_cons, weight_nil. clear - H H0. lia. }
  split; [clear - H H0 Hw; pose proof (popcount_bounds (Z.lxor mi (Z.land mi mj)));
          pose proof (popcount_bounds (Z.lxor mj (Z.land mi mj))); lia |]. split.
  { rewrite length_app, !length_insert. simpl. lia. }
  apply Forall_app. split.
  - apply Forall_insert; [apply Forall_insert; [assumption |] |];
      apply lxor_16; assumption.
  - constructor; [assumption | constructor].
Qed.

Lemma replay_props (h : list (Z * Z)) :
  forall (l l' : list Z) (s : Z),
    replay l h = Some (l', s) ->
    Forall (fun v => 0 <= v < 65536) l ->
    Forall (fun v => 0 <= v < 65536) l'
    /\ length l' = (length l + length h)%nat
    /\ weight l' + s + Z.of_nat (length h) = weight l
    /\ Z.of_nat (length h) <= s.
Proof.
  induction h as [|[i j] h IH]; intros l l' s H Hl.
  - injection H as <- <-. simpl. repeat split; try assumption; lia.
  - simpl in H. destruct (combine_cols l i j) as [[l1 c]|] eqn:Ec; [| discriminate].
    destruct (Z.eqb_spec (savings c) 0) as [|Hs]; [discriminate |].
    destruct (replay l1 h) as [[l2 s2]|] eqn:Er; [| discriminate].
    injection H as <- <-.
    destruct (combine_cols_props _ _ _ _ _ Ec Hl) as (Hc & Hw & _ & Hlen & Hl1).
    destruct (IH _ _ _ Er Hl1) as (Hl2 & Hlen2 & Hw2 & Hs2).
    destruct (savings_nonzero c Hc Hs) as [Hp Hs1].
    assert (savings c = popcount c - 1).
    { unfold savings. destruct (Z.eqb_spec c 0) as [->|]; [| reflexivity].
      rewrite popcount_0 in Hp. lia. }
    split; [assumption |]. split; [simpl; lia |]. simpl length. lia.
Qed.

Lemma bind_Normal {A B : Type} (a : A) (k : A -> outcome B) :
  Normal a ≫= k = k a.
Proof. reflexivity. Qed.

(** ** Index pairs stored in [ind] *)

Lemma pairs_of_ext (k : nat) :
  forall l1 l2 : list Z,
    take (2 * k) l1 = take (2 * k) l2 -> pairs_of k l1 = pairs_of k l2.
Proof.
  induction k as [|k IH]; intros l1 l2 E; [reflexivity |].
  replace (2 * S k)%nat with (S (S (2 * k))) in E by lia.
  destruct l1 as [|a1 [|b1 l1]], l2 as [|a2 [|b2 l2]];
    simpl in E; try discriminate; try reflexivity.
  injection E as -> -> E. simpl. f_equal. apply IH. exact E.
Qed.

Lemma pairs_of_length (k : nat) :
  forall l : list Z, (2 * k <= length l)%nat -> length (pairs_of k l) = k.
Proof.
  induction k as [|k IH]; intros l Hl; [reflexivity |].
  destruct l as [|a [|b l]]; simpl in Hl; try lia.
  simpl. f_equal. apply IH. lia.
Qed.

Lemma drop_two (l x : list Z) (m : nat) (i j : Z) :
  (m <= length x)%nat ->
  take (m + 2) l = take m x ++ [i; j] ->
  drop m l = i :: j :: drop (m + 2) l.
Proof.
  intros Hx E. rewrite <- (take_drop (m + 2) l) at 1. rewrite E.
  rewrite <- app_assoc. rewrite drop_app_length'; [reflexivity |].
  rewrite length_take. lia.
Qed.

(** ** The search engine *)

Lemma inv_facts (p : GateMat) :
  inv p ->
  length (mat p) = 128%nat /\ length (ind p) = 256%nat
  /\ 8 <= n p <= 72
  /\ Forall (fun v => 0 <= v < 65536) (cols p)
  /\ length (cols p) = Z.to_nat (n p)
  /\ 2 * n p + weight (cols p) <= 144.
Proof.
  intros [Hwf Hcap]. unfold well_formed in Hwf.
  repeat (apply andb_prop in Hwf; destruct Hwf as [Hwf ?]).
  apply Nat.eqb_eq in Hwf.
  repeat match goal with
         | H : (_ =? _)%nat = true |- _ => apply Nat.eqb_eq in H
         | H : (_ <=? _) = true |- _ => apply Z.leb_le in H
         | H : forallb _ _ = true |- _ => apply forallb_col16 in H
         end.
  pose proof (weight_nonneg (cols p)). unfold N in *.
  repeat split; try assumption; try lia.
  unfold cols. rewrite length_take. lia.
Qed.

Lemma bind_eq {A B : Type} (m : outcome A) (a : A) (k : A -> outcome B) :
  m = Normal a -> m ≫= k = k a.
Proof. intros ->. reflexivity. Qed.

(** Run the first command of a sequence, [tac] proving that it returns
    normally. *)
Ltac bhead tac :=
  lazymatch goal with
  | |- @mbind _ _ _ _ ?k ?m = _ => erewrite (bind_eq m _ k) by tac; cbv beta
  end.

Lemma combine_normal (n0 g0 i j t mi mj : Z) (tc : GateMat) :
  length (mat tc) = 128%nat -> length (ind tc) = 256%nat ->
  0 <= i < j -> j < n0 -> 8 <= n0 < 128 ->
  mat tc !! Z.to_nat i = Some mi -> mat tc !! Z.to_nat j = Some mj ->
  0 <= mi < 65536 -> 0 <= mj < 65536 ->
  combine n0 g0 i j (Z.land mi mj) t tc
  = Normal {| mat := <[Z.to_nat n0 := Z.land mi mj]>
                       (<[Z.to_nat j := Z.lxor mj (Z.land mi mj)]>
                          (<[Z.to_nat i := Z.lxor mi (Z.land mi mj)]> (mat tc)));
              ind := <[Z.to_nat (2 * (n0 - N) + 1) := j]>
                       (<[Z.to_nat (2 * (n0 - N)) := i]> (ind tc));
              n := n0 + 1;
              g := g0 - t |}.
Proof.
  intros Lm Li Hij Hjn Hn Ei Ej Hmi Hmj.
  pose proof (land_16 mi mj Hmi Hmj) as Hc.
  pose proof (lxor_16 mi _ Hmi Hc) as Hxi.
  pose proof (lxor_16 mj _ Hmj Hc) as Hxj.
  unfold combine, N.
  bhead ltac:(apply rd_normal; [lia | eassumption]).
  bhead ltac:(apply wr_normal; lia).
  bhead ltac:(apply rd_normal;
              [lia | rewrite list_lookup_insert_ne by lia; eassumption]).
  bhead ltac:(apply wr_normal; rewrite !length_insert; lia).
  bhead ltac:(apply wr_normal; rewrite !length_insert; lia).
  bhead ltac:(apply wr_normal; lia).
  bhead ltac:(apply wr_normal; rewrite !length_insert; lia).
  rewrite !u32_small by lia. reflexivity.
Qed.

Lemma undo_normal (i j ci cj : Z) (tr : GateMat) :
  length (mat tr) = 128%nat -> 0 <= i < 128 -> 0 <= j < 128 ->
  0 <= ci < 65536 -> 0 <= cj < 65536 ->
  undo i j ci cj tr
  = Normal (set_mat tr (<[Z.to_nat j := cj]> (<[Z.to_nat i := ci]> (mat tr)))).
Proof.
  intros Lm Hi Hj Hci Hcj. unfold undo.
  bhead ltac:(apply wr_normal; lia).
  bhead ltac:(apply wr_normal; rewrite !length_insert; lia).
  rewrite !u32_small by lia. reflexivity.
Qed.

(** Restoring the two columns after the overlap was removed. *)
Lemma restore_cols (l : list Z) (i j : nat) (mi mj xi xj : Z) :
  l !! i = Some mi -> l !! j = Some mj ->
  <[j := mj]> (<[i := mi]> (<[j := xj]> (<[i := xi]> l))) = l.
Proof.
  intros Ei Ej. apply list_eq. intros k.
  destruct (decide (k = j)) as [->|Hkj].
  - rewrite list_lookup_insert_eq; [congruence |].
    rewrite !length_insert. eapply lookup_lt_Some; eassumption.
  - rewrite list_lookup_insert_ne by congruence.
    destruct (decide (k = i)) as [->|Hki].
    + rewrite list_lookup_insert_eq; [congruence |].
      rewrite !length_insert. eapply lookup_lt_Some; eassumption.
    + rewrite !list_lookup_insert_ne by congruence. reflexivity.
Qed.

Lemma cols_combined (M L : list Z) (k i j : nat) (xi xj c : Z) :
  take k M = L -> (i < k)%nat -> (j < k)%nat -> (k < length M)%nat ->
  take (S k) (<[k := c]> (<[j := xj]> (<[i := xi]> M)))
  = <[j := xj]> (<[i := xi]> L) ++ [c].
Proof.
  intros E Hi Hj Hk.
  rewrite (take_S_r _ _ c)
    by (apply list_lookup_insert_eq; rewrite !length_insert; lia).
  rewrite take_insert_ge by lia.
  rewrite !take_insert_lt by lia. rewrite E. reflexivity.
Qed.

Lemma take_two_inserts (H : list Z) (m : nat) (i j : Z) :
  (m + 1 < length H)%nat ->
  take (m + 2) (<[(m + 1)%nat := j]> (<[m := i]> H)) = take m H ++ [i; j].
Proof.
  intros Hm. replace (m + 2)%nat with (S (S m)) by lia.
  rewrite (take_S_r _ (S m) j)
    by (replace (S m) with (m + 1)%nat by lia;
        apply list_lookup_insert_eq; rewrite !length_insert; lia).
  rewrite (take_S_r _ m i)
    by (rewrite list_lookup_insert_ne by lia;
        apply list_lookup_insert_eq; lia).
  rewrite !take_insert_ge by lia. rewrite <- app_assoc. reflexivity.
Qed.

Lemma combine_cols_eq (L : list Z) (i j mi mj : Z) :
  0 <= i < j -> j < Z.of_nat (length L) ->
  L !! Z.to_nat i = Some mi -> L !! Z.to_nat j = Some mj ->
  combine_cols L i j
  = Some (<[Z.to_nat j := Z.lxor mj (Z.land mi mj)]>
            (<[Z.to_nat i := Z.lxor mi (Z.land mi mj)]> L) ++ [Z.land mi mj],
          Z.land mi mj).
Proof.
  intros Hij Hj Ei Ej. unfold combine_cols.
  destruct (Z.leb_spec 0 i); [| lia]. destruct (Z.ltb_spec i j); [| lia].
  destruct (Z.ltb_spec j (Z.of_nat (length L))); [| lia].
  simpl. rewrite Ei, Ej. reflexivity.
Qed.

Lemma keep_best_step (p tu : GateMat) (b : Best) :
  inv p -> post p tu -> best_ok p b ->
  exists b', keep_best (n p) tu b = Normal b' /\ best_ok p b'.
Proof.
  intros Hinv Hpost Hbest.
  destruct (inv_facts p Hinv) as (Lm & Li & Hn & H16 & Lc & Hcap).
  destruct Hpost as (Lmt & Lit & Ecols & Eind & Hnt & Hnt2 & l0 & Hrep).
  pose proof Hbest as (Lb & Hgb & Hb).
  pose proof (weight_nonneg (cols p)) as Hw.
  unfold keep_best. destruct (Z.ltb_spec (g tu) (gb b)) as [Hlt|Hge].
  - rewrite memcpy_normal by (unfold N; lia). rewrite bind_Normal.
    eexists. split; [reflexivity |]. unfold best_ok. cbn [indb nb gb].
    split.
    { rewrite !length_app, !length_take, !length_drop. unfold N. lia. }
    split; [lia |]. intros _. split; [lia |]. split; [lia |].
    exists l0. rewrite <- Hrep. f_equal. unfold history_from.
    apply pairs_of_ext. change (Z.to_nat 0) with 0%nat. rewrite take_0.
    cbn [app]. rewrite take_app_le
      by (rewrite length_take, length_drop; unfold N; lia).
    rewrite take_take. f_equal. unfold N. lia.
  - exists b. auto.
Qed.

(** One expansion: combine, recursive call, undo.  The recursive call
    is known to satisfy [post] on states of smaller weight. *)
Lemma expand_facts (fuel : nat) (p tc : GateMat) (i j mi mj : Z) :
  (forall q, inv q -> weight (cols q) < Z.of_nat fuel ->
     exists q', bestgates fuel q = Normal q' /\ post q q') ->
  inv p -> weight (cols p) < Z.of_nat (S fuel) ->
  0 <= i < j -> j < n p ->
  post p tc ->
  cols p !! Z.to_nat i = Some mi -> cols p !! Z.to_nat j = Some mj ->
  savings (Z.land mi mj) <> 0 ->
  exists q tr,
    combine (n p) (g p) i j (Z.land mi mj) (savings (Z.land mi mj)) tc
    = Normal q
    /\ n q = n p + 1
    /\ bestgates fuel q = Normal tr
    /\ n p + 1 <= n tr
    /\ undo i j mi mj tr
       = Normal (set_mat tr (<[Z.to_nat j := mj]> (<[Z.to_nat i := mi]> (mat tr))))
    /\ post p (set_mat tr (<[Z.to_nat j := mj]> (<[Z.to_nat i := mi]> (mat tr)))).
Proof.
  intros IH Hinv Hfuel Hij Hjn Hpost Ei Ej Hs.
  destruct (inv_facts p Hinv) as (Lm & Li & Hn & H16 & Lc & Hcap).
  pose proof Hpost as (Lmt & Lit & Ecols & Eind & Hnt & Hnt2 & l0 & Hrep).
  pose proof (Forall_lookup_1 _ _ _ _ H16 Ei) as Hmi. simpl in Hmi.
  pose proof (Forall_lookup_1 _ _ _ _ H16 Ej) as Hmj. simpl in Hmj.
  assert (Eti : mat tc !! Z.to_nat i = Some mi).
  { rewrite <- Ecols in Ei. rewrite lookup_take_lt in Ei by lia. exact Ei. }
  assert (Etj : mat tc !! Z.to_nat j = Some mj).
  { rewrite <- Ecols in Ej. rewrite lookup_take_lt in Ej by lia. exact Ej. }
  pose proof (land_16 mi mj Hmi Hmj) as Hc.
  pose proof (combine_cols_eq (cols p) i j mi mj Hij ltac:(lia) Ei Ej) as Ecc.
  destruct (combine_cols_props _ _ _ _ _ Ecc H16) as (_ & Hw1 & Hw2 & Hlen1 & H161).
  destruct (savings_nonzero _ Hc Hs) as [Hpc Hsv].
  rewrite (combine_normal (n p) (g p) i j _ mi mj tc) by (assumption || lia).
  set (c := Z.land mi mj) in *. set (t := savings c) in *.
  set (l1 := <[Z.to_nat j := Z.lxor mj c]>
               (<[Z.to_nat i := Z.lxor mi c]> (cols p)) ++ [c]) in *.
  match goal with |- context [Normal ?q0 = Normal _] => set (q := q0) end.
  assert (Ecq : cols q = l1).
  { unfold cols, q. cbn [n mat].
    replace (Z.to_nat (n p + 1)) with (S (Z.to_nat (n p))) by lia.
    apply cols_combined; (assumption || lia). }
  assert (Hinvq : inv q).
  { split.
    - unfold well_formed. fold (cols q). rewrite Ecq.
      unfold q at 1 2 3 4. cbn [n mat ind]. rewrite !length_insert, Lmt, Lit.
      apply forallb_col16 in H161. rewrite H161. unfold N.
      destruct (Z.leb_spec 8 (n p + 1)); [| lia].
      destruct (Z.leb_spec (n p + 1) 128); [| lia]. reflexivity.
    - rewrite Ecq. unfold q. cbn [n]. lia. }
  destruct (IH q Hinvq) as [tr [Er Hpr]]; [rewrite Ecq; lia |].
  exists q, tr. split; [reflexivity |]. split; [reflexivity |].
  split; [assumption |].
  destruct Hpr as (Lmr & Lir & Ecolsr & Eindr & Hnr & Hnr2 & l' & Hrepr).
  rewrite Ecq in Ecolsr, Hnr2, Hrepr.
  replace (n q) with (n p + 1) in * by reflexivity.
  replace (g q) with (g p - t) in * by reflexivity.
  split; [assumption |].
  split; [apply undo_normal; (assumption || lia) |].
  unfold post, set_mat. cbn [mat ind n g]. rewrite !length_insert.
  split; [assumption |]. split; [assumption |]. split.
  { rewrite !take_insert_lt by lia.
    replace (take (Z.to_nat (n p)) (mat tr))
      with (take (Z.to_nat (n p)) (take (Z.to_nat (n p + 1)) (mat tr)))
      by (rewrite take_take; f_equal; lia).
    rewrite Ecolsr. unfold l1.
    rewrite take_app_length' by (rewrite !length_insert; lia).
    apply restore_cols; assumption. }
  split.
  { replace (take (Z.to_nat (2 * (n p - N))) (ind tr))
      with (take (Z.to_nat (2 * (n p - N)))
              (take (Z.to_nat (2 * (n p + 1 - N))) (ind tr)))
      by (rewrite take_take; f_equal; unfold N; lia).
    rewrite Eindr. rewrite take_take.
    replace (Z.to_nat (2 * (n p - N)) `min` Z.to_nat (2 * (n p + 1 - N)))%nat
      with (Z.to_nat (2 * (n p - N))) by (unfold N; lia).
    unfold q. cbn [ind]. rewrite !take_insert_ge by (unfold N; lia).
    exact Eind. }
  split; [lia |]. split; [lia |].
  exists l'. unfold history_from. cbn [n ind].
  assert (E2 : take (Z.to_nat (2 * (n p - N)) + 2) (ind tr)
               = take (Z.to_nat (2 * (n p - N))) (ind tc) ++ [i; j]).
  { replace (Z.to_nat (2 * (n p - N)) + 2)%nat
      with (Z.to_nat (2 * (n p + 1 - N))) by (unfold N; lia).
    rewrite Eindr. unfold q. cbn [ind].
    replace (Z.to_nat (2 * (n p + 1 - N)))
      with (Z.to_nat (2 * (n p - N)) + 2)%nat by (unfold N; lia).
    replace (Z.to_nat (2 * (n p - N) + 1))
      with (Z.to_nat (2 * (n p - N)) + 1)%nat by (unfold N; lia).
    apply take_two_inserts. unfold N. lia. }
  rewrite (drop_two (ind tr) (ind tc) (Z.to_nat (2 * (n p - N))) i j)
    by (assumption || (unfold N; lia)).
  replace (Z.to_nat (n tr - n p)) with (S (Z.to_nat (n tr - (n p + 1))))
    by lia.
  cbn [pairs_of replay]. rewrite Ecc.
  destruct (Z.eqb_spec (savings c) 0) as [E0|_]; [contradiction |].
  unfold history_from in Hrepr.
  replace (Z.to_nat (2 * (n p - N)) + 2)%nat
    with (Z.to_nat (2 * (n p + 1 - N))) by (unfold N; lia).
  rewrite Hrepr. f_equal. f_equal. fold t. lia.
Qed.

(** The body of the loops keeps the invariant of the loops. *)
Lemma visit_step (fuel : nat) (p tc : GateMat) (b : Best) (io jo i j : Z) :
  (forall q, inv q -> weight (cols q) < Z.of_nat fuel ->
     exists q', bestgates fuel q = Normal q' /\ post q q') ->
  inv p -> weight (cols p) < Z.of_nat (S fuel) ->
  0 <= i < j -> j < n p ->
  post p tc -> best_ok p b ->
  exists s', visit (bestgates fuel) (n p) (g p) io jo i j (tc, b) = Normal s'
             /\ post p s'.1 /\ best_ok p s'.2.
Proof.
  intros IH Hinv Hfuel Hij Hjn Hpost Hbest.
  destruct (inv_facts p Hinv) as (Lm & Li & Hn & H16 & Lc & Hcap).
  pose proof Hpost as (Lmt & Lit & Ecols & Eind & Hnt & Hnt2 & l0 & Hrep).
  destruct (lookup_lt_is_Some_2 (cols p) (Z.to_nat i)) as [mi Ei]; [lia |].
  destruct (lookup_lt_is_Some_2 (cols p) (Z.to_nat j)) as [mj Ej]; [lia |].
  pose proof (Forall_lookup_1 _ _ _ _ H16 Ei) as Hmi. simpl in Hmi.
  pose proof (Forall_lookup_1 _ _ _ _ H16 Ej) as Hmj. simpl in Hmj.
  assert (Eti : mat tc !! Z.to_nat i = Some mi).
  { rewrite <- Ecols in Ei. rewrite lookup_take_lt in Ei by lia. exact Ei. }
  assert (Etj : mat tc !! Z.to_nat j = Some mj).
  { rewrite <- Ecols in Ej. rewrite lookup_take_lt in Ej by lia. exact Ej. }
  pose proof (land_16 mi mj Hmi Hmj) as Hc.
  unfold visit. cbn [fst snd].
  rewrite (rd_normal (mat tc) i mi), bind_Normal by (assumption || lia).
  rewrite (rd_normal (mat tc) j mj), bind_Normal by (assumption || lia).
  rewrite share_spec, bind_Normal by assumption.
  destruct (Z.eqb_spec (savings (Z.land mi mj)) 0) as [|Hs].
  { exists (tc, b). auto. }
  destruct (prior_indep io jo (n p - 1) i j).
  { exists (tc, b). auto. }
  unfold expand. cbn [fst snd].
  rewrite (rd_normal (mat tc) i mi), bind_Normal by (assumption || lia).
  rewrite (rd_normal (mat tc) j mj), bind_Normal by (assumption || lia).
  destruct (expand_facts fuel p tc i j mi mj IH Hinv Hfuel Hij Hjn Hpost Ei Ej Hs)
    as (q & tr & -> & _ & Er & _ & Eu & Hpu).
  rewrite bind_Normal, Er, bind_Normal, Eu, bind_Normal.
  destruct (keep_best_step p _ b Hinv Hpu Hbest) as [b' [Eb Hb']].
  rewrite Eb, bind_Normal. eexists. split; [reflexivity |]. auto.
Qed.

Lemma post_refl (p : GateMat) : inv p -> post p p.
Proof.
  intros Hinv. destruct (inv_facts p Hinv) as (Lm & Li & Hn & H16 & Lc & Hcap).
  pose proof (weight_nonneg (cols p)).
  unfold post. repeat (split; [reflexivity || assumption || lia |]).
  exists (cols p). unfold history_from. rewrite Z.sub_diag. simpl.
  rewrite Z.sub_diag. reflexivity.
Qed.

Lemma best_init_ok (p : GateMat) : best_ok p best_init.
Proof.
  unfold best_ok, best_init. cbn [indb nb gb].
  split; [reflexivity |]. split; lia.
Qed.

Lemma old_pair_normal (p : GateMat) :
  inv p -> exists io jo, old_pair p = Normal (io, jo).
Proof.
  intros Hinv. destruct (inv_facts p Hinv) as (Lm & Li & Hn & H16 & Lc & Hcap).
  unfold old_pair. destruct (Z.eqb_spec (n p) N) as [|Hne]; [eauto |].
  unfold N in *.
  destruct (lookup_lt_is_Some_2 (ind p) (Z.to_nat (2 * (n p - 8) - 2)))
    as [io Eio]; [lia |].
  destruct (lookup_lt_is_Some_2 (ind p) (Z.to_nat (2 * (n p - 8) - 1)))
    as [jo Ejo]; [lia |].
  exists io, jo.
  rewrite (rd_normal (ind p) (2 * (n p - 8) - 2) io), bind_Normal
    by (assumption || lia).
  rewrite (rd_normal (ind p) (2 * (n p - 8) - 1) jo), bind_Normal
    by (assumption || lia).
  reflexivity.
Qed.

Lemma finish_step (p tc : GateMat) (b : Best) :
  inv p -> post p tc -> best_ok p b ->
  exists p', finish (n p) (tc, b) = Normal p' /\ post p p'.
Proof.
  intros Hinv Hpost Hbest.
  destruct (inv_facts p Hinv) as (Lm & Li & Hn & H16 & Lc & Hcap).
  pose proof Hpost as (Lmt & Lit & Ecols & Eind & Hnt & Hnt2 & l0 & Hrep).
  destruct Hbest as (Lb & Hgb & Hb).
  unfold finish. cbn [fst snd].
  destruct (Z.ltb_spec (gb b) 1024) as [Hlt|Hge]; [| exists tc; auto].
  destruct (Hb Hlt) as (Hnb & Hnb2 & l' & Hrepb).
  pose proof (weight_nonneg (cols p)) as Hw.
  rewrite memcpy_normal by (unfold N; lia). rewrite bind_Normal.
  eexists. split; [reflexivity |]. unfold post. cbn [mat ind n g].
  split; [assumption |]. split.
  { rewrite !length_app, !length_take, !length_drop. unfold N. lia. }
  split; [assumption |]. split.
  { rewrite take_app_le by (rewrite length_take; unfold N; lia).
    rewrite take_take, Nat.min_id. exact Eind. }
  split; [assumption |]. split; [assumption |].
  exists l'. rewrite <- Hrepb. f_equal. unfold history_from. cbn [n ind].
  apply pairs_of_ext.
  rewrite drop_app_length' by (rewrite length_take; unfold N; lia).
  rewrite take_app_le by (rewrite length_take; change (Z.to_nat 0) with 0%nat;
                          rewrite drop_0; lia).
  change (Z.to_nat 0) with 0%nat. rewrite drop_0, take_take. f_equal. lia.
Qed.

(** The search returns normally and leaves a state that satisfies
    [post]. *)
Lemma bestgates_post (fuel : nat) :
  forall p, inv p -> weight (cols p) < Z.of_nat fuel ->
    exists p', bestgates fuel p = Normal p' /\ post p p'.
Proof.
  induction fuel as [|fuel IH]; intros p Hinv Hfuel.
  - pose proof (weight_nonneg (cols p)). lia.
  - cbn [bestgates].
    destruct (old_pair_normal p Hinv) as (io & jo & ->). rewrite bind_Normal.
    destruct (for_loop_inv (fun s => post p s.1 /\ best_ok p s.2)
                (fun i => for_loop (i + 1) (n p) (fun j =>
                   visit (bestgates fuel) (n p) (g p) io jo i j))
                0 (n p - 1) (p, best_init)) as [s [Es [Hs1 Hs2]]].
    + split; [apply post_refl; assumption | apply best_init_ok].
    + intros i s0 Hi H0. apply for_loop_inv; [assumption |].
      intros j [tc b] Hj [Htc Hb]. apply visit_step; (assumption || lia).
    + cbv beta in Es. rewrite Es, bind_Normal. destruct s as [tc b].
      apply finish_step; assumption.
Qed.

(** ** Initial states *)

Lemma initial_inv (p : GateMat) :
  initial p = true -> inv p /\ n p = 8 /\ weight (cols p) <= 128.
Proof.
  unfold initial. intros H. apply andb_prop in H. destruct H as [Hwf Hn].
  apply Z.eqb_eq in Hn. unfold N in Hn.
  assert (Hw : weight (cols p) <= 128).
  { pose proof (weight_le (cols p)) as H. unfold cols in *.
    rewrite length_take in H. rewrite Hn in *. lia. }
  split; [| split; assumption]. split; [assumption | lia].
Qed.

(** C3: the gate count the engine leaves in the state is at most the
    gate count the state held on entry, for every initial 8-column
    state whose gate count is an [int] at least 128 above [INT_MIN]: no
    branch saves more than 128 gates, so that no subtraction
    [test.g = g - t] overflows and the count left is an [int] again. *)
Theorem bestgates_never_worse (fuel : nat) (test : GateMat) :
  initial test = true -> -2147483520 <= g test <= 2147483647 ->
  (129 <= fuel)%nat ->
  exists test', bestgates fuel test = Normal test'
                /\ -2147483648 <= g test' <= g test.
Proof.
  intros Hi Hg Hfuel. destruct (initial_inv test Hi) as (Hinv & Hn & Hw).
  destruct (bestgates_post fuel test Hinv) as [test' [E Hp]]; [lia |].
  exists test'. split; [assumption |].
  destruct Hp as (_ & _ & _ & _ & _ & _ & l' & Hrep).
  destruct (inv_facts test Hinv) as (_ & _ & _ & H16 & _).
  destruct (replay_props _ _ _ _ Hrep H16) as (_ & _ & Hwt & Hs).
  pose proof (weight_nonneg l'). lia.
Qed.

Lemma bestgates_never_worse_witness :
  initial demo = true
  /\ exists test', bestgates 129 demo = Normal test'
                   /\ -2147483648 <= g test' <= g demo.
Proof.
  split; [reflexivity |].
  apply (bestgates_never_worse 129 demo); [reflexivity | cbn; lia | lia].
Defined.

(** ** No assertion anywhere: the code never aborts *)

Lemma bind_not_aborted {A B : Type} (m : outcome A) (k : A -> outcome B) :
  m <> Aborted -> (forall a, k a <> Aborted) -> m ≫= k <> Aborted.
Proof. intros Hm Hk. destruct m; simpl; auto; discriminate. Qed.

Lemma Normal_not_aborted {A : Type} (a : A) : Normal a <> Aborted.
Proof. discriminate. Qed.

Lemma rd_not_aborted (a : list Z) (i : Z) : rd a i <> Aborted.
Proof. destruct (rd_cases a i) as [(v & -> & _)| ->]; discriminate. Qed.

Lemma wr_not_aborted (a : list Z) (i v : Z) : wr a i v <> Aborted.
Proof. destruct (wr_cases a i v) as [[-> _]| ->]; discriminate. Qed.

Lemma share_not_aborted (c : Z) : share c <> Aborted.
Proof. unfold share. destruct (_ && _); discriminate. Qed.

Lemma memcpy_not_aborted (dst : list Z) (doff : Z) (src : list Z) (soff len : Z) :
  memcpy dst doff src soff len <> Aborted.
Proof. unfold memcpy. destruct (_ && _); discriminate. Qed.

Create HintDb noabort.
#[local] Hint Resolve Normal_not_aborted rd_not_aborted wr_not_aborted
  share_not_aborted memcpy_not_aborted : noabort.

Ltac no_abort :=
  repeat first
    [ apply bind_not_aborted; [| intros ]
    | solve [ auto with noabort ]
    | match goal with
      | |- (if ?b then _ else _) <> Aborted => destruct b
      | |- (let '(_, _) := ?x in _) <> Aborted => destruct x
      end ].

Lemma for_count_not_aborted {S : Type} (body : Z -> S -> outcome S) :
  (forall i s, body i s <> Aborted) ->
  forall k lo s, for_count k lo body s <> Aborted.
Proof.
  intros Hb. induction k as [|k IH]; intros lo s; simpl; [discriminate |].
  apply bind_not_aborted; auto.
Qed.

Lemma combine_not_aborted (n0 g0 i j c t : Z) (test : GateMat) :
  combine n0 g0 i j c t test <> Aborted.
Proof. unfold combine. no_abort. Qed.

Lemma undo_not_aborted (i j ci cj : Z) (test : GateMat) :
  undo i j ci cj test <> Aborted.
Proof. unfold undo. no_abort. Qed.

Lemma keep_best_not_aborted (n0 : Z) (test : GateMat) (b : Best) :
  keep_best n0 test b <> Aborted.
Proof. unfold keep_best. no_abort. Qed.

Lemma old_pair_not_aborted (test : GateMat) : old_pair test <> Aborted.
Proof. unfold old_pair. no_abort. Qed.

Lemma finish_not_aborted (n0 : Z) (s : GateMat * Best) : finish n0 s <> Aborted.
Proof. unfold finish. no_abort. Qed.

#[local] Hint Resolve combine_not_aborted undo_not_aborted
  keep_best_not_aborted old_pair_not_aborted finish_not_aborted : noabort.

Lemma visit_not_aborted (rec : GateMat -> outcome GateMat) (n0 g0 io jo i j : Z)
    (s : GateMat * Best) :
  (forall q, rec q <> Aborted) -> visit rec n0 g0 io jo i j s <> Aborted.
Proof. intros Hrec. unfold visit, expand. no_abort. Qed.

Lemma bestgates_not_aborted (fuel : nat) :
  forall test, bestgates fuel test <> Aborted.
Proof.
  induction fuel as [|fuel IH]; intros test; cbn [bestgates]; [discriminate |].
  apply bind_not_aborted; [apply old_pair_not_aborted |].
  intros [io jo]. apply bind_not_aborted; [| intros; apply finish_not_aborted].
  apply for_count_not_aborted. intros i s.
  apply for_count_not_aborted. intros j s'.
  apply visit_not_aborted. exact IH.
Qed.

(** C8: the implementation has no capacity check: it never aborts.  From
    an initial state the capacity is never reached: the search returns
    normally, so that every array access of the run was inside its
    array, and it leaves at most 72 of the 128 columns in use. *)
Theorem capacity_never_exceeded (fuel : nat) (test : GateMat) :
  initial test = true -> (129 <= fuel)%nat ->
  (exists test', bestgates fuel test = Normal test'
                 /\ 8 <= n test' <= 72
                 /\ length (mat test') = 128%nat
                 /\ length (ind test') = 256%nat)
  /\ (forall f q, bestgates f q <> Aborted).
Proof.
  intros Hi Hfuel. split; [| intros f q; apply bestgates_not_aborted].
  destruct (initial_inv test Hi) as (Hinv & Hn & Hw).
  destruct (bestgates_post fuel test Hinv) as [test' [E Hp]]; [lia |].
  exists test'. split; [assumption |].
  destruct Hp as (Lm & Li & _ & _ & Hn1 & Hn2 & _). repeat split; try assumption; lia.
Qed.

Lemma capacity_never_exceeded_witness :
  initial demo = true
  /\ exists test', bestgates 129 demo = Normal test' /\ 8 <= n test' <= 72.
Proof.
  split; [reflexivity |].
  destruct (capacity_never_exceeded 129 demo) as [(t & E & H & _) _];
    [reflexivity | lia |].
  exists t. split; assumption.
Defined.

(** A state whose 128 columns are all in use: the combine of columns 0
    and 1 writes [mat[128]], outside the array, and the run goes on
    (undefined behaviour) instead of being aborted. *)
Lemma capacity_overrun_not_aborted :
  well_formed full = true
  /\ n full = 128
  /\ wr (mat full) (n full) 3 = Undefined
  /\ combine (n full) (g full) 0 1 3 1 full = Undefined
  /\ bestgates 2 full = Undefined
  /\ bestgates 2 full <> Aborted.
Proof.
  repeat split; try reflexivity.
  assert (E : bestgates 2 full = Undefined) by (vm_compute; reflexivity).
  rewrite E. discriminate.
Qed.

(** ** The reconstruction *)

Lemma for_count_preserves {S : Type} (P : S -> Prop) (body : Z -> S -> outcome S) :
  (forall i s s', P s -> body i s = Normal s' -> P s') ->
  forall k lo s s', P s -> for_count k lo body s = Normal s' -> P s'.
Proof.
  intros Hb. induction k as [|k IH]; intros lo s s' Hs E; simpl in E.
  - injection E as <-. assumption.
  - apply bind_normal in E. destruct E as (s1 & E1 & E2).
    eapply IH; [| exact E2]. eapply Hb; eassumption.
Qed.

(** The first loop of [bestmat] overwrites the first 8 columns. *)
Lemma load_orig_normal (p test : GateMat) :
  length (mat p) = 128%nat -> length (mat test) = 128%nat ->
  load_orig p test
  = Normal (set_mat test (take 8 (mat p) ++ drop 8 (mat test))).
Proof.
  intros Lp Lt. destruct p as [mp hp np gp], test as [mt ht nt gt].
  cbn [mat] in *.
  do 8 (destruct mp as [|? mp]; [discriminate |]).
  do 8 (destruct mt as [|? mt]; [discriminate |]).
  reflexivity.
Qed.

(** A step of the second loop changes nothing but the columns. *)
Lemma replay_step_frame (k : Z) (t t' : GateMat) :
  replay_step k t = Normal t' ->
  ind t' = ind t /\ n t' = n t /\ g t' = g t
  /\ length (mat t') = length (mat t).
Proof.
  unfold replay_step. intros E.
  repeat (apply bind_normal in E; destruct E as (? & ? & E)).
  injection E as <-. unfold set_mat. cbn [mat ind n g].
  do 3 (split; [reflexivity |]).
  repeat match goal with
         | H : wr ?a ?i ?v = Normal ?b |- _ =>
             let E' := fresh in
             destruct (wr_cases a i v) as [[E' _]|E'];
             rewrite E' in H; [injection H as <- | discriminate]
         end.
  rewrite !length_insert. reflexivity.
Qed.

Lemma replay_loop_frame (k : nat) (lo : Z) (t t' : GateMat) :
  for_count k lo replay_step t = Normal t' ->
  ind t' = ind t /\ n t' = n t /\ g t' = g t
  /\ length (mat t') = length (mat t).
Proof.
  apply (for_count_preserves
           (fun s => ind s = ind t /\ n s = n t /\ g s = g t
                     /\ length (mat s) = length (mat t))); [| tauto].
  intros i s s' (H1 & H2 & H3 & H4) E.
  destruct (replay_step_frame i s s' E) as (E1 & E2 & E3 & E4).
  repeat split; congruence.
Qed.

Lemma combine_cols_inv (L : list Z) (i j : Z) (L1 : list Z) (c : Z) :
  combine_cols L i j = Some (L1, c) ->
  exists mi mj,
    0 <= i < j /\ j < Z.of_nat (length L)
    /\ L !! Z.to_nat i = Some mi /\ L !! Z.to_nat j = Some mj
    /\ c = Z.land mi mj
    /\ L1 = <[Z.to_nat j := Z.lxor mj c]> (<[Z.to_nat i := Z.lxor mi c]> L)
            ++ [c].
Proof.
  unfold combine_cols. intros H.
  destruct (_ && _) eqn:Hb; [| discriminate].
  apply andb_prop in Hb. destruct Hb as [Hb Hj]. apply andb_prop in Hb.
  destruct Hb as [Hi Hij]. apply Z.leb_le in Hi. apply Z.ltb_lt in Hij, Hj.
  destruct (L !! Z.to_nat i) as [mi|] eqn:Ei; [| discriminate].
  destruct (L !! Z.to_nat j) as [mj|] eqn:Ej; [| discriminate].
  injection H as <- <-. exists mi, mj. repeat split; (assumption || lia).
Qed.

(** The second loop of [bestmat] performs the combine moves of the
    recorded pairs. *)
Lemma replay_loop_spec (k : nat) :
  forall (lo : nat) (t : GateMat) (L L' : list Z) (s : Z),
    length (mat t) = 128%nat -> length (ind t) = 256%nat ->
    take (8 + lo) (mat t) = L ->
    Forall (fun v => 0 <= v < 65536) L ->
    (8 + lo + k <= 128)%nat ->
    replay L (pairs_of k (drop (2 * lo) (ind t))) = Some (L', s) ->
    exists t', for_count k (Z.of_nat lo) replay_step t = Normal t'
               /\ take (8 + lo + k) (mat t') = L'.
Proof.
  induction k as [|k IH]; intros lo t L L' s Lm Li EL H16 Hk Hrep.
  - simpl in Hrep. injection Hrep as <- _. exists t. simpl.
    split; [reflexivity |]. rewrite Nat.add_0_r. assumption.
  - destruct (lookup_lt_is_Some_2 (ind t) (2 * lo)) as [i Ei]; [lia |].
    destruct (lookup_lt_is_Some_2 (ind t) (S (2 * lo))) as [j Ej]; [lia |].
    rewrite (drop_S _ i _ Ei), (drop_S _ j _ Ej) in Hrep.
    cbn [pairs_of replay] in Hrep.
    destruct (combine_cols L i j) as [[L1 c]|] eqn:Ec; [| discriminate].
    destruct (Z.eqb_spec (savings c) 0) as [|Hsv]; [discriminate |].
    destruct (replay L1 _) as [[L2 s2]|] eqn:Er; [| discriminate].
    injection Hrep as <- _.
    destruct (combine_cols_props _ _ _ _ _ Ec H16) as (Hc & _ & _ & Hlen1 & H161).
    destruct (combine_cols_inv _ _ _ _ _ Ec) as (mi & mj & Hij & Hj & Emi & Emj & -> & EL1).
    pose proof (Forall_lookup_1 _ _ _ _ H16 Emi) as Hmi. simpl in Hmi.
    pose proof (Forall_lookup_1 _ _ _ _ H16 Emj) as Hmj. simpl in Hmj.
    pose proof (lxor_16 mi _ Hmi Hc) as Hxi.
    pose proof (lxor_16 mj _ Hmj Hc) as Hxj.
    assert (LL : length L = (8 + lo)%nat)
      by (rewrite <- EL, length_take; lia).
    assert (Eti : mat t !! Z.to_nat i = Some mi).
    { rewrite <- EL in Emi. rewrite lookup_take_lt in Emi by lia. exact Emi. }
    assert (Etj : mat t !! Z.to_nat j = Some mj).
    { rewrite <- EL in Emj. rewrite lookup_take_lt in Emj by lia. exact Emj. }
    cbn [for_count].
    assert (E1 : replay_step (Z.of_nat lo) t
                 = Normal (set_mat t
                     (<[(8 + lo)%nat := Z.land mi mj]>
                        (<[Z.to_nat j := Z.lxor mj (Z.land mi mj)]>
                           (<[Z.to_nat i := Z.lxor mi (Z.land mi mj)]> (mat t)))))).
    { unfold replay_step, N.
      bhead ltac:(apply rd_normal; [lia |];
                  replace (Z.to_nat (Z.of_nat lo * 2)) with (2 * lo)%nat by lia;
                  eassumption).
      bhead ltac:(apply rd_normal; [lia |];
                  replace (Z.to_nat (Z.of_nat lo * 2 + 1)) with (S (2 * lo)) by lia;
                  eassumption).
      bhead ltac:(apply rd_normal; [lia | eassumption]).
      bhead ltac:(apply rd_normal; [lia | eassumption]).
      bhead ltac:(apply wr_normal; lia).
      bhead ltac:(apply rd_normal;
                  [lia | rewrite list_lookup_insert_ne by lia; eassumption]).
      bhead ltac:(apply wr_normal; rewrite !length_insert; lia).
      bhead ltac:(apply wr_normal; rewrite !length_insert; lia).
      rewrite !u32_small by lia.
      replace (Z.to_nat (Z.of_nat lo + 8)) with (8 + lo)%nat by lia.
      reflexivity. }
    rewrite E1, bind_Normal.
    replace (Z.of_nat lo + 1) with (Z.of_nat (S lo)) by lia.
    replace (8 + lo + S k)%nat with (8 + S lo + k)%nat by lia.
    eapply (IH (S lo) _ L1 L2 s2); unfold set_mat; cbn [mat ind].
    + rewrite !length_insert. assumption.
    + assumption.
    + replace (8 + S lo)%nat with (S (8 + lo)) by lia. rewrite EL1.
      apply cols_combined; (assumption || lia).
    + exact H161.
    + lia.
    + replace (2 * S lo)%nat with (S (S (2 * lo))) by lia. exact Er.
Qed.

Lemma copyMat_initial (p t0 : GateMat) :
  initial p = true ->
  length (mat t0) = 128%nat -> length (ind t0) = 256%nat ->
  exists t1, copyMat p t0 = Normal t1
             /\ initial t1 = true /\ cols t1 = cols p /\ g t1 = g p.
Proof.
  intros Hi Lm Li. pose proof Hi as Hi'.
  destruct (initial_inv p Hi) as (Hinv & Hn & _).
  destruct (inv_facts p Hinv) as (Lmp & Lip & _ & H16 & Lc & _).
  unfold copyMat. rewrite Hn.
  rewrite (memcpy_normal (mat t0) 0 (mat p) 0 8), bind_Normal by lia.
  rewrite (memcpy_normal (ind t0) 0 (ind p) 0 ((8 - N) * 2)), bind_Normal
    by (unfold N; lia).
  eexists. split; [reflexivity |].
  assert (Ec : cols {| mat := take (Z.to_nat 0) (mat t0)
                        ++ take (Z.to_nat 8) (drop (Z.to_nat 0) (mat p))
                        ++ drop (Z.to_nat (0 + 8)) (mat t0);
                       ind := take (Z.to_nat 0) (ind t0)
                        ++ take (Z.to_nat ((8 - N) * 2))
                             (drop (Z.to_nat 0) (ind p))
                        ++ drop (Z.to_nat (0 + (8 - N) * 2)) (ind t0);
                       n := 8; g := g p |} = cols p).
  { unfold cols. cbn [n mat]. rewrite Hn.
    change (Z.to_nat 0) with 0%nat. change (Z.to_nat (0 + 8)) with 8%nat.
    change (Z.to_nat 8) with 8%nat. rewrite take_0, drop_0. cbn [app].
    rewrite take_app_le by (rewrite length_take; lia).
    rewrite take_take. reflexivity. }
  split; [| split; [exact Ec | reflexivity]].
  unfold initial, well_formed. rewrite Ec. cbn [mat ind n].
  rewrite !length_app, !length_take, !length_drop, Lm, Li, Lmp, Lip.
  apply forallb_col16 in H16. rewrite H16. reflexivity.
Qed.

(** C4: replaying the returned history from the original columns, as
    [bestmat] does, performs the recorded pairs as combine moves (each
    with [i < j] below the current number of columns and with nonzero
    savings) whose savings add up to the gates saved, and ends with the
    columns of that sequence.  The working state itself holds the
    original columns again when the search returns.  The gate count on
    entry is an [int] at least 128 above [INT_MIN], so that no
    subtraction of savings overflows. *)
Theorem bestmat_replays_history (fuel : nat) (p t0 : GateMat) :
  initial p = true -> -2147483520 <= g p <= 2147483647 ->
  length (mat t0) = 128%nat -> length (ind t0) = 256%nat ->
  (129 <= fuel)%nat ->
  exists t1 t2 p' t3,
    copyMat p t0 = Normal t1
    /\ bestgates fuel t1 = Normal t2
    /\ bestmat p t2 = Normal (p', t3)
    /\ take 8 (mat t2) = cols p
    /\ ind t3 = ind t2 /\ n t3 = n t2 /\ g t3 = g t2
    /\ replay (cols p) (pairs (blockPrint t3)) = Some (cols t3, g p - g t3)
    /\ -2147483648 <= g t3 <= g p.
Proof.
  intros Hi Hg Lm Li Hfuel.
  destruct (copyMat_initial p t0 Hi Lm Li) as (t1 & E1 & Hi1 & Ec1 & Eg1).
  destruct (initial_inv t1 Hi1) as (Hinv1 & Hn1 & Hw1).
  destruct (initial_inv p Hi) as (Hinv & Hn & _).
  destruct (inv_facts p Hinv) as (Lmp & Lip & _ & H16 & Lc & _).
  destruct (bestgates_post fuel t1 Hinv1) as [t2 [E2 Hp]]; [lia |].
  destruct Hp as (Lm2 & Li2 & Ecols & _ & Hn2 & Hn2' & l' & Hrep).
  rewrite Ec1, Hn1 in *. change (Z.to_nat 8) with 8%nat in Ecols.
  assert (El : set_mat t2 (take 8 (mat p) ++ drop 8 (mat t2)) = t2).
  { unfold cols in Ecols. rewrite Hn in Ecols.
    change (Z.to_nat 8) with 8%nat in Ecols.
    rewrite <- Ecols, take_drop. destruct t2; reflexivity. }
  unfold history_from, N in Hrep.
  change (Z.to_nat (2 * (8 - 8))) with 0%nat in Hrep. rewrite drop_0 in Hrep.
  destruct (replay_loop_spec (Z.to_nat (n t2 - 8)) 0 t2 (cols p) l'
              (g t1 - g t2) Lm2 Li2)
    as (t3 & E3 & Hc3); [assumption | assumption | lia | exact Hrep |].
  destruct (replay_loop_frame _ _ _ _ E3) as (F1 & F2 & F3 & F4).
  exists t1, t2, {| mat := mat p; ind := ind p; n := n p; g := g t2 |}, t3.
  split; [assumption |]. split; [assumption |]. split.
  { unfold bestmat. rewrite load_orig_normal, bind_Normal by assumption.
    rewrite El. unfold for_loop, N. rewrite Z.sub_0_r.
    change (Z.of_nat 0) with 0 in E3. rewrite E3. reflexivity. }
  split; [assumption |]. do 3 (split; [assumption |]).
  assert (Hrange : -2147483648 <= g t3 <= g p).
  { destruct (replay_props _ _ _ _ Hrep H16) as (_ & _ & Hwt & Hs).
    pose proof (weight_nonneg l'). lia. }
  split; [| exact Hrange].
  unfold blockPrint. cbn [pairs]. unfold N. rewrite F1, F2, F3, Eg1 in *.
  rewrite Hrep. f_equal. f_equal. unfold cols. rewrite F2, <- Hc3.
  f_equal. lia.
Qed.

Lemma bestmat_replays_history_witness :
  initial demo = true
  /\ exists t1 t2 p' t3,
       copyMat demo test_static = Normal t1
       /\ bestgates 129 t1 = Normal t2
       /\ bestmat demo t2 = Normal (p', t3)
       /\ replay (cols demo) (pairs (blockPrint t3))
          = Some (cols t3, g demo - g t3).
Proof.
  split; [reflexivity |].
  destruct (bestmat_replays_history 129 demo test_static)
    as (t1 & t2 & p' & t3 & H1 & H2 & H3 & _ & _ & _ & _ & H4 & _);
    [reflexivity | cbn; lia | reflexivity | reflexivity | lia |].
  exists t1, t2, p', t3. repeat split; assumption.
Defined.

(** The claim as first stated fails on [demo]: when the search returns,
    column 0 of the working state is the original column, and column 0
    of the replayed state has lost the shared bits. *)
Lemma replay_differs_from_working_state :
  exists t1 t2 p' t3,
    copyMat demo test_static = Normal t1
    /\ bestgates 129 t1 = Normal t2
    /\ bestmat demo t2 = Normal (p', t3)
    /\ n t2 = 9 /\ n t3 = 9
    /\ cols t2 = [3; 3; 0; 0; 0; 0; 0; 0; 3]
    /\ cols t3 = [0; 0; 0; 0; 0; 0; 0; 0; 3]
    /\ cols t3 <> cols t2.
Proof.
  eexists. eexists. eexists. eexists.
  split; [vm_compute; reflexivity |].
  split; [vm_compute; reflexivity |].
  split; [vm_compute; reflexivity |].
  repeat split. discriminate.
Qed.

(** The second loop of [bestmat] writes no entry behind the columns it
    reconstructs. *)
Lemma replay_loop_tail (k : nat) :
  forall (lo : nat) (t t' : GateMat) (L L' : list Z) (s : Z),
    length (mat t) = 128%nat -> length (ind t) = 256%nat ->
    take (8 + lo) (mat t) = L ->
    Forall (fun v => 0 <= v < 65536) L ->
    (8 + lo + k <= 128)%nat ->
    replay L (pairs_of k (drop (2 * lo) (ind t))) = Some (L', s) ->
    for_count k (Z.of_nat lo) replay_step t = Normal t' ->
    drop (8 + lo + k) (mat t') = drop (8 + lo + k) (mat t).
Proof.
  induction k as [|k IH]; intros lo t t' L L' s Lm Li EL H16 Hk Hrep Et.
  - cbn [for_count] in Et. injection Et as <-. reflexivity.
  - destruct (lookup_lt_is_Some_2 (ind t) (2 * lo)) as [i Ei]; [lia |].
    destruct (lookup_lt_is_Some_2 (ind t) (S (2 * lo))) as [j Ej]; [lia |].
    rewrite (drop_S _ i _ Ei), (drop_S _ j _ Ej) in Hrep.
    cbn [pairs_of replay] in Hrep.
    destruct (combine_cols L i j) as [[L1 c]|] eqn:Ec; [| discriminate].
    destruct (Z.eqb_spec (savings c) 0) as [|Hsv]; [discriminate |].
    destruct (replay L1 _) as [[L2 s2]|] eqn:Er; [| discriminate].
    destruct (combine_cols_props _ _ _ _ _ Ec H16)
      as (Hc & _ & _ & Hlen1 & H161).
    destruct (combine_cols_inv _ _ _ _ _ Ec)
      as (mi & mj & Hij & Hj & Emi & Emj & -> & EL1).
    pose proof (Forall_lookup_1 _ _ _ _ H16 Emi) as Hmi. simpl in Hmi.
    pose proof (Forall_lookup_1 _ _ _ _ H16 Emj) as Hmj. simpl in Hmj.
    pose proof (lxor_16 mi _ Hmi Hc) as Hxi.
    pose proof (lxor_16 mj _ Hmj Hc) as Hxj.
    assert (LL : length L = (8 + lo)%nat)
      by (rewrite <- EL, length_take; lia).
    assert (Eti : mat t !! Z.to_nat i = Some mi).
    { rewrite <- EL in Emi. rewrite lookup_take_lt in Emi by lia. exact Emi. }
    assert (Etj : mat t !! Z.to_nat j = Some mj).
    { rewrite <- EL in Emj. rewrite lookup_take_lt in Emj by lia. exact Emj. }
    cbn [for_count] in Et.
    assert (E1 : replay_step (Z.of_nat lo) t
                 = Normal (set_mat t
                     (<[(8 + lo)%nat := Z.land mi mj]>
                        (<[Z.to_nat j := Z.lxor mj (Z.land mi mj)]>
                           (<[Z.to_nat i := Z.lxor mi (Z.land mi mj)]>
                              (mat t)))))).
    { unfold replay_step, N.
      bhead ltac:(apply rd_normal; [lia |];
                  replace (Z.to_nat (Z.of_nat lo * 2)) with (2 * lo)%nat
                    by lia;
                  eassumption).
      bhead ltac:(apply rd_normal; [lia |];
                  replace (Z.to_nat (Z.of_nat lo * 2 + 1)) with (S (2 * lo))
                    by lia;
                  eassumption).
      bhead ltac:(apply rd_normal; [lia | eassumption]).
      bhead ltac:(apply rd_normal; [lia | eassumption]).
      bhead ltac:(apply wr_normal; lia).
      bhead ltac:(apply rd_normal;
                  [lia | rewrite list_lookup_insert_ne by lia; eassumption]).
      bhead ltac:(apply wr_normal; rewrite !length_insert; lia).
      bhead ltac:(apply wr_normal; rewrite !length_insert; lia).
      rewrite !u32_small by lia.
      replace (Z.to_nat (Z.of_nat lo + 8)) with (8 + lo)%nat by lia.
      reflexivity. }
    rewrite E1, bind_Normal in Et.
    replace (Z.of_nat lo + 1) with (Z.of_nat (S lo)) in Et by lia.
    replace (8 + lo + S k)%nat with (8 + S lo + k)%nat by lia.
    match type of Et with
    | for_count _ _ _ ?t1 = _ => rewrite (IH (S lo) t1 t' L1 L2 s2)
    end; unfold set_mat; cbn [mat ind].
    + rewrite !drop_insert_lt by lia. reflexivity.
    + rewrite !length_insert. assumption.
    + assumption.
    + replace (8 + S lo)%nat with (S (8 + lo)) by lia. rewrite EL1.
      apply cols_combined; (assumption || lia).
    + exact H161.
    + lia.
    + replace (2 * S lo)%nat with (S (S (2 * lo))) by lia. exact Er.
    + exact Et.
Qed.

(** C10: [bestmat(p)] changes nothing of [*p] but its gate count, which
    becomes that of the working state, and nothing of the working state
    but its columns.  When the pairs the working state records replay
    from the first 8 columns of [*p], the columns in use of the working
    state become the columns of that replay (the first 8 taken from
    [*p], each recorded overlap removed from its two columns and written
    as the next column), and no entry behind them is written; when the
    working state records no pair, its first 8 entries become the
    columns of [*p] and nothing else changes. *)
Theorem bestmat_frame (p test : GateMat) :
  length (mat p) = 128%nat ->
  length (mat test) = 128%nat -> length (ind test) = 256%nat ->
  (forall p' test',
      bestmat p test = Normal (p', test') ->
      mat p' = mat p /\ ind p' = ind p /\ n p' = n p /\ g p' = g test
      /\ ind test' = ind test /\ n test' = n test /\ g test' = g test
      /\ length (mat test') = 128%nat)
  /\ (forall L' s,
        8 <= n test <= 128 ->
        Forall (fun v => 0 <= v < 65536) (take 8 (mat p)) ->
        replay (take 8 (mat p)) (history_from 8 test) = Some (L', s) ->
        exists test',
          bestmat p test
          = Normal ({| mat := mat p; ind := ind p; n := n p; g := g test |},
                    test')
          /\ cols test' = L'
          /\ drop (Z.to_nat (n test)) (mat test')
             = drop (Z.to_nat (n test)) (mat test))
  /\ (n test <= 8 ->
      bestmat p test
      = Normal ({| mat := mat p; ind := ind p; n := n p; g := g test |},
                set_mat test (take 8 (mat p) ++ drop 8 (mat test)))).
Proof.
  intros Lp Lt Li. split; [| split].
  - intros p' test' E. unfold bestmat in E.
    rewrite load_orig_normal, bind_Normal in E by assumption.
    apply bind_normal in E. destruct E as (t & Et & E).
    injection E as <- <-. cbn [mat ind n g].
    unfold set_mat in Et. cbn [n] in Et.
    destruct (replay_loop_frame _ _ _ _ Et) as (F1 & F2 & F3 & F4).
    cbn [mat ind n g] in *.
    rewrite length_app, length_take, length_drop, Lp, Lt in F4.
    repeat split; (assumption || lia).
  - intros L' s Hn H16 Hrep.
    set (t0 := set_mat test (take 8 (mat p) ++ drop 8 (mat test))).
    assert (Lm0 : length (mat t0) = 128%nat).
    { unfold t0, set_mat. cbn [mat].
      rewrite length_app, length_take, length_drop. lia. }
    assert (E8 : take (8 + 0) (mat t0) = take 8 (mat p)).
    { unfold t0, set_mat. cbn [mat]. change (8 + 0)%nat with 8%nat.
      rewrite take_app_length'; [reflexivity |]. rewrite length_take. lia. }
    assert (Hrep0 : replay (take 8 (mat p))
                      (pairs_of (Z.to_nat (n test - 8))
                         (drop (2 * 0) (ind t0)))
                    = Some (L', s)).
    { unfold history_from, N in Hrep.
      change (Z.to_nat (2 * (8 - 8))) with 0%nat in Hrep. exact Hrep. }
    destruct (replay_loop_spec (Z.to_nat (n test - 8)) 0 t0 _ L' s
                Lm0 Li E8 H16 ltac:(lia) Hrep0) as (t' & Et & Ec).
    pose proof (replay_loop_tail (Z.to_nat (n test - 8)) 0 t0 t' _ L' s
                  Lm0 Li E8 H16 ltac:(lia) Hrep0 Et) as Ed.
    destruct (replay_loop_frame _ _ _ _ Et) as (F1 & F2 & F3 & F4).
    exists t'. split.
    + unfold bestmat. rewrite load_orig_normal, bind_Normal by assumption.
      fold t0. unfold for_loop. change (n t0) with (n test). unfold N.
      rewrite Z.sub_0_r. change (Z.of_nat 0) with 0 in Et. rewrite Et.
      reflexivity.
    + split.
      * unfold cols. rewrite F2. change (n t0) with (n test).
        rewrite <- Ec. f_equal. lia.
      * replace (8 + 0 + Z.to_nat (n test - 8))%nat
          with (Z.to_nat (n test)) in Ed by lia.
        rewrite Ed. unfold t0, set_mat. cbn [mat].
        rewrite drop_app_ge by (rewrite length_take; lia).
        rewrite length_take, drop_drop. f_equal. lia.
  - intros Hn. unfold bestmat.
    rewrite load_orig_normal, bind_Normal by assumption.
    unfold for_loop, set_mat. cbn [n]. unfold N.
    replace (Z.to_nat (n test - 8 - 0)) with 0%nat by lia.
    reflexivity.
Qed.

Lemma bestmat_frame_witness :
  exists test',
    bestmat demo demo_searched
    = Normal ({| mat := mat demo; ind := ind demo; n := n demo;
                 g := g demo_searched |}, test')
    /\ cols test' = [0; 0; 0; 0; 0; 0; 0; 0; 3]
    /\ drop 9 (mat test') = drop 9 (mat demo_searched).
Proof.
  destruct (bestmat_frame demo demo_searched eq_refl eq_refl eq_refl)
    as (_ & H & _).
  apply (H [0; 0; 0; 0; 0; 0; 0; 0; 3] 1).
  - cbn. lia.
  - repeat constructor; cbn; lia.
  - reflexivity.
Defined.

(** ** One expansion of the search *)

(** C7: after the recursive call made for the combine of the pair
    [(i, j)] returned, the undo step restores columns [i] and [j] (so
    that all the columns of the call are as on entry); the column count
    of the state is not decremented: it stays as the recursive call left
    it, above the count before the combine. *)
Theorem undo_restores_columns (fuel : nat) (p tc : GateMat) (i j mi mj : Z) :
  inv p -> weight (cols p) < Z.of_nat (S fuel) ->
  0 <= i < j -> j < n p ->
  post p tc ->
  cols p !! Z.to_nat i = Some mi -> cols p !! Z.to_nat j = Some mj ->
  savings (Z.land mi mj) <> 0 ->
  exists q tr tu,
    combine (n p) (g p) i j (Z.land mi mj) (savings (Z.land mi mj)) tc
    = Normal q
    /\ n q = n p + 1
    /\ bestgates fuel q = Normal tr
    /\ undo i j mi mj tr = Normal tu
    /\ mat tu !! Z.to_nat i = Some mi
    /\ mat tu !! Z.to_nat j = Some mj
    /\ take (Z.to_nat (n p)) (mat tu) = cols p
    /\ n tu = n tr
    /\ n p + 1 <= n tu.
Proof.
  intros Hinv Hfuel Hij Hjn Hpost Ei Ej Hs.
  destruct (expand_facts fuel p tc i j mi mj (bestgates_post fuel)
              Hinv Hfuel Hij Hjn Hpost Ei Ej Hs)
    as (q & tr & Ec & Hq & Er & Hn & Eu & Hpu).
  exists q, tr, (set_mat tr (<[Z.to_nat j := mj]> (<[Z.to_nat i := mi]> (mat tr)))).
  destruct Hpu as (_ & _ & Ecols & _).
  do 4 (split; [assumption |]).
  split; [rewrite <- Ecols in Ei; rewrite lookup_take_lt in Ei by lia; exact Ei |].
  split; [rewrite <- Ecols in Ej; rewrite lookup_take_lt in Ej by lia; exact Ej |].
  split; [exact Ecols |]. split; [reflexivity | exact Hn].
Qed.

Lemma demo_inv : inv demo.
Proof. split; [reflexivity | vm_compute; discriminate]. Qed.

Lemma undo_restores_columns_witness :
  exists q tr tu,
    combine 8 (-6) 0 1 3 1 demo = Normal q
    /\ bestgates 128 q = Normal tr
    /\ undo 0 1 3 3 tr = Normal tu
    /\ mat tu !! 0%nat = Some 3 /\ mat tu !! 1%nat = Some 3
    /\ n tu = n tr.
Proof.
  destruct (undo_restores_columns 128 demo demo 0 1 3 3)
    as (q & tr & tu & H1 & _ & H2 & H3 & H4 & H5 & _ & H6 & _).
  - exact demo_inv.
  - vm_compute. reflexivity.
  - lia.
  - reflexivity.
  - apply post_refl. exact demo_inv.
  - reflexivity.
  - reflexivity.
  - vm_compute. discriminate.
  - exists q, tr, tu. repeat split; assumption.
Defined.

(** The claim as first stated fails on [demo]: after the undo that
    follows the combine of columns 0 and 1, the state still counts 9
    columns, not the 8 it had before the combine. *)
Lemma undo_keeps_column_count :
  exists q tr tu,
    combine (n demo) (g demo) 0 1 3 1 demo = Normal q
    /\ bestgates 128 q = Normal tr
    /\ undo 0 1 3 3 tr = Normal tu
    /\ n demo = 8 /\ n q = 9 /\ n tu = 9 /\ n tu <> n demo.
Proof.
  eexists. eexists. eexists.
  split; [vm_compute; reflexivity |].
  split; [vm_compute; reflexivity |].
  split; [vm_compute; reflexivity |].
  repeat split. discriminate.
Qed.



(** ** The driver *)

Lemma pack_16 (x y : Z) :
  0 <= x < 256 -> 0 <= y < 256 -> 0 <= Z.lor x (Z.shiftl y 8) < 65536.
Proof.
  intros Hx Hy.
  assert (Hs : 0 <= Z.shiftl y 8) by (apply Z.shiftl_nonneg; lia).
  split; [apply Z.lor_nonneg; lia |].
  apply lt_65536_of_bits; [apply Z.lor_nonneg; lia |].
  intros k Hk. rewrite Z.lor_spec, Z.shiftl_spec by lia.
  rewrite (Z.bits_above_log2 x k), (Z.bits_above_log2 y (k - 8)); [reflexivity | | | |]; try lia.
  - destruct (Z.eq_dec y 0) as [->|]; [simpl; lia |].
    assert (Z.log2 y < 8) by (apply Z.log2_lt_pow2; lia). lia.
  - destruct (Z.eq_dec x 0) as [->|]; [simpl; lia |].
    assert (Z.log2 x < 8) by (apply Z.log2_lt_pow2; lia). lia.
Qed.

Lemma byte_spec (v : Z) : byte v = true <-> 0 <= v < 256.
Proof. unfold byte. rewrite andb_true_iff, Z.leb_le, Z.ltb_lt. tauto. Qed.

(** Run a sequence of commands from its head; [leaf] proves that a single
    command returns normally. *)
Ltac run leaf :=
  lazymatch goal with
  | |- @mbind _ _ _ _ ?k ?m = _ =>
      erewrite (bind_eq m _ k) by (run leaf); cbv beta; run leaf
  | |- for_count _ _ _ _ = _ => cbn [for_count]; run leaf
  | |- _ => leaf
  end.

(** The driver builds an initial state whose gate count is the sum of
    the table entries of the 8 columns, minus 8. *)
Lemma build_orig_normal (InitMat : list Z) (k : Z) (orig : GateMat) :
  length InitMat = 32%nat -> forallb byte InitMat = true ->
  k = 0 \/ k = 1 ->
  length (mat orig) = 128%nat -> length (ind orig) = 256%nat ->
  exists o, build_orig InitMat k orig = Normal o
            /\ initial o = true
            /\ cols o = packed_columns InitMat k
            /\ g o = sumZ (map savings (cols o)) - 8.
Proof.
  intros LI HI Hk Lm Li.
  do 32 (destruct InitMat as [|? InitMat]; [discriminate |]).
  destruct InitMat; [| discriminate].
  cbn [forallb] in HI.
  repeat (apply andb_prop in HI; destruct HI as [?%byte_spec HI]).
  destruct orig as [m h n0 g0]. cbn [mat ind] in *.
  do 8 (destruct m as [|? m]; [discriminate |]).
  unfold build_orig, for_loop. cbn [mat ind].
  change (Z.to_nat (8 - 0)) with 8%nat.
  destruct Hk as [-> | ->]; cbn [Z.eqb];
    (eexists; split;
     [ run ltac:(first
         [ rewrite u32_small
             by (match goal with
                 | |- 0 <= Z.lor ?x (Z.shiftl ?y 8) < _ =>
                     pose proof (pack_16 x y ltac:(assumption) ltac:(assumption));
                     lia
                 end);
           apply share_spec; apply pack_16; assumption
         | reflexivity ])
     | ]).
  all: rewrite !u32_small
    by (match goal with
        | |- 0 <= Z.lor ?x (Z.shiftl ?y 8) < _ =>
            pose proof (pack_16 x y ltac:(assumption) ltac:(assumption)); lia
        end).
  all: split; [| split; [reflexivity |]];
    [ unfold initial, well_formed, cols, N; cbn [mat ind n];
      rewrite !length_insert, Lm, Li;
      lazymatch goal with
      | |- context [take ?k ?l] =>
          let r := eval cbv -[Z.lor Z.shiftl] in (take k l) in
          change (take k l) with r
      end;
      cbn [forallb];
      repeat match goal with
             | |- context [col16 (Z.lor ?x (Z.shiftl ?y 8))] =>
                 rewrite (proj2 (col16_spec (Z.lor x (Z.shiftl y 8)))
                            (pack_16 x y ltac:(assumption) ltac:(assumption)))
             end;
      reflexivity
    | unfold cols; cbn [mat n g];
      lazymatch goal with
      | |- context [take ?k ?l] =>
          let r := eval cbv -[Z.lor Z.shiftl] in (take k l) in
          change (take k l) with r
      end;
      cbn [map sumZ fold_right]; lia ].
Qed.

Lemma savings_sum_nonzero (l : list Z) :
  Forall (fun c => c <> 0) l ->
  sumZ (map savings l) = weight l - Z.of_nat (length l).
Proof.
  induction 1 as [|c l Hc _ IH]; [reflexivity |].
  rewrite weight_cons, length_cons. cbn [map sumZ fold_right].
  fold (sumZ (map savings l)). rewrite IH. unfold savings.
  destruct (Z.eqb_spec c 0); [contradiction | lia].
Qed.

(** C2: the gate count the driver stores for a matrix pair is the sum of
    the table entries of its 8 packed columns, minus 8; a table entry is
    [popcount - 1] for a column that is not zero and 0 for a zero column,
    so that the count is the sum of the popcounts minus 16 when no column
    is zero. *)
Theorem baseline_cost (InitMat : list Z) (k : Z) (orig : GateMat) :
  length InitMat = 32%nat -> forallb byte InitMat = true ->
  k = 0 \/ k = 1 ->
  length (mat orig) = 128%nat -> length (ind orig) = 256%nat ->
  exists o, build_orig InitMat k orig = Normal o
            /\ n o = 8
            /\ cols o = packed_columns InitMat k
            /\ g o = sumZ (map savings (cols o)) - 8
            /\ (Forall (fun c => c <> 0) (cols o) ->
                g o = sumZ (map popcount (cols o)) - 16).
Proof.
  intros LI HI Hk Lm Li.
  destruct (build_orig_normal InitMat k orig LI HI Hk Lm Li)
    as (o & E & Ho & Hc & Hg).
  exists o. destruct (initial_inv o Ho) as (Hinv & Hn & _).
  destruct (inv_facts o Hinv) as (_ & _ & _ & _ & Lc & _).
  repeat split; try assumption.
  intros Hnz. rewrite Hg, (savings_sum_nonzero _ Hnz), Lc, Hn.
  unfold weight. lia.
Qed.

Lemma baseline_cost_witness :
  exists o, build_orig record4 0 test_static = Normal o
            /\ n o = 8
            /\ g o = sumZ (map savings (cols o)) - 8.
Proof.
  destruct (baseline_cost record4 0 test_static)
    as (o & H1 & H2 & _ & H3 & _);
    [reflexivity | reflexivity | left; reflexivity | reflexivity
    | reflexivity |].
  exists o. repeat split; assumption.
Defined.

(** The claim as first stated fails on the record of the header
    comment: the first matrix pair gets 42 gates, and the sum of
    [popcount - 1] over its 8 columns is 50. *)
Lemma baseline_is_not_popcount_minus_1 :
  exists o, build_orig record4 0 test_static = Normal o
            /\ n o = 8
            /\ g o = 42
            /\ sumZ (map (fun c => popcount c - 1) (cols o)) = 50
            /\ g o <> sumZ (map (fun c => popcount c - 1) (cols o)).
Proof.
  eexists. split; [vm_compute; reflexivity |].
  repeat split. discriminate.
Qed.

(** ** Subsets of bits *)

Lemma sumZ_map_le {A : Type} (f h : A -> Z) (l : list A) :
  (forall x, f x <= h x) -> sumZ (map f l) <= sumZ (map h l).
Proof.
  intros E. induction l as [|x l IH]; simpl; [lia |]. specialize (E x). lia.
Qed.

Lemma popcount_sub (a b : Z) : sub a b -> popcount a <= popcount b.
Proof.
  intros H. unfold popcount. apply sumZ_map_le. intros k. unfold bit_at.
  destruct (Z.testbit a (Z.of_nat k)) eqn:E; [| destruct (Z.testbit b _); lia].
  rewrite (H (Z.of_nat k) ltac:(lia) E). lia.
Qed.

Lemma sub_refl (a : Z) : sub a a.
Proof. intros k _ H. exact H. Qed.

Lemma sub_trans (a b c : Z) : sub a b -> sub b c -> sub a c.
Proof. intros H1 H2 k Hk H. auto. Qed.

Lemma sub_land_l (a b : Z) : sub (Z.land a b) a.
Proof. intros k _. rewrite Z.land_spec. intros [H _]%andb_prop. exact H. Qed.

Lemma sub_land_r (a b : Z) : sub (Z.land a b) b.
Proof. intros k _. rewrite Z.land_spec. intros [_ H]%andb_prop. exact H. Qed.

Lemma sub_land_mono (a a' b b' : Z) :
  sub a a' -> sub b b' -> sub (Z.land a b) (Z.land a' b').
Proof.
  intros Ha Hb k Hk. rewrite !Z.land_spec. intros [H1 H2]%andb_prop.
  rewrite (Ha k Hk H1), (Hb k Hk H2). reflexivity.
Qed.

(** Removing the overlap [c] from a column. *)
Lemma sub_lxor_l (a c : Z) : sub c a -> sub (Z.lxor a c) a.
Proof.
  intros Hc k Hk. rewrite Z.lxor_spec.
  destruct (Z.testbit a k) eqn:Ea; [reflexivity |].
  destruct (Z.testbit c k) eqn:Ec; [| discriminate].
  rewrite (Hc k Hk Ec) in Ea. discriminate.
Qed.

Lemma sub_lxor_mono (a a' c : Z) :
  sub a' a -> sub c a' -> sub (Z.lxor a' c) (Z.lxor a c).
Proof.
  intros Ha Hc k Hk. rewrite !Z.lxor_spec.
  destruct (Z.testbit a' k) eqn:Ea', (Z.testbit c k) eqn:Ec; try discriminate.
  - intros _. rewrite (Ha k Hk Ea'). reflexivity.
  - rewrite (Hc k Hk Ec) in Ea'. discriminate.
Qed.

Lemma land_eq_of_sub (x x' b : Z) :
  sub x' x -> sub (Z.land x b) x' -> Z.land x' b = Z.land x b.
Proof.
  intros H1 H2. apply Z.bits_inj'. intros k Hk. rewrite !Z.land_spec.
  specialize (H1 k Hk). specialize (H2 k Hk). rewrite Z.land_spec in H2.
  destruct (Z.testbit x' k), (Z.testbit x k), (Z.testbit b k); simpl in *;
    try reflexivity;
    try (specialize (H1 eq_refl); discriminate);
    try (specialize (H2 eq_refl); discriminate).
Qed.

Lemma land_lxor_disjoint (a b : Z) :
  Z.land (Z.lxor a (Z.land a b)) (Z.land a b) = 0.
Proof.
  apply Z.bits_inj'. intros k Hk.
  rewrite Z.bits_0, !Z.land_spec, Z.lxor_spec, Z.land_spec.
  destruct (Z.testbit a k), (Z.testbit b k); reflexivity.
Qed.

Lemma land_lxor_lxor_disjoint (a b : Z) :
  Z.land (Z.lxor a (Z.land a b)) (Z.lxor b (Z.land a b)) = 0.
Proof.
  apply Z.bits_inj'. intros k Hk.
  rewrite Z.bits_0, !Z.land_spec, !Z.lxor_spec, Z.land_spec.
  destruct (Z.testbit a k), (Z.testbit b k); reflexivity.
Qed.

(** The overlap of a reduced column with [y] was in the overlap of the
    column with [y], and is not in [c]. *)
Lemma sub_reduced_overlap (x x' c y : Z) :
  sub c x -> sub c x' -> sub (Z.land x y) x' ->
  sub (Z.land (Z.lxor x c) y) (Z.lxor x' c).
Proof.
  intros Hcx Hc H k Hk. specialize (Hcx k Hk). specialize (Hc k Hk).
  specialize (H k Hk).
  rewrite Z.land_spec in H. rewrite Z.land_spec, !Z.lxor_spec.
  destruct (Z.testbit x k), (Z.testbit c k), (Z.testbit y k),
    (Z.testbit x' k); simpl in *; intros G; try discriminate;
    try reflexivity;
    try (specialize (H eq_refl); discriminate);
    try (specialize (Hcx eq_refl); discriminate);
    try (specialize (Hc eq_refl); discriminate).
Qed.

Lemma sub_overlap_part (x a u : Z) :
  sub u a -> sub (Z.land x u) (Z.land x a).
Proof. intros H. apply sub_land_mono; [apply sub_refl | assumption]. Qed.

(** ** Moves on multisets of columns *)

Lemma reach_perm (L L' : list Z) (len : nat) (s : Z) :
  reach L len s -> L ≡ₚ L' -> reach L' len s.
Proof.
  intros H HP. destruct H as [L | L a b R len s HL Hc Hr].
  - constructor.
  - econstructor; [| exact Hc | exact Hr]. rewrite <- HP. exact HL.
Qed.

(** A column [x] that heads a multiset equal to [a :: b :: R0] is [a],
    or [b], or a member of [R0]. *)
Lemma perm_head_cases (x a b : Z) (R R0 : list Z) :
  x :: R ≡ₚ a :: b :: R0 ->
  (x = a /\ R ≡ₚ b :: R0) \/ (x = b /\ R ≡ₚ a :: R0)
  \/ exists R1, R0 ≡ₚ x :: R1 /\ R ≡ₚ a :: b :: R1.
Proof.
  intros HP.
  assert (Hx : x ∈ a :: b :: R0) by (rewrite <- HP; left).
  apply elem_of_cons in Hx. destruct Hx as [->|Hx].
  { left. split; [reflexivity |]. eapply (inj (cons a)). exact HP. }
  apply elem_of_cons in Hx. destruct Hx as [->|Hx].
  { right. left. split; [reflexivity |]. eapply (inj (cons b)).
    rewrite HP. apply Permutation_swap. }
  right. right. apply elem_of_Permutation in Hx. destruct Hx as [R1 HR1].
  exists R1. split; [exact HR1 |]. eapply (inj (cons x)).
  rewrite HP, HR1. rewrite (Permutation_swap x b), (Permutation_swap x a).
  reflexivity.
Qed.

Lemma perm_move3 (x a b : Z) (l : list Z) : x :: a :: b :: l ≡ₚ a :: b :: x :: l.
Proof.
  etransitivity; [apply Permutation_swap |]. apply Permutation_skip.
  apply Permutation_swap.
Qed.

(** Thinning a column: the bits of [x] outside [x'] are not in any
    overlap of at least two bits with another column, now or later, so
    that the same moves can be made with [x'] in place of [x]. *)
Lemma thin_one (L : list Z) (len : nat) (s : Z) :
  reach L len s ->
  forall x x' R,
    L ≡ₚ x :: R -> sub x' x ->
    (forall y, y ∈ R -> 2 <= popcount (Z.land x y) -> sub (Z.land x y) x') ->
    reach (x' :: R) len s.
Proof.
  induction 1 as [L | L a b R0 len s HL Hc Hr IH]; intros x x' R HP Hsub Hov.
  - constructor.
  - rewrite HL in HP. symmetry in HP.
    destruct (perm_head_cases x a b R R0 HP)
      as [[-> HR] | [[-> HR] | (R1 & HR0 & HR)]].
    + (* the thinned column is the first column of the move *)
      assert (Hb : b ∈ R) by (rewrite HR; left).
      pose proof (Hov b Hb Hc) as Hcx'.
      pose proof (land_eq_of_sub a x' b Hsub Hcx') as Ec.
      apply (reach_perm (x' :: b :: R0)); [| rewrite HR; reflexivity].
      rewrite <- Ec.
      eapply reach_move; [reflexivity | rewrite Ec; exact Hc |].
      rewrite Ec.
      apply (reach_perm (Z.lxor x' (Z.land a b)
                         :: Z.land a b :: Z.lxor b (Z.land a b) :: R0));
        [| apply Permutation_swap].
      apply (IH (Z.lxor a (Z.land a b))).
      * apply Permutation_swap.
      * apply sub_lxor_mono; assumption.
      * intros y Hy Hbig.
        apply elem_of_cons in Hy. destruct Hy as [->|Hy].
        { rewrite land_lxor_disjoint, popcount_0 in Hbig. lia. }
        apply elem_of_cons in Hy. destruct Hy as [->|Hy].
        { rewrite land_lxor_lxor_disjoint, popcount_0 in Hbig. lia. }
        apply sub_reduced_overlap; [apply sub_land_l | assumption |].
        apply Hov; [rewrite HR; right; assumption |].
        eapply Z.le_trans; [exact Hbig |]. apply popcount_sub.
        apply sub_land_mono; [| apply sub_refl].
        apply sub_lxor_l. apply sub_land_l.
    + (* the thinned column is the second column of the move *)
      assert (Ha : a ∈ R) by (rewrite HR; left).
      assert (Hc' : 2 <= popcount (Z.land b a)) by (rewrite Z.land_comm; exact Hc).
      pose proof (Hov a Ha Hc') as Hcx'.
      pose proof (land_eq_of_sub b x' a Hsub Hcx') as Ec.
      rewrite (Z.land_comm x' a), (Z.land_comm b a) in Ec.
      rewrite (Z.land_comm b a) in Hcx'.
      apply (reach_perm (a :: x' :: R0));
        [| rewrite HR; apply Permutation_swap].
      rewrite <- Ec.
      eapply reach_move; [reflexivity | rewrite Ec; exact Hc |].
      rewrite Ec.
      apply (reach_perm (Z.lxor x' (Z.land a b)
                         :: Z.land a b :: Z.lxor a (Z.land a b) :: R0)).
      2:{ etransitivity; [apply Permutation_swap |].
          apply Permutation_skip. apply Permutation_swap. }
      apply (IH (Z.lxor b (Z.land a b))).
      * symmetry. etransitivity; [apply Permutation_swap |].
        apply Permutation_skip. apply Permutation_swap.
      * apply sub_lxor_mono; assumption.
      * intros y Hy Hbig.
        apply elem_of_cons in Hy. destruct Hy as [->|Hy].
        { rewrite (Z.land_comm a b), land_lxor_disjoint, popcount_0 in Hbig.
          lia. }
        apply elem_of_cons in Hy. destruct Hy as [->|Hy].
        { rewrite Z.land_comm, land_lxor_lxor_disjoint, popcount_0 in Hbig.
          lia. }
        apply sub_reduced_overlap; [apply sub_land_r | assumption |].
        apply Hov; [rewrite HR; right; assumption |].
        eapply Z.le_trans; [exact Hbig |]. apply popcount_sub.
        apply sub_land_mono; [| apply sub_refl].
        apply sub_lxor_l. apply sub_land_r.
    + (* the thinned column is not moved *)
      assert (Ha : a ∈ R) by (rewrite HR; left).
      assert (Hb : b ∈ R) by (rewrite HR; right; left).
      apply (reach_perm (a :: b :: x' :: R1)).
      2:{ rewrite HR. symmetry. apply perm_move3. }
      eapply reach_move; [reflexivity | exact Hc |].
      apply (reach_perm (x' :: Z.land a b :: Z.lxor a (Z.land a b)
                         :: Z.lxor b (Z.land a b) :: R1)).
      2:{ etransitivity; [apply Permutation_swap |]. apply Permutation_skip.
          apply perm_move3. }
      apply (IH x).
      * rewrite HR0. symmetry.
        etransitivity; [apply Permutation_swap |]. apply Permutation_skip.
        apply perm_move3.
      * assumption.
      * intros y Hy Hbig.
        assert (Hpart : forall u v, v ∈ R -> sub u v ->
                  2 <= popcount (Z.land x u) -> sub (Z.land x u) x').
        { intros u v Hv Hu Hbu.
          eapply sub_trans; [apply sub_overlap_part; exact Hu |].
          apply Hov; [assumption |].
          eapply Z.le_trans; [exact Hbu |]. apply popcount_sub.
          apply sub_overlap_part. exact Hu. }
        apply elem_of_cons in Hy. destruct Hy as [->|Hy];
          [apply (Hpart _ a Ha); [apply sub_land_l | assumption] |].
        apply elem_of_cons in Hy. destruct Hy as [->|Hy];
          [apply (Hpart _ a Ha); [apply sub_lxor_l, sub_land_l | assumption] |].
        apply elem_of_cons in Hy. destruct Hy as [->|Hy];
          [apply (Hpart _ b Hb); [apply sub_lxor_l, sub_land_r | assumption] |].
        apply Hov; [| assumption]. rewrite HR. right. right. assumption.
Qed.

(** An empty column takes part in no move. *)
Lemma reach_drop_zero (L : list Z) (len : nat) (s : Z) :
  reach L len s -> forall R, L ≡ₚ 0 :: R -> reach R len s.
Proof.
  induction 1 as [L | L a b R0 len s HL Hc Hr IH]; intros R HP.
  - constructor.
  - rewrite HL in HP. symmetry in HP.
    destruct (perm_head_cases 0 a b R R0 HP)
      as [[<- HR] | [[<- HR] | (R1 & HR0 & HR)]].
    + rewrite Z.land_0_l, popcount_0 in Hc. lia.
    + rewrite Z.land_0_r, popcount_0 in Hc. lia.
    + apply (reach_perm (a :: b :: R1)); [| symmetry; exact HR].
      eapply reach_move; [reflexivity | exact Hc |].
      apply IH. rewrite HR0. symmetry.
      etransitivity; [apply Permutation_swap |]. apply Permutation_skip.
      apply perm_move3.
Qed.

Lemma insert_perm (l : list Z) (j : nat) (m y : Z) :
  l !! j = Some m -> exists R, l ≡ₚ m :: R /\ <[j := y]> l ≡ₚ y :: R.
Proof.
  revert j. induction l as [|z l IH]; intros [|j] E; try discriminate.
  - injection E as ->. exists l. split; reflexivity.
  - destruct (IH j E) as (R & H1 & H2). exists (z :: R). simpl. split.
    + rewrite H1. apply Permutation_swap.
    + rewrite H2. apply Permutation_swap.
Qed.

Lemma insert2_perm (L : list Z) (i j : nat) (mi mj x y : Z) :
  (i < j)%nat -> L !! i = Some mi -> L !! j = Some mj ->
  exists R, L ≡ₚ mi :: mj :: R
            /\ <[j := y]> (<[i := x]> L) ≡ₚ x :: y :: R.
Proof.
  revert i j. induction L as [|z L IH]; intros [|i] [|j] Hij Ei Ej;
    try discriminate; try lia.
  - injection Ei as ->. simpl in Ej.
    destruct (insert_perm L j mj y Ej) as (R & H1 & H2).
    exists R. simpl. split; [rewrite H1 | rewrite H2]; reflexivity.
  - simpl in Ei, Ej. destruct (IH i j ltac:(lia) Ei Ej) as (R & H1 & H2).
    exists (z :: R). simpl. split.
    + rewrite H1. apply perm_move3.
    + rewrite H2. apply perm_move3.
Qed.

(** A history that replays is a sequence of moves on the multiset of the
    columns. *)
Lemma replay_reach (h : list (Z * Z)) :
  forall (L l : list Z) (s : Z),
    Forall (fun v => 0 <= v < 65536) L ->
    replay L h = Some (l, s) -> reach L (length h) s.
Proof.
  induction h as [|[i j] h IH]; intros L l s H16 H.
  - injection H as _ <-. constructor.
  - simpl in H. destruct (combine_cols L i j) as [[L1 c]|] eqn:Ec; [| discriminate].
    destruct (Z.eqb_spec (savings c) 0) as [|Hs]; [discriminate |].
    destruct (replay L1 h) as [[l2 s2]|] eqn:Er; [| discriminate].
    injection H as _ <-.
    destruct (combine_cols_props _ _ _ _ _ Ec H16) as (Hc & _ & _ & _ & H161).
    destruct (combine_cols_inv _ _ _ _ _ Ec)
      as (mi & mj & Hij & Hj & Emi & Emj & -> & ->).
    destruct (savings_nonzero _ Hc Hs) as [Hpc _].
    destruct (insert2_perm L (Z.to_nat i) (Z.to_nat j) mi mj
                (Z.lxor mi (Z.land mi mj)) (Z.lxor mj (Z.land mi mj))
                ltac:(lia) Emi Emj) as (R & HR1 & HR2).
    assert (Esav : savings (Z.land mi mj) = popcount (Z.land mi mj) - 1).
    { unfold savings. destruct (Z.eqb_spec (Z.land mi mj) 0) as [E|]; [| reflexivity].
      rewrite E, popcount_0 in Hpc. lia. }
    rewrite Esav, Z.add_comm. cbn [length].
    eapply reach_move; [exact HR1 | exact Hpc |].
    eapply reach_perm; [apply (IH _ _ _ H161 Er) |].
    rewrite <- Permutation_cons_append, HR2. reflexivity.
Qed.

(** ** The bound from the columns alone *)

Lemma bit_at_lor (a b : Z) (r : nat) :
  bit_at (Z.lor a b) r = Z.max (bit_at a r) (bit_at b r).
Proof.
  unfold bit_at. rewrite Z.lor_spec.
  destruct (Z.testbit a _), (Z.testbit b _); reflexivity.
Qed.

Lemma bit_at_ovl (k x y : Z) (r : nat) :
  bit_at (ovl k x y) r = if pair_at k r x y then 1 else 0.
Proof.
  unfold bit_at, ovl, pair_at. destruct (k <=? popcount (Z.land x y)).
  - rewrite andb_true_r. reflexivity.
  - rewrite Z.bits_0, andb_false_r. reflexivity.
Qed.

Lemma bit_at_lev (k x : Z) (O : list Z) (r : nat) :
  bit_at (lev k x O) r = if existsb (pair_at k r x) O then 1 else 0.
Proof.
  induction O as [|y O IH]; cbn [lev existsb].
  - unfold bit_at. rewrite Z.bits_0. reflexivity.
  - rewrite bit_at_lor, bit_at_ovl, IH.
    destruct (pair_at k r x y), (existsb _ O); reflexivity.
Qed.

Lemma pair_at_sub (k : Z) (r : nat) (x x' y y' : Z) :
  sub x' x -> sub y' y -> pair_at k r x' y' = true -> pair_at k r x y = true.
Proof.
  intros Hx Hy H. unfold pair_at in *. apply andb_prop in H.
  destruct H as [Hb Hk]. apply Z.leb_le in Hk.
  pose proof (sub_land_mono _ _ _ _ Hx Hy) as Hs.
  rewrite (Hs _ (Nat2Z.is_nonneg r) Hb). cbn [andb]. apply Z.leb_le.
  pose proof (popcount_sub _ _ Hs). lia.
Qed.

(** Partners that are parts of other partners hold no more bits. *)
Lemma bit_at_lev_mono (k : Z) (r : nat) (x x' : Z) (O O' : list Z) :
  sub x' x ->
  (forall y', In y' O' -> pair_at k r x' y' = true ->
              exists y, In y O /\ sub y' y) ->
  bit_at (lev k x' O') r <= bit_at (lev k x O) r.
Proof.
  intros Hx HO. rewrite !bit_at_lev.
  destruct (existsb (pair_at k r x') O') eqn:E';
    [| destruct (existsb _ O); lia].
  apply existsb_exists in E'. destruct E' as (y' & Hin & Hp).
  destruct (HO y' Hin Hp) as (y & Hy & Hs).
  assert (E : existsb (pair_at k r x) O = true).
  { apply existsb_exists. exists y. split; [exact Hy |].
    exact (pair_at_sub k r x x' y y' Hx Hs Hp). }
  rewrite E. lia.
Qed.

Lemma perm_dom (O O' : list Z) :
  O ≡ₚ O' -> forall y, In y O -> exists y0, In y0 O' /\ sub y y0.
Proof.
  intros HP y Hy. exists y. split; [| apply sub_refl].
  apply list_elem_of_In. rewrite <- HP. apply list_elem_of_In. exact Hy.
Qed.

Lemma bit_at_lev_perm (k : Z) (r : nat) (x : Z) (O O' : list Z) :
  O ≡ₚ O' -> bit_at (lev k x O) r = bit_at (lev k x O') r.
Proof.
  intros HP. apply Z.le_antisymm; apply bit_at_lev_mono;
    try apply sub_refl; intros y Hy _.
  - exact (perm_dom O O' HP y Hy).
  - symmetry in HP. exact (perm_dom O' O HP y Hy).
Qed.

Lemma cnt_nonneg (k : Z) (r : nat) (l : list Z) :
  forall pre, 0 <= cnt k r pre l.
Proof.
  induction l as [|a l IH]; intros pre; cbn [cnt]; [lia |].
  pose proof (bit_at_bounds (lev k a (pre ++ l)) r). specialize (IH (a :: pre)).
  lia.
Qed.

(** The columns seen before may be replaced by columns they are parts
    of. *)
Lemma cnt_mono_pre (k : Z) (r : nat) (l : list Z) :
  forall pre pre',
    (forall y', In y' pre' -> exists y, In y pre /\ sub y' y) ->
    cnt k r pre' l <= cnt k r pre l.
Proof.
  induction l as [|a l IH]; intros pre pre' Hd; cbn [cnt]; [lia |].
  assert (H1 : bit_at (lev k a (pre' ++ l)) r <= bit_at (lev k a (pre ++ l)) r).
  { apply bit_at_lev_mono; [apply sub_refl |]. intros y' Hy _.
    apply in_app_or in Hy. destruct Hy as [Hy|Hy].
    - destruct (Hd y' Hy) as (y & Hin & Hs). exists y.
      split; [apply in_or_app; left; exact Hin | exact Hs].
    - exists y'. split; [apply in_or_app; right; exact Hy | apply sub_refl]. }
  assert (H2 : cnt k r (a :: pre') l <= cnt k r (a :: pre) l).
  { apply IH. intros y' [<-|Hy].
    - exists a. split; [left; reflexivity | apply sub_refl].
    - destruct (Hd y' Hy) as (y & Hin & Hs). exists y.
      split; [right; exact Hin | exact Hs]. }
  lia.
Qed.

Lemma cnt_perm_pre (k : Z) (r : nat) (l pre pre' : list Z) :
  pre ≡ₚ pre' -> cnt k r pre l = cnt k r pre' l.
Proof.
  intros HP. apply Z.le_antisymm; apply cnt_mono_pre; intros y Hy.
  - exact (perm_dom pre pre' HP y Hy).
  - symmetry in HP. exact (perm_dom pre' pre HP y Hy).
Qed.

Lemma cnt_perm (k : Z) (r : nat) (l l' : list Z) :
  l ≡ₚ l' -> forall pre, cnt k r pre l = cnt k r pre l'.
Proof.
  induction 1 as [|x l l' HP IH|x y l|l l' l'' HP1 IH1 HP2 IH2]; intros pre.
  - reflexivity.
  - cbn [cnt]. rewrite IH.
    rewrite (bit_at_lev_perm k r x (pre ++ l) (pre ++ l'))
      by (rewrite HP; reflexivity).
    reflexivity.
  - cbn [cnt].
    rewrite (bit_at_lev_perm k r y (pre ++ x :: l) ((x :: pre) ++ l))
      by (cbn [app]; rewrite Permutation_middle; reflexivity).
    rewrite (bit_at_lev_perm k r x ((y :: pre) ++ l) (pre ++ y :: l))
      by (cbn [app]; rewrite Permutation_middle; reflexivity).
    rewrite (cnt_perm_pre k r l (x :: y :: pre) (y :: x :: pre))
      by apply perm_swap.
    lia.
  - rewrite IH1. apply IH2.
Qed.

Lemma bit_at_lev_out (k x : Z) (O : list Z) (r : nat) :
  Z.testbit x (Z.of_nat r) = false -> bit_at (lev k x O) r = 0.
Proof.
  intros Hx. rewrite bit_at_lev.
  destruct (existsb (pair_at k r x) O) eqn:E; [| reflexivity].
  apply existsb_exists in E. destruct E as (y & _ & Hp).
  unfold pair_at in Hp. rewrite Z.land_spec, Hx in Hp. discriminate.
Qed.

Lemma pair_at_disjoint (k : Z) (r : nat) (x y : Z) :
  Z.land x y = 0 -> pair_at k r x y = false.
Proof. intros E. unfold pair_at. rewrite E, Z.bits_0. reflexivity. Qed.

Lemma land_lxor_disjoint_r (a b : Z) :
  Z.land (Z.lxor b (Z.land a b)) (Z.land a b) = 0.
Proof. rewrite (Z.land_comm a b). apply land_lxor_disjoint. Qed.

Section Step.
Variables (k : Z) (r : nat) (a b : Z) (R : list Z).
Let c := Z.land a b.
Let a' := Z.lxor a c.
Let b' := Z.lxor b c.

Lemma step_tail : cnt k r [b'; a'; c] R <= cnt k r [b; a] R.
Proof.
  apply cnt_mono_pre. intros y' [<-|[<-|[<-|[]]]].
  - exists b. split; [left; reflexivity |].
    apply sub_lxor_l, sub_land_r.
  - exists a. split; [right; left; reflexivity |].
    apply sub_lxor_l, sub_land_l.
  - exists a. split; [right; left; reflexivity | apply sub_land_l].
Qed.

Lemma step_a : bit_at (lev k a' ([c] ++ b' :: R)) r
               <= bit_at (lev k a ([] ++ b :: R)) r.
Proof.
  apply bit_at_lev_mono; [apply sub_lxor_l, sub_land_l |].
  intros y' [<-|[<-|Hy]] Hp.
  - rewrite pair_at_disjoint in Hp by apply land_lxor_disjoint. discriminate.
  - rewrite pair_at_disjoint in Hp by apply land_lxor_lxor_disjoint.
    discriminate.
  - exists y'. split; [right; exact Hy | apply sub_refl].
Qed.

Lemma step_b : bit_at (lev k b' ([a'; c] ++ R)) r
               <= bit_at (lev k b ([a] ++ R)) r.
Proof.
  apply bit_at_lev_mono; [apply sub_lxor_l, sub_land_r |].
  intros y' [<-|[<-|Hy]] Hp.
  - rewrite pair_at_disjoint in Hp
      by (rewrite Z.land_comm; apply land_lxor_lxor_disjoint).
    discriminate.
  - rewrite pair_at_disjoint in Hp by apply land_lxor_disjoint_r. discriminate.
  - exists y'. split; [right; exact Hy | apply sub_refl].
Qed.

Lemma step_c : bit_at (lev k c ([] ++ a' :: b' :: R)) r
               <= bit_at (lev k a ([] ++ b :: R)) r.
Proof.
  apply bit_at_lev_mono; [apply sub_land_l |].
  intros y' [<-|[<-|Hy]] Hp.
  - rewrite pair_at_disjoint in Hp
      by (rewrite Z.land_comm; apply land_lxor_disjoint).
    discriminate.
  - rewrite pair_at_disjoint in Hp
      by (rewrite Z.land_comm; apply land_lxor_disjoint_r).
    discriminate.
  - exists y'. split; [right; exact Hy | apply sub_refl].
Qed.

Lemma step_in_a' :
  Z.testbit c (Z.of_nat r) = true -> Z.testbit a' (Z.of_nat r) = false.
Proof.
  intros Hc. unfold a'. rewrite Z.lxor_spec, Hc.
  unfold c in Hc. rewrite Z.land_spec in Hc. apply andb_prop in Hc.
  destruct Hc as [-> _]. reflexivity.
Qed.

Lemma step_in_b' :
  Z.testbit c (Z.of_nat r) = true -> Z.testbit b' (Z.of_nat r) = false.
Proof.
  intros Hc. unfold b'. rewrite Z.lxor_spec, Hc.
  unfold c in Hc. rewrite Z.land_spec in Hc. apply andb_prop in Hc.
  destruct Hc as [_ ->]. reflexivity.
Qed.

(** A move takes no bit position to more columns. *)
Lemma step_le : cnt k r [] (c :: a' :: b' :: R) <= cnt k r [] (a :: b :: R).
Proof.
  cbn [cnt]. pose proof step_tail. pose proof step_a. pose proof step_b.
  pose proof step_c.
  pose proof (bit_at_bounds (lev k b ([a] ++ R)) r).
  destruct (Z.testbit c (Z.of_nat r)) eqn:Hc.
  - rewrite (bit_at_lev_out k a' _ r (step_in_a' Hc)).
    rewrite (bit_at_lev_out k b' _ r (step_in_b' Hc)). lia.
  - rewrite (bit_at_lev_out k c _ r Hc). lia.
Qed.

(** It takes one column from the positions of the overlap, at the
    levels up to the size of the overlap. *)
Lemma step_lt :
  Z.testbit c (Z.of_nat r) = true -> k <= popcount c ->
  cnt k r [] (c :: a' :: b' :: R) + 1 <= cnt k r [] (a :: b :: R)
  /\ 2 <= cnt k r [] (a :: b :: R).
Proof.
  intros Hc Hk. cbn [cnt]. pose proof step_tail.
  pose proof (cnt_nonneg k r R [b'; a'; c]).
  pose proof (bit_at_bounds (lev k c ([] ++ a' :: b' :: R)) r).
  rewrite (bit_at_lev_out k a' _ r (step_in_a' Hc)).
  rewrite (bit_at_lev_out k b' _ r (step_in_b' Hc)).
  assert (Ha : bit_at (lev k a ([] ++ b :: R)) r = 1).
  { rewrite bit_at_lev. cbn [app existsb]. unfold pair_at at 1.
    fold c. rewrite Hc. destruct (Z.leb_spec k (popcount c)); [| lia].
    reflexivity. }
  assert (Hb : bit_at (lev k b ([a] ++ R)) r = 1).
  { rewrite bit_at_lev. cbn [app existsb]. unfold pair_at at 1.
    rewrite (Z.land_comm b a). fold c. rewrite Hc.
    destruct (Z.leb_spec k (popcount c)); [| lia]. reflexivity. }
  rewrite Ha, Hb. lia.
Qed.
End Step.

Lemma excess_nonneg (n : Z) : 0 <= n -> 0 <= excess n.
Proof. unfold excess. lia. Qed.

Lemma excess_mono (n m : Z) : n <= m -> excess n <= excess m.
Proof. unfold excess. lia. Qed.

Lemma excess_lt (n m : Z) : n + 1 <= m -> 2 <= m -> 0 <= n ->
  excess n + 1 <= excess m.
Proof. unfold excess. lia. Qed.

Lemma rows_pot_nonneg (k : Z) (L : list Z) : 0 <= rows_pot k L.
Proof.
  unfold rows_pot. apply sumZ_map_nonneg. intros r.
  apply excess_nonneg, cnt_nonneg.
Qed.

Lemma rows_pot_perm (k : Z) (L L' : list Z) :
  L ≡ₚ L' -> rows_pot k L = rows_pot k L'.
Proof.
  intros HP. unfold rows_pot. f_equal. apply map_ext. intros r.
  rewrite (cnt_perm k r L L' HP). reflexivity.
Qed.

(** One level of the bound across a move. *)
Lemma rows_pot_step (k a b : Z) (R : list Z) :
  rows_pot k (Z.land a b :: Z.lxor a (Z.land a b) :: Z.lxor b (Z.land a b) :: R)
  + (if k <=? popcount (Z.land a b) then popcount (Z.land a b) else 0)
  <= rows_pot k (a :: b :: R).
Proof.
  unfold rows_pot. set (c := Z.land a b).
  destruct (Z.leb_spec k (popcount c)) as [Hk|Hk].
  - unfold popcount.
    rewrite (sumZ_map_add _ (bit_at c)
               (fun r => excess (cnt k r [] (c :: Z.lxor a c :: Z.lxor b c :: R))
                         + bit_at c r)) by reflexivity.
    apply sumZ_map_le. intros r. unfold bit_at.
    destruct (Z.testbit c (Z.of_nat r)) eqn:Hc.
    + destruct (step_lt k r a b R Hc Hk) as [H1 H2].
      apply excess_lt; [exact H1 | exact H2 | apply cnt_nonneg].
    + rewrite Z.add_0_r. apply excess_mono, step_le.
  - rewrite Z.add_0_r. apply sumZ_map_le. intros r.
    apply excess_mono, step_le.
Qed.

Lemma potential_nonneg (L : list Z) : 0 <= potential L.
Proof.
  unfold potential.
  pose proof (rows_pot_nonneg 2 L). pose proof (rows_pot_nonneg 3 L).
  pose proof (rows_pot_nonneg 4 L). pose proof (rows_pot_nonneg 5 L).
  pose proof (rows_pot_nonneg 6 L). lia.
Qed.

Lemma potential_perm (L L' : list Z) : L ≡ₚ L' -> potential L = potential L'.
Proof.
  intros HP. unfold potential.
  rewrite !(rows_pot_perm _ L L' HP). reflexivity.
Qed.

Lemma potential_step (a b : Z) (R : list Z) :
  2 <= popcount (Z.land a b) ->
  potential (Z.land a b :: Z.lxor a (Z.land a b) :: Z.lxor b (Z.land a b) :: R)
  + 60 * (popcount (Z.land a b) - 1)
  <= potential (a :: b :: R).
Proof.
  intros Hp. unfold potential.
  pose proof (rows_pot_step 2 a b R) as H2.
  pose proof (rows_pot_step 3 a b R) as H3.
  pose proof (rows_pot_step 4 a b R) as H4.
  pose proof (rows_pot_step 5 a b R) as H5.
  pose proof (rows_pot_step 6 a b R) as H6.
  set (p := popcount (Z.land a b)) in *.
  destruct (Z.leb_spec 2 p); [| lia].
  destruct (Z.leb_spec 3 p); destruct (Z.leb_spec 4 p);
    destruct (Z.leb_spec 5 p); destruct (Z.leb_spec 6 p); lia.
Qed.

(** No sequence of moves saves more than a sixtieth of the
    potential. *)
Theorem reach_potential (L : list Z) (len : nat) (s : Z) :
  reach L len s -> 60 * s <= potential L.
Proof.
  induction 1 as [L|L a b R len s HP Hp Hr IH].
  - pose proof (potential_nonneg L). lia.
  - rewrite (potential_perm L _ HP).
    pose proof (potential_step a b R Hp). lia.
Qed.

(** ** Machine integers as 16-bit columns *)

Lemma to_Z_nonneg (a : int) : 0 <= Uint63.to_Z a.
Proof. apply Uint63.to_Z_bounded. Qed.

Lemma all_from_spec (n : nat) :
  forall v, all_from n v = true ->
            forall x, v <= x < v + Z.of_nat n -> check16 x = true.
Proof.
  induction n as [|n IH]; intros v H x Hx; [lia |].
  cbn [all_from] in H. apply andb_prop in H. destruct H as [H1 H2].
  destruct (Z.eq_dec x v) as [->|Hne]; [exact H1 |].
  apply (IH (v + 1) H2). lia.
Qed.

Lemma check16_all : all_from (Z.to_nat 65536) 0 = true.
Proof. vm_cast_no_check (eq_refl true). Qed.

Lemma check16_spec (a : int) : valid16 a -> check16 (Uint63.to_Z a) = true.
Proof.
  intros Ha. pose proof (to_Z_nonneg a). unfold valid16 in Ha.
  apply (all_from_spec _ _ check16_all). lia.
Qed.

(** What the check gives for a 16-bit integer. *)
Lemma check16_facts (c : int) :
  valid16 c ->
  let p := popcount (Uint63.to_Z c) in
  Uint63.to_Z (popt c) = p
  /\ is0 (drop1 c) = (p <? 2)
  /\ is0 (drop1 (drop1 c)) = (p <? 3)
  /\ is0 (drop1 (drop1 (drop1 c))) = (p <? 4)
  /\ is0 (drop1 (drop1 (drop1 (drop1 c)))) = (p <? 5)
  /\ is0 (drop1 (drop1 (drop1 (drop1 (drop1 c))))) = (p <? 6).
Proof.
  intros Hc p. pose proof (check16_spec c Hc) as H. unfold check16 in H.
  rewrite Uint63.of_to_Z in H. fold p in H. cbv zeta in H.
  apply andb_prop in H. destruct H as [H H6].
  apply andb_prop in H. destruct H as [H H5].
  apply andb_prop in H. destruct H as [H H4].
  apply andb_prop in H. destruct H as [H H3].
  apply andb_prop in H. destruct H as [H H2].
  apply Bool.eqb_prop in H2, H3, H4, H5, H6.
  apply Uint63.eqb_correct in H.
  split; [| repeat split; assumption].
  rewrite H, Uint63.of_Z_spec. apply Z.mod_small.
  pose proof (popcount_bounds (Uint63.to_Z c)) as Hp. fold p in Hp.
  change Uint63.wB with 9223372036854775808. lia.
Qed.

Lemma popt_spec (c : int) :
  valid16 c -> Uint63.to_Z (popt c) = popcount (Uint63.to_Z c).
Proof. intros Hc. apply (check16_facts c Hc). Qed.

Lemma big_spec (c : int) :
  valid16 c -> big c = true <-> 2 <= popcount (Uint63.to_Z c).
Proof.
  intros Hc. destruct (check16_facts c Hc) as (_ & H & _).
  unfold big. fold (is0 (drop1 c)). rewrite H.
  destruct (Z.ltb_spec (popcount (Uint63.to_Z c)) 2); simpl; split;
    (lia || discriminate || reflexivity).
Qed.

Lemma valid16_range (a : int) : valid16 a <-> 0 <= Uint63.to_Z a < 65536.
Proof. unfold valid16. pose proof (to_Z_nonneg a). lia. Qed.

Lemma valid16_land (a b : int) :
  valid16 a -> valid16 b -> valid16 (Uint63.land a b).
Proof.
  rewrite !valid16_range, Uint63.land_spec'. apply land_16.
Qed.

Lemma valid16_lxor (a b : int) :
  valid16 a -> valid16 b -> valid16 (Uint63.lxor a b).
Proof.
  rewrite !valid16_range, Uint63.lxor_spec'. apply lxor_16.
Qed.

Lemma valid16_sub (a b : int) :
  sub (Uint63.to_Z a) (Uint63.to_Z b) -> valid16 b -> valid16 a.
Proof.
  intros H Hb. apply valid16_range in Hb. unfold valid16.
  pose proof (to_Z_nonneg a).
  apply lt_65536_of_bits; [lia |]. intros k Hk.
  destruct (Z.testbit (Uint63.to_Z a) k) eqn:E; [| reflexivity].
  rewrite <- (testbit_high (Uint63.to_Z b) k Hb Hk). symmetry.
  apply H; [lia | exact E].
Qed.

Lemma sub_lor (x y z : Z) : sub x z -> sub y z -> sub (Z.lor x y) z.
Proof.
  intros Hx Hy k Hk. rewrite Z.lor_spec. intros [H|H]%orb_prop; auto.
Qed.

Lemma sub_lor_l (x y : Z) : sub x (Z.lor x y).
Proof. intros k _ H. rewrite Z.lor_spec, H. reflexivity. Qed.

Lemma sub_lor_r (x y : Z) : sub y (Z.lor x y).
Proof. intros k _ H. rewrite Z.lor_spec, H. apply orb_true_r. Qed.

(** ** Normal form of a multiset *)

Lemma insert_sorted_perm (x : int) (l : list int) : insert_sorted x l ≡ₚ x :: l.
Proof.
  induction l as [|y l IH]; simpl; [reflexivity |].
  destruct (Uint63.leb x y); [reflexivity |].
  rewrite IH. apply Permutation_swap.
Qed.

Lemma useful_sub (a : int) (l : list int) :
  forall acc, sub (Uint63.to_Z acc) (Uint63.to_Z a) ->
              sub (Uint63.to_Z (useful a l acc)) (Uint63.to_Z a).
Proof.
  induction l as [|b l IH]; intros acc Hacc; simpl; [assumption |].
  apply IH. destruct (big (Uint63.land a b)); [| assumption].
  rewrite Uint63.lor_spec', Uint63.land_spec'.
  apply sub_lor; [assumption | apply sub_land_l].
Qed.

Lemma useful_acc (a : int) (l : list int) :
  forall acc, sub (Uint63.to_Z acc) (Uint63.to_Z (useful a l acc)).
Proof.
  induction l as [|b l IH]; intros acc; simpl; [apply sub_refl |].
  eapply sub_trans; [| apply IH].
  destruct (big (Uint63.land a b)); [| apply sub_refl].
  rewrite Uint63.lor_spec'. apply sub_lor_l.
Qed.

Lemma useful_overlap (a : int) (l : list int) :
  forall acc b,
    valid16 a -> In b l -> valid16 b ->
    2 <= popcount (Z.land (Uint63.to_Z a) (Uint63.to_Z b)) ->
    sub (Z.land (Uint63.to_Z a) (Uint63.to_Z b))
        (Uint63.to_Z (useful a l acc)).
Proof.
  induction l as [|b0 l IH]; intros acc b Ha Hb Hvb Hbig; [destruct Hb |].
  destruct Hb as [->|Hb]; [| apply IH; assumption].
  simpl. eapply sub_trans; [| apply useful_acc].
  assert (Hc : big (Uint63.land a b) = true).
  { apply big_spec; [apply valid16_land; assumption |].
    rewrite Uint63.land_spec'. assumption. }
  rewrite Hc, Uint63.lor_spec', Uint63.land_spec'. apply sub_lor_r.
Qed.

Lemma sub_zero (x : Z) : sub 0 x.
Proof. intros k _ H. rewrite Z.bits_0 in H. discriminate. Qed.

Lemma cols_of_perm (k k' : list int) : k ≡ₚ k' -> cols_of k ≡ₚ cols_of k'.
Proof. intros H. unfold cols_of. apply Permutation_map. exact H. Qed.

Lemma norm_aux_sound (l : list int) :
  forall (pre acc : list int) (len : nat) (s : Z),
    Forall valid16 l -> Forall valid16 pre -> Forall valid16 acc ->
    (forall y, In y acc ->
       exists p, In p pre /\ sub (Uint63.to_Z y) (Uint63.to_Z p)) ->
    reach (cols_of acc ++ cols_of l) len s ->
    reach (cols_of (norm_aux pre l acc)) len s
    /\ Forall valid16 (norm_aux pre l acc).
Proof.
  induction l as [|a l IH]; intros pre acc len s Hl Hpre Hacc Hinv Hr.
  - simpl. split; [| assumption]. unfold cols_of in Hr at 2. simpl in Hr.
    rewrite app_nil_r in Hr. exact Hr.
  - apply Forall_cons in Hl. destruct Hl as [Ha Hl].
    cbn [norm_aux].
    set (a' := useful a l (useful a pre i_0)).
    assert (Hsub : sub (Uint63.to_Z a') (Uint63.to_Z a)).
    { apply useful_sub, useful_sub. change (Uint63.to_Z i_0) with 0.
      apply sub_zero. }
    assert (Ha' : valid16 a') by (eapply valid16_sub; eassumption).
    assert (Hr' : reach (Uint63.to_Z a' :: (cols_of acc ++ cols_of l)) len s).
    { apply (thin_one _ _ _ Hr (Uint63.to_Z a)).
      - unfold cols_of at 2. cbn [map]. fold (cols_of l).
        symmetry. apply Permutation_middle.
      - exact Hsub.
      - intros y Hy Hbig. apply elem_of_app in Hy. destruct Hy as [Hy|Hy].
        + apply list_elem_of_In, in_map_iff in Hy.
          destruct Hy as (y0 & <- & Hy0).
          destruct (Hinv y0 Hy0) as (p & Hp & Hyp).
          assert (Hvp : valid16 p)
            by (rewrite Forall_forall in Hpre; apply Hpre, list_elem_of_In, Hp).
          eapply sub_trans; [apply sub_overlap_part; exact Hyp |].
          eapply sub_trans; [| apply useful_acc].
          apply useful_overlap; try assumption.
          eapply Z.le_trans; [exact Hbig |]. apply popcount_sub.
          apply sub_overlap_part. exact Hyp.
        + apply list_elem_of_In, in_map_iff in Hy.
          destruct Hy as (b & <- & Hb).
          apply useful_overlap; try assumption.
          rewrite Forall_forall in Hl. apply Hl, list_elem_of_In, Hb. }
    destruct (Uint63.eqb a' i_0) eqn:E0.
    + apply Uint63.eqb_correct in E0. rewrite E0 in Hr'.
      change (Uint63.to_Z i_0) with 0 in Hr'.
      apply (IH (a :: pre) acc len s); try assumption.
      * apply Forall_cons. split; assumption.
      * intros y Hy. destruct (Hinv y Hy) as (p & Hp & Hyp).
        exists p. split; [right; assumption | assumption].
      * eapply reach_drop_zero; [exact Hr' | reflexivity].
    + apply (IH (a :: pre) (insert_sorted a' acc) len s); try assumption.
      * apply Forall_cons. split; assumption.
      * rewrite (insert_sorted_perm a' acc). apply Forall_cons.
        split; assumption.
      * intros y Hy.
        apply list_elem_of_In in Hy. rewrite insert_sorted_perm in Hy.
        apply elem_of_cons in Hy. destruct Hy as [->|Hy].
        -- exists a. split; [left; reflexivity | assumption].
        -- apply list_elem_of_In in Hy.
           destruct (Hinv y Hy) as (p & Hp & Hyp).
           exists p. split; [right; assumption | assumption].
      * eapply reach_perm; [exact Hr' |].
        rewrite (cols_of_perm _ _ (insert_sorted_perm a' acc)).
        reflexivity.
Qed.

(** Every sequence of moves from [k] is one from its normal form. *)
Lemma normalize_sound (k : list int) (len : nat) (s : Z) :
  Forall valid16 k ->
  reach (cols_of k) len s ->
  reach (cols_of (normalize k)) len s /\ Forall valid16 (normalize k).
Proof.
  intros Hk Hr. apply norm_aux_sound; try assumption; try constructor.
  intros y [].
Qed.

Lemma normalize_valid (k : list int) :
  Forall valid16 k -> Forall valid16 (normalize k).
Proof.
  intros Hk. apply (normalize_sound k 0 0 Hk). constructor.
Qed.


(** ** Bounds as integers *)

Lemma to_Z_i_max : Uint63.to_Z i_max = 9223372036854775807.
Proof. reflexivity. Qed.

Lemma is_i_max (a : int) : Uint63.to_Z a = 9223372036854775807 -> a = i_max.
Proof. intros H. apply Uint63.to_Z_inj. rewrite H. reflexivity. Qed.

Lemma mod_wB_over (x : Z) :
  Uint63.wB <= x < 2 * Uint63.wB -> x mod Uint63.wB = x - Uint63.wB.
Proof.
  intros Hx. symmetry. apply (Z.mod_unique x Uint63.wB 1); lia.
Qed.

Lemma bnd_sadd (s1 s2 : Z) (a b : int) :
  bnd s1 a -> bnd s2 b -> bnd (s1 + s2) (sadd a b).
Proof.
  intros Ha Hb. unfold sadd. cbv zeta.
  pose proof (Uint63.to_Z_bounded a) as Ba.
  pose proof (Uint63.to_Z_bounded b) as Bb.
  change Uint63.wB with 9223372036854775808 in Ba, Bb.
  destruct (Uint63.ltbP (Uint63.add a b) a) as [Hlt|Hge]; [left; reflexivity |].
  rewrite Uint63.add_spec in Hge.
  destruct (Z.lt_ge_cases (Uint63.to_Z a + Uint63.to_Z b) Uint63.wB) as [Hs|Hs].
  - rewrite Z.mod_small in Hge by lia.
    assert (E : Uint63.to_Z (Uint63.add a b) = Uint63.to_Z a + Uint63.to_Z b).
    { rewrite Uint63.add_spec. apply Z.mod_small. lia. }
    change Uint63.wB with 9223372036854775808 in Hs.
    destruct Ha as [->|Ha].
    + left. apply is_i_max. rewrite E, to_Z_i_max in *. lia.
    + destruct Hb as [->|Hb].
      * left. apply is_i_max. rewrite E, to_Z_i_max in *. lia.
      * right. rewrite E. lia.
  - rewrite mod_wB_over in Hge
      by (change Uint63.wB with 9223372036854775808 in *; lia).
    change Uint63.wB with 9223372036854775808 in Hge. lia.
Qed.

Lemma bnd_imax_l (s : Z) (a b : int) : bnd s a -> bnd s (imax a b).
Proof.
  intros Ha. unfold imax.
  pose proof (Uint63.to_Z_bounded b) as Bb.
  change Uint63.wB with 9223372036854775808 in Bb.
  destruct (Uint63.ltbP a b) as [Hlt|Hge]; [| exact Ha].
  destruct Ha as [->|Ha]; [rewrite to_Z_i_max in Hlt; lia | right; lia].
Qed.

Lemma bnd_imax_r (s : Z) (a b : int) : bnd s b -> bnd s (imax a b).
Proof.
  intros Hb. unfold imax.
  pose proof (Uint63.to_Z_bounded a) as Ba.
  change Uint63.wB with 9223372036854775808 in Ba.
  destruct (Uint63.ltbP a b) as [Hlt|Hge]; [exact Hb |].
  destruct Hb as [->|Hb].
  - left. apply is_i_max. rewrite to_Z_i_max in Hge. lia.
  - right. lia.
Qed.

Lemma bnd_zero (s : Z) : s <= 0 -> bnd s i_0.
Proof. intros H. right. change (Uint63.to_Z i_0) with 0. exact H. Qed.

(** ** The levels of the overlaps of a column *)

Lemma lor_16 (x y : Z) :
  0 <= x < 65536 -> 0 <= y < 65536 -> 0 <= Z.lor x y < 65536.
Proof.
  intros Hx Hy.
  assert (H0 : 0 <= Z.lor x y) by (apply Z.lor_nonneg; lia).
  split; [exact H0 |]. apply lt_65536_of_bits; [exact H0 |].
  intros k Hk. rewrite Z.lor_spec, (testbit_high x k Hx Hk),
    (testbit_high y k Hy Hk). reflexivity.
Qed.

Lemma valid16_lor (a b : int) :
  valid16 a -> valid16 b -> valid16 (Uint63.lor a b).
Proof. rewrite !valid16_range, Uint63.lor_spec'. apply lor_16. Qed.

Lemma valid16_0 : valid16 i_0.
Proof. unfold valid16. change (Uint63.to_Z i_0) with 0. lia. Qed.

Lemma add_level_spec (k : Z) (a b B : int) :
  Uint63.to_Z (add_level k (Uint63.land a b) B)
  = Z.lor (Uint63.to_Z B) (ovl k (Uint63.to_Z a) (Uint63.to_Z b)).
Proof.
  unfold add_level, ovl. rewrite Uint63.land_spec'.
  destruct (k <=? popcount (Z.land (Uint63.to_Z a) (Uint63.to_Z b))).
  - rewrite Uint63.lor_spec', Uint63.land_spec'. reflexivity.
  - rewrite Z.lor_0_r. reflexivity.
Qed.

Lemma add_level_valid (k : Z) (c B : int) :
  valid16 c -> valid16 B -> valid16 (add_level k c B).
Proof.
  intros Hc HB. unfold add_level. destruct (k <=? _); [| exact HB].
  apply valid16_lor; assumption.
Qed.

(** One column more: every level of its overlap is added. *)
Lemma add_levels_cons (a b : int) (l : list int) (B2 B3 B4 B5 B6 : int) :
  valid16 (Uint63.land a b) ->
  add_levels a (b :: l) B2 B3 B4 B5 B6
  = add_levels a l
      (add_level 2 (Uint63.land a b) B2) (add_level 3 (Uint63.land a b) B3)
      (add_level 4 (Uint63.land a b) B4) (add_level 5 (Uint63.land a b) B5)
      (add_level 6 (Uint63.land a b) B6).
Proof.
  intros Hc. cbn [add_levels]. cbv zeta.
  destruct (check16_facts _ Hc) as (_ & H2 & H3 & H4 & H5 & H6).
  unfold is0 in H2, H3, H4, H5, H6. rewrite H2, H3, H4, H5, H6.
  unfold add_level. set (p := popcount (Uint63.to_Z (Uint63.land a b))).
  destruct (Z.ltb_spec p 2); destruct (Z.leb_spec 2 p); try (exfalso; lia);
  destruct (Z.ltb_spec p 3); destruct (Z.leb_spec 3 p); try (exfalso; lia);
  destruct (Z.ltb_spec p 4); destruct (Z.leb_spec 4 p); try (exfalso; lia);
  destruct (Z.ltb_spec p 5); destruct (Z.leb_spec 5 p); try (exfalso; lia);
  destruct (Z.ltb_spec p 6); destruct (Z.leb_spec 6 p); try (exfalso; lia);
  reflexivity.
Qed.

Lemma add_levels_spec (a : int) (l : list int) :
  valid16 a -> Forall valid16 l ->
  forall B2 B3 B4 B5 B6,
    let r := add_levels a l B2 B3 B4 B5 B6 in
    Uint63.to_Z (lv2 r) = Z.lor (Uint63.to_Z B2) (lev 2 (Uint63.to_Z a) (cols_of l))
    /\ Uint63.to_Z (lv3 r) = Z.lor (Uint63.to_Z B3) (lev 3 (Uint63.to_Z a) (cols_of l))
    /\ Uint63.to_Z (lv4 r) = Z.lor (Uint63.to_Z B4) (lev 4 (Uint63.to_Z a) (cols_of l))
    /\ Uint63.to_Z (lv5 r) = Z.lor (Uint63.to_Z B5) (lev 5 (Uint63.to_Z a) (cols_of l))
    /\ Uint63.to_Z (lv6 r) = Z.lor (Uint63.to_Z B6) (lev 6 (Uint63.to_Z a) (cols_of l)).
Proof.
  intros Ha Hl. induction Hl as [|b l Hb Hl IH]; intros B2 B3 B4 B5 B6 r.
  - subst r. cbn [add_levels lv2 lv3 lv4 lv5 lv6 cols_of map lev].
    rewrite !Z.lor_0_r. repeat split.
  - subst r. rewrite add_levels_cons by (apply valid16_land; assumption).
    destruct (IH (add_level 2 (Uint63.land a b) B2)
                (add_level 3 (Uint63.land a b) B3)
                (add_level 4 (Uint63.land a b) B4)
                (add_level 5 (Uint63.land a b) B5)
                (add_level 6 (Uint63.land a b) B6))
      as (E2 & E3 & E4 & E5 & E6).
    rewrite E2, E3, E4, E5, E6, !add_level_spec.
    unfold cols_of. cbn [map lev]. rewrite !Z.lor_assoc. repeat split.
Qed.

Lemma add_levels_valid (a : int) (l : list int) :
  valid16 a -> Forall valid16 l ->
  forall B2 B3 B4 B5 B6,
    valid16 B2 -> valid16 B3 -> valid16 B4 -> valid16 B5 -> valid16 B6 ->
    let r := add_levels a l B2 B3 B4 B5 B6 in
    valid16 (lv2 r) /\ valid16 (lv3 r) /\ valid16 (lv4 r)
    /\ valid16 (lv5 r) /\ valid16 (lv6 r).
Proof.
  intros Ha Hl. induction Hl as [|b l Hb Hl IH];
    intros B2 B3 B4 B5 B6 H2 H3 H4 H5 H6 r.
  - subst r. cbn. repeat split; assumption.
  - subst r. pose proof (valid16_land a b Ha Hb) as Hc.
    rewrite add_levels_cons by exact Hc.
    apply IH; apply add_level_valid; assumption.
Qed.

Lemma lv2_useful (a : int) (l : list int) :
  valid16 a -> Forall valid16 l ->
  forall B2 B3 B4 B5 B6,
    lv2 (add_levels a l B2 B3 B4 B5 B6) = useful a l B2.
Proof.
  intros Ha Hl. induction Hl as [|b l Hb Hl IH]; intros B2 B3 B4 B5 B6.
  - reflexivity.
  - pose proof (valid16_land a b Ha Hb) as Hc.
    rewrite add_levels_cons by exact Hc. rewrite IH. cbn [useful]. cbv zeta.
    f_equal. unfold add_level.
    pose proof (big_spec _ Hc) as Hbig.
    destruct (big (Uint63.land a b));
      destruct (Z.leb_spec 2 (popcount (Uint63.to_Z (Uint63.land a b))));
      try reflexivity.
    + destruct Hbig as [Hbig _]. specialize (Hbig eq_refl). lia.
    + destruct Hbig as [_ Hbig]. specialize (Hbig ltac:(lia)). discriminate.
Qed.

Lemma wpop_spec (B2 B3 B4 B5 B6 : int) :
  valid16 B2 -> valid16 B3 -> valid16 B4 -> valid16 B5 -> valid16 B6 ->
  Uint63.to_Z (wpop B2 B3 B4 B5 B6)
  = wz (popcount (Uint63.to_Z B2)) (popcount (Uint63.to_Z B3))
       (popcount (Uint63.to_Z B4)) (popcount (Uint63.to_Z B5))
       (popcount (Uint63.to_Z B6)).
Proof.
  intros H2 H3 H4 H5 H6. unfold wpop, wz.
  pose proof (popcount_bounds (Uint63.to_Z B2)).
  pose proof (popcount_bounds (Uint63.to_Z B3)).
  pose proof (popcount_bounds (Uint63.to_Z B4)).
  pose proof (popcount_bounds (Uint63.to_Z B5)).
  pose proof (popcount_bounds (Uint63.to_Z B6)).
  rewrite !Uint63.add_spec, !Uint63.mul_spec, !popt_spec by assumption.
  change (Uint63.to_Z i_30) with 30. change (Uint63.to_Z i_10) with 10.
  change (Uint63.to_Z i_5) with 5. change (Uint63.to_Z i_3) with 3.
  change (Uint63.to_Z i_12) with 12.
  change Uint63.wB with 9223372036854775808.
  rewrite !(Z.mod_small (_ * popcount _)) by lia.
  rewrite (Z.mod_small (3 * _ + 12 * _)) by lia.
  rewrite (Z.mod_small (5 * _ + _)) by lia.
  rewrite (Z.mod_small (10 * _ + _)) by lia.
  rewrite (Z.mod_small (30 * _ + _)) by lia.
  lia.
Qed.

(** ** The potential from the sets of the columns *)

Lemma cnt_levs (k : Z) (r : nat) (l : list Z) :
  forall pre, cnt k r pre l = sumZ (map (fun B => bit_at B r) (levs k pre l)).
Proof.
  induction l as [|a l IH]; intros pre; [reflexivity |].
  cbn [cnt levs map sumZ fold_right]. rewrite IH. reflexivity.
Qed.

Lemma bits_total (Bs : list Z) (rows : list nat) :
  sumZ (map (fun r => sumZ (map (fun B => bit_at B r) Bs)) rows)
  = sumZ (map (fun B => sumZ (map (bit_at B) rows)) Bs).
Proof.
  induction Bs as [|B Bs IH].
  - simpl. induction rows as [|r rows IHr]; simpl; [reflexivity | exact IHr].
  - simpl map. change (sumZ (?x :: ?l)) with (x + sumZ l). rewrite <- IH.
    symmetry. apply sumZ_map_add. reflexivity.
Qed.

Lemma bit_at_lorall (Bs : list Z) (r : nat) :
  bit_at (lorall Bs) r = Z.min (sumZ (map (fun B => bit_at B r) Bs)) 1.
Proof.
  induction Bs as [|B Bs IH].
  - cbn. unfold bit_at. rewrite Z.bits_0. reflexivity.
  - cbn [lorall fold_right map sumZ]. fold (lorall Bs).
    rewrite bit_at_lor, IH.
    pose proof (bit_at_bounds B r).
    pose proof (sumZ_map_nonneg (fun B => bit_at B r) Bs
                  (fun B => proj1 (bit_at_bounds B r))).
    fold (sumZ (map (fun B0 : Z => bit_at B0 r) Bs)). lia.
Qed.

Lemma rows_pot_levs (k : Z) (L : list Z) :
  rows_pot k L
  = sumZ (map popcount (levs k [] L)) - popcount (lorall (levs k [] L)).
Proof.
  unfold rows_pot.
  assert (E : sumZ (map (fun r => excess (cnt k r [] L)) (seq 0 16))
              + sumZ (map (bit_at (lorall (levs k [] L))) (seq 0 16))
              = sumZ (map (fun r => cnt k r [] L) (seq 0 16))).
  { apply sumZ_map_add. intros r. rewrite bit_at_lorall, <- cnt_levs.
    unfold excess. lia. }
  assert (E2 : sumZ (map (fun r => cnt k r [] L) (seq 0 16))
               = sumZ (map popcount (levs k [] L))).
  { change (map popcount (levs k [] L))
      with (map (fun B => sumZ (map (bit_at B) (seq 0 16))) (levs k [] L)).
    rewrite <- (bits_total (levs k [] L) (seq 0 16)).
    f_equal. apply map_ext. intros r. apply cnt_levs. }
  unfold popcount at 2. lia.
Qed.

Lemma lev_app (k x : Z) (O1 O2 : list Z) :
  lev k x (O1 ++ O2) = Z.lor (lev k x O1) (lev k x O2).
Proof.
  induction O1 as [|y O1 IH]; cbn [app lev]; [reflexivity |].
  rewrite IH, Z.lor_assoc. reflexivity.
Qed.

(** The columns and the bound computed together. *)
Lemma norm_pot_fst (l : list int) :
  Forall valid16 l ->
  forall pre acc psum A2 A3 A4 A5 A6,
    Forall valid16 pre ->
    (norm_pot pre l acc psum A2 A3 A4 A5 A6).1 = norm_aux pre l acc.
Proof.
  induction 1 as [|a l Ha Hl IH]; intros pre acc psum A2 A3 A4 A5 A6 Hpre.
  - reflexivity.
  - cbn [norm_pot norm_aux]. cbv zeta.
    pose proof (lv2_useful a pre Ha Hpre i_0 i_0 i_0 i_0 i_0) as E1.
    destruct (add_levels a pre i_0 i_0 i_0 i_0 i_0) as [p2 p3 p4 p5 p6].
    cbn [lv2] in E1.
    pose proof (lv2_useful a l Ha Hl p2 p3 p4 p5 p6) as E2.
    destruct (add_levels a l p2 p3 p4 p5 p6) as [B2 B3 B4 B5 B6].
    cbn [lv2] in E2. rewrite IH by (constructor; assumption).
    rewrite E2, E1. reflexivity.
Qed.

Lemma norm_pot_bnd (l : list int) :
  Forall valid16 l ->
  forall pre acc psum A2 A3 A4 A5 A6 S0 s,
    Forall valid16 pre ->
    valid16 A2 -> valid16 A3 -> valid16 A4 -> valid16 A5 -> valid16 A6 ->
    bnd S0 psum -> 0 <= s ->
    60 * s
    + wz (popcount (Z.lor (Uint63.to_Z A2) (lorall (levs 2 (cols_of pre) (cols_of l)))))
         (popcount (Z.lor (Uint63.to_Z A3) (lorall (levs 3 (cols_of pre) (cols_of l)))))
         (popcount (Z.lor (Uint63.to_Z A4) (lorall (levs 4 (cols_of pre) (cols_of l)))))
         (popcount (Z.lor (Uint63.to_Z A5) (lorall (levs 5 (cols_of pre) (cols_of l)))))
         (popcount (Z.lor (Uint63.to_Z A6) (lorall (levs 6 (cols_of pre) (cols_of l)))))
    <= S0
       + wz (sumZ (map popcount (levs 2 (cols_of pre) (cols_of l))))
            (sumZ (map popcount (levs 3 (cols_of pre) (cols_of l))))
            (sumZ (map popcount (levs 4 (cols_of pre) (cols_of l))))
            (sumZ (map popcount (levs 5 (cols_of pre) (cols_of l))))
            (sumZ (map popcount (levs 6 (cols_of pre) (cols_of l)))) ->
    bnd s (norm_pot pre l acc psum A2 A3 A4 A5 A6).2.
Proof.
  induction 1 as [|a l Ha Hl IH];
    intros pre acc psum A2 A3 A4 A5 A6 S0 s Hpre H2 H3 H4 H5 H6 HS Hs Hle.
  - cbn [norm_pot snd]. cbn [cols_of map levs lorall fold_right sumZ] in Hle.
    rewrite !Z.lor_0_r in Hle. unfold wz at 2 in Hle.
    rewrite <- wpop_spec in Hle by assumption.
    destruct (Uint63.eqbP psum i_max) as [E|E]; [left; reflexivity |].
    destruct HS as [->|HS]; [contradiction E; reflexivity |].
    right. rewrite Uint63.div_spec, Uint63.sub_spec.
    change (Uint63.to_Z i_60) with 60.
    pose proof (Uint63.to_Z_bounded psum) as Bp.
    pose proof (Uint63.to_Z_bounded (wpop A2 A3 A4 A5 A6)) as Bw.
    rewrite Z.mod_small by lia.
    apply Z.div_le_lower_bound; lia.
  - cbn [norm_pot]. cbv zeta.
    destruct (add_levels_spec a pre Ha Hpre i_0 i_0 i_0 i_0 i_0)
      as (P2 & P3 & P4 & P5 & P6).
    destruct (add_levels_valid a pre Ha Hpre i_0 i_0 i_0 i_0 i_0
                valid16_0 valid16_0 valid16_0 valid16_0 valid16_0)
      as (V2 & V3 & V4 & V5 & V6).
    destruct (add_levels a pre i_0 i_0 i_0 i_0 i_0) as [p2 p3 p4 p5 p6].
    cbn [lv2 lv3 lv4 lv5 lv6] in *.
    destruct (add_levels_spec a l Ha Hl p2 p3 p4 p5 p6)
      as (E2 & E3 & E4 & E5 & E6).
    destruct (add_levels_valid a l Ha Hl p2 p3 p4 p5 p6 V2 V3 V4 V5 V6)
      as (W2 & W3 & W4 & W5 & W6).
    destruct (add_levels a l p2 p3 p4 p5 p6) as [B2 B3 B4 B5 B6].
    cbn [lv2 lv3 lv4 lv5 lv6] in *.
    change (Uint63.to_Z i_0) with 0 in P2, P3, P4, P5, P6.
    rewrite Z.lor_0_l in P2, P3, P4, P5, P6.
    rewrite P2, <- lev_app in E2. rewrite P3, <- lev_app in E3.
    rewrite P4, <- lev_app in E4. rewrite P5, <- lev_app in E5.
    rewrite P6, <- lev_app in E6.
    apply (IH (a :: pre) _ _ _ _ _ _ _
              (S0 + wz (popcount (Uint63.to_Z B2)) (popcount (Uint63.to_Z B3))
                       (popcount (Uint63.to_Z B4)) (popcount (Uint63.to_Z B5))
                       (popcount (Uint63.to_Z B6))) s).
    + constructor; assumption.
    + apply valid16_lor; assumption.
    + apply valid16_lor; assumption.
    + apply valid16_lor; assumption.
    + apply valid16_lor; assumption.
    + apply valid16_lor; assumption.
    + apply bnd_sadd; [exact HS |]. right.
      rewrite wpop_spec by assumption. lia.
    + exact Hs.
    + clear IH. rewrite !Uint63.lor_spec', E2, E3, E4, E5, E6.
      unfold cols_of in *. rewrite ?map_app in *. cbn [map levs] in *.
      unfold lorall, sumZ in *. cbn [map fold_right] in Hle.
      rewrite !Z.lor_assoc in Hle. unfold wz in *. lia.
Qed.

(** The bound from the columns alone is sound, and the columns it comes
    with are the normal form. *)
Lemma normpot_ok (l : list int) :
  Forall valid16 l ->
  (normpot l).1 = normalize l /\ sound (cols_of l) (normpot l).2.
Proof.
  intros Hl. unfold normpot, normalize. split.
  - apply norm_pot_fst; [exact Hl | constructor].
  - intros len s Hr. pose proof (reach_potential _ _ _ Hr) as Hp.
    destruct (Z.lt_ge_cases s 0) as [Hneg|Hs].
    { right. pose proof (to_Z_nonneg (norm_pot [] l [] i_0 i_0 i_0 i_0 i_0 i_0).2).
      lia. }
    apply (norm_pot_bnd l Hl [] [] i_0 i_0 i_0 i_0 i_0 i_0 0 s
             (List.Forall_nil _) valid16_0 valid16_0 valid16_0 valid16_0 valid16_0
             (bnd_zero 0 (Z.le_refl 0)) Hs).
    change (Uint63.to_Z i_0) with 0. rewrite !Z.lor_0_l.
    unfold potential in Hp. rewrite !rows_pot_levs in Hp.
    change (cols_of []) with (@nil Z). unfold wz. lia.
Qed.

(** ** The table *)

Lemma list_eqb_eq (a : list int) : forall b, list_eqb a b = true -> a = b.
Proof.
  induction a as [|x a IH]; intros [|y b] H; try discriminate; [reflexivity |].
  simpl in H. destruct (Uint63.eqb x y) eqn:E; [| discriminate].
  apply Uint63.eqb_correct in E. f_equal; auto.
Qed.

Lemma assoc_In (k : list int) (l : list (list int * int)) (v : int) :
  assoc k l = Some v -> In (k, v) l.
Proof.
  induction l as [|[k' v'] l IH]; simpl; [discriminate |].
  destruct (list_eqb k k') eqn:E.
  - intros [= ->]. apply list_eqb_eq in E. subst. left. reflexivity.
  - intros H. right. auto.
Qed.

Lemma tbl_ok_empty : tbl_ok empty_table.
Proof.
  intros i k v H. unfold empty_table in H.
  rewrite ArrayAxioms.get_make in H. destruct H.
Qed.

Lemma tbl_ok_set (t : table) (h : int) (k : list int) (v : int) :
  tbl_ok t -> sound (cols_of k) v ->
  tbl_ok (PrimArray.set t h ((k, v) :: PrimArray.get t h)).
Proof.
  intros Ht Hv i k' v' H.
  destruct (Uint63.eqb h i) eqn:E.
  - apply Uint63.eqb_correct in E. subst i.
    destruct (PrimInt63.ltb h (PrimArray.length t)) eqn:Eb.
    + rewrite ArrayAxioms.get_set_same in H by exact Eb.
      destruct H as [[= -> ->]|H]; [exact Hv | exact (Ht _ _ _ H)].
    + rewrite ArrayAxioms.get_out_of_bounds in H
        by (rewrite ArrayAxioms.length_set; exact Eb).
      rewrite ArrayAxioms.default_set in H.
      rewrite <- (ArrayAxioms.get_out_of_bounds _ t h Eb) in H.
      exact (Ht _ _ _ H).
  - rewrite ArrayAxioms.get_set_other in H; [exact (Ht _ _ _ H) |].
    intros ->. rewrite Uint63.eqb_refl in E. discriminate.
Qed.

(** ** The moves enumerated by the search *)

Lemma cols_of_app (k1 k2 : list int) : cols_of (k1 ++ k2) = cols_of k1 ++ cols_of k2.
Proof. apply map_app. Qed.

Lemma rev_append_perm {A : Type} (l1 l2 : list A) : rev_append l1 l2 ≡ₚ l1 ++ l2.
Proof.
  rewrite rev_append_rev. apply Permutation_app_tail.
  symmetry. apply Permutation_rev.
Qed.

Lemma moved_cols (pre : list int) (a : int) (mid : list int) (b : int)
    (rest : list int) :
  cols_of (moved pre a mid b rest)
  ≡ₚ childZ (Uint63.to_Z a) (Uint63.to_Z b) (cols_of (pre ++ mid ++ rest)).
Proof.
  unfold moved, childZ, cols_of. cbn [map].
  rewrite !Uint63.lxor_spec', !Uint63.land_spec'.
  do 3 apply Permutation_skip. apply Permutation_map.
  rewrite rev_append_perm. apply Permutation_app_head. apply rev_append_perm.
Qed.

Lemma moved_valid (pre : list int) (a : int) (mid : list int) (b : int)
    (rest : list int) :
  Forall valid16 pre -> valid16 a -> Forall valid16 mid -> valid16 b ->
  Forall valid16 rest -> Forall valid16 (moved pre a mid b rest).
Proof.
  intros Hpre Ha Hmid Hb Hrest. unfold moved.
  pose proof (valid16_land a b Ha Hb) as Hc.
  repeat (apply Forall_cons; split);
    [assumption | apply valid16_lxor; assumption
    | apply valid16_lxor; assumption |].
  rewrite !rev_append_perm. apply Forall_app. split; [assumption |].
  apply Forall_app. split; assumption.
Qed.

Lemma childZ_perm (A B : Z) (R R' : list Z) :
  R ≡ₚ R' -> childZ A B R ≡ₚ childZ A B R'.
Proof. intros H. unfold childZ. do 3 apply Permutation_skip. exact H. Qed.

Lemma childZ_swap (A B : Z) (R : list Z) : childZ A B R ≡ₚ childZ B A R.
Proof.
  unfold childZ. rewrite (Z.land_comm B A). apply Permutation_skip.
  apply Permutation_swap.
Qed.

(** Two columns of a multiset, at their places in the list. *)
Lemma pick2 (k : list int) (A B : Z) (R : list Z) :
  cols_of k ≡ₚ A :: B :: R ->
  exists l1 a l2 b l3,
    k = l1 ++ a :: l2 ++ b :: l3
    /\ ((Uint63.to_Z a = A /\ Uint63.to_Z b = B)
        \/ (Uint63.to_Z a = B /\ Uint63.to_Z b = A))
    /\ R ≡ₚ cols_of (l1 ++ l2 ++ l3).
Proof.
  unfold cols_of. intros HP.
  assert (HA : In A (map Uint63.to_Z k)).
  { apply list_elem_of_In. rewrite HP. left. }
  apply in_map_iff in HA. destruct HA as (a & <- & Ha).
  apply in_split in Ha. destruct Ha as (k1 & k2 & ->).
  rewrite map_app in HP. cbn [map] in HP.
  rewrite <- Permutation_middle in HP.
  apply (inj (cons (Uint63.to_Z a))) in HP. rewrite <- map_app in HP.
  assert (HB : In B (map Uint63.to_Z (k1 ++ k2))).
  { apply list_elem_of_In. rewrite HP. left. }
  apply in_map_iff in HB. destruct HB as (b & <- & Hb).
  apply in_app_or in Hb. destruct Hb as [Hb|Hb].
  - apply in_split in Hb. destruct Hb as (n1 & n2 & ->).
    exists n1, b, n2, a, k2. split; [rewrite <- app_assoc; reflexivity |].
    split; [right; split; reflexivity |].
    rewrite !map_app in HP. cbn [map] in HP.
    rewrite <- app_assoc in HP. cbn [app] in HP.
    rewrite <- Permutation_middle in HP.
    apply (inj (cons (Uint63.to_Z b))) in HP. rewrite <- HP.
    rewrite !map_app. reflexivity.
  - apply in_split in Hb. destruct Hb as (n1 & n2 & ->).
    exists k1, a, n1, b, n2. split; [reflexivity |].
    split; [left; split; reflexivity |].
    rewrite !map_app in HP. cbn [map] in HP.
    rewrite app_assoc in HP.
    rewrite <- Permutation_middle in HP.
    apply (inj (cons (Uint63.to_Z b))) in HP. rewrite <- HP.
    rewrite !map_app, app_assoc. reflexivity.
Qed.

Lemma of_Z_16 (v : Z) : 0 <= v < 65536 -> Uint63.to_Z (Uint63.of_Z v) = v.
Proof.
  intros Hv. rewrite Uint63.of_Z_spec. apply Z.mod_small.
  change Uint63.wB with 9223372036854775808. lia.
Qed.

Lemma popt_savings (c : int) :
  valid16 c -> 2 <= popcount (Uint63.to_Z c) ->
  Uint63.to_Z (Uint63.sub (popt c) i_1) = popcount (Uint63.to_Z c) - 1.
Proof.
  intros Hc Hp. rewrite Uint63.sub_spec, popt_spec by exact Hc.
  change (Uint63.to_Z i_1) with 1. apply Z.mod_small.
  pose proof (popcount_bounds (Uint63.to_Z c)).
  change Uint63.wB with 9223372036854775808. lia.
Qed.

Section MovesOk.
Variable rec : list int -> int -> table -> int * table.
Variable T : int.
Hypothesis Hrec : rec_ok rec.

(** The first column of [rest]: the move on [a] and it is taken into
    account. *)
Lemma inner_cons_ok (pre : list int) (a : int) (mid : list int) (b : int)
    (rest : list int) (v : int) (t : table) :
  Forall valid16 pre -> valid16 a -> Forall valid16 mid -> valid16 b ->
  Forall valid16 rest -> tbl_ok t ->
  exists v1 t1,
    inner rec T pre a mid (b :: rest) v t
    = inner rec T pre a (b :: mid) rest v1 t1
    /\ tbl_ok t1
    /\ (forall s, bnd s v -> bnd s v1)
    /\ (forall len s,
          2 <= popcount (Z.land (Uint63.to_Z a) (Uint63.to_Z b)) ->
          reach (childZ (Uint63.to_Z a) (Uint63.to_Z b)
                   (cols_of (pre ++ mid ++ rest))) len s ->
          bnd (s + (popcount (Z.land (Uint63.to_Z a) (Uint63.to_Z b)) - 1))
              v1).
Proof.
  intros Hpre Ha Hmid Hb Hrest Ht. cbn [inner]. cbv zeta.
  pose proof (valid16_land a b Ha Hb) as Hc.
  pose proof (big_spec _ Hc) as Hbig. unfold big in Hbig.
  rewrite Uint63.land_spec' in Hbig.
  destruct (Uint63.eqb (drop1 (Uint63.land a b)) i_0).
  { exists v, t. split; [reflexivity |]. split; [exact Ht |].
    split; [auto |]. intros len s Hp _. destruct Hbig as [_ Hbig].
    specialize (Hbig Hp). discriminate. }
  destruct Hbig as [Hbig _]. specialize (Hbig eq_refl).
  pose proof (popt_savings _ Hc) as Esv. rewrite Uint63.land_spec' in Esv.
  specialize (Esv Hbig).
  set (sv := Uint63.sub (popt (Uint63.land a b)) i_1) in *.
  pose proof (moved_valid pre a mid b rest Hpre Ha Hmid Hb Hrest) as Hmv.
  destruct (normpot_ok _ Hmv) as [Ek Hu].
  destruct (normpot (moved pre a mid b rest)) as [k' u]. cbn [fst snd] in Ek, Hu.
  assert (Hw : forall w, sound (cols_of (moved pre a mid b rest)) w ->
               forall len s,
                 reach (childZ (Uint63.to_Z a) (Uint63.to_Z b)
                          (cols_of (pre ++ mid ++ rest))) len s ->
                 bnd (s + (popcount (Z.land (Uint63.to_Z a) (Uint63.to_Z b)) - 1))
                     (imax v (sadd sv w))).
  { intros w Hsw len s Hr. apply bnd_imax_r. rewrite Z.add_comm.
    apply bnd_sadd; [right; lia |]. apply (Hsw len).
    eapply reach_perm; [exact Hr |]. symmetry. apply moved_cols. }
  destruct (Uint63.leb u (Uint63.sub T sv)).
  - exists (imax v (sadd sv u)), t. split; [reflexivity |].
    split; [exact Ht |]. split; [intros s; apply bnd_imax_l |].
    intros len s _. apply Hw. exact Hu.
  - subst k'.
    destruct (Hrec (normalize (moved pre a mid b rest)) (Uint63.sub T sv) t
                Ht (normalize_valid _ Hmv)) as [Hs Ht'].
    destruct (rec (normalize (moved pre a mid b rest)) (Uint63.sub T sv) t)
      as [r t'].
    cbn [fst snd] in Hs, Ht'.
    exists (imax v (sadd sv r)), t'. split; [reflexivity |].
    split; [exact Ht' |]. split; [intros s; apply bnd_imax_l |].
    intros len s _. apply Hw. intros len' s' Hr'. apply (Hs len').
    apply normalize_sound; assumption.
Qed.

Lemma inner_ok (rest : list int) :
  forall (pre : list int) (a : int) (mid : list int) (v : int) (t : table),
    Forall valid16 pre -> valid16 a -> Forall valid16 mid ->
    Forall valid16 rest -> tbl_ok t ->
    tbl_ok (inner rec T pre a mid rest v t).2
    /\ (forall s, bnd s v -> bnd s (inner rec T pre a mid rest v t).1)
    /\ (forall l2 b l3 len s,
          rest = l2 ++ b :: l3 ->
          2 <= popcount (Z.land (Uint63.to_Z a) (Uint63.to_Z b)) ->
          reach (childZ (Uint63.to_Z a) (Uint63.to_Z b)
                   (cols_of (pre ++ mid ++ l2 ++ l3))) len s ->
          bnd (s + (popcount (Z.land (Uint63.to_Z a) (Uint63.to_Z b)) - 1))
              (inner rec T pre a mid rest v t).1).
Proof.
  induction rest as [|b0 rest IH]; intros pre a mid v t Hpre Ha Hmid Hrest Ht.
  - cbn [inner fst snd]. split; [assumption |]. split; [auto |].
    intros [|? ?] b l3 len s E; discriminate.
  - apply Forall_cons in Hrest. destruct Hrest as [Hb0 Hrest].
    destruct (inner_cons_ok pre a mid b0 rest v t Hpre Ha Hmid Hb0 Hrest Ht)
      as (v1 & t1 & -> & Ht1 & Hm1 & Hc1).
    destruct (IH pre a (b0 :: mid) v1 t1 Hpre Ha
                ltac:(apply Forall_cons; split; assumption) Hrest Ht1)
      as (Ht2 & Hm2 & Hc2).
    split; [exact Ht2 |]. split; [auto |].
    intros l2 b l3 len s E Hp Hr. destruct l2 as [|x l2].
    + injection E as <- <-. apply Hm2. apply (Hc1 len); assumption.
    + injection E as <- ->. apply (Hc2 l2 b l3 len); [reflexivity | exact Hp |].
      eapply reach_perm; [exact Hr |]. apply childZ_perm, cols_of_perm.
      cbn [app]. solve_Permutation.
Qed.

Lemma outer_ok (rest : list int) :
  forall (pre : list int) (v : int) (t : table),
    Forall valid16 pre -> Forall valid16 rest -> tbl_ok t ->
    tbl_ok (outer rec T pre rest v t).2
    /\ (forall s, bnd s v -> bnd s (outer rec T pre rest v t).1)
    /\ (forall l1 a l2 b l3 len s,
          rest = l1 ++ a :: l2 ++ b :: l3 ->
          2 <= popcount (Z.land (Uint63.to_Z a) (Uint63.to_Z b)) ->
          reach (childZ (Uint63.to_Z a) (Uint63.to_Z b)
                   (cols_of (pre ++ l1 ++ l2 ++ l3))) len s ->
          bnd (s + (popcount (Z.land (Uint63.to_Z a) (Uint63.to_Z b)) - 1))
              (outer rec T pre rest v t).1).
Proof.
  induction rest as [|a0 rest IH]; intros pre v t Hpre Hrest Ht.
  - cbn [outer fst snd]. split; [assumption |]. split; [auto |].
    intros [|? ?] a l2 b l3 len s E; discriminate.
  - apply Forall_cons in Hrest. destruct Hrest as [Ha0 Hrest].
    cbn [outer].
    destruct (inner_ok rest pre a0 [] v t Hpre Ha0 ltac:(constructor)
                Hrest Ht) as (Ht1 & Hm1 & Hc1).
    destruct (inner rec T pre a0 [] rest v t) as [v1 t1].
    cbn [fst snd] in Ht1, Hm1, Hc1.
    destruct (IH (a0 :: pre) v1 t1
                ltac:(apply Forall_cons; split; assumption) Hrest Ht1)
      as (Ht2 & Hm2 & Hc2).
    split; [exact Ht2 |]. split; [auto |].
    intros l1 a l2 b l3 len s E Hp Hr. destruct l1 as [|x l1].
    + injection E as <- ->. apply Hm2. apply (Hc1 l2 b l3 len); auto.
    + injection E as <- ->.
      apply (Hc2 l1 a l2 b l3 len); [reflexivity | exact Hp |].
      eapply reach_perm; [exact Hr |]. apply childZ_perm, cols_of_perm.
      cbn [app]. solve_Permutation.
Qed.

(** The bound made of the moves of [k] is sound, and is kept in a sound
    table. *)
Lemma explore_ok (k : list int) (h : int) (t : table) :
  tbl_ok t -> Forall valid16 k ->
  sound (cols_of k) (explore rec k T h t).1
  /\ tbl_ok (explore rec k T h t).2.
Proof.
  intros Ht Hk. unfold explore.
  destruct (outer_ok k [] i_0 t ltac:(constructor) Hk Ht) as (Ht1 & Hm1 & Hc1).
  destruct (outer rec T [] k i_0 t) as [v t'].
  cbn [fst snd] in Ht1, Hm1, Hc1.
  assert (Hs : sound (cols_of k) v).
  { intros len s Hr. remember (cols_of k) as L0 eqn:EL0.
    destruct Hr as [L | L A B R len s HL Hp Hr]; subst L.
    - apply Hm1, bnd_zero. lia.
    - destruct (pick2 k A B R HL)
        as (l1 & a & l2 & b & l3 & -> & [[<- <-]|[<- <-]] & HR).
      + apply (Hc1 l1 a l2 b l3 len); [reflexivity | exact Hp |].
        eapply reach_perm; [exact Hr |]. apply childZ_perm. exact HR.
      + rewrite (Z.land_comm (Uint63.to_Z b)).
        rewrite (Z.land_comm (Uint63.to_Z b)) in Hp.
        apply (Hc1 l1 a l2 b l3 len); [reflexivity | exact Hp |].
        eapply reach_perm; [exact Hr |].
        rewrite childZ_swap. apply childZ_perm. exact HR. }
  destruct (Uint63.leb v T); [| split; assumption].
  destruct (PrimArray.get t' h) as [|e b] eqn:Eg; cbn [fst snd];
    (split; [exact Hs |]); rewrite <- Eg; apply tbl_ok_set; assumption.
Qed.
End MovesOk.

(** The search bounds the savings of every sequence of moves. *)
Lemma solve_ok (fuel : nat) : rec_ok (solve fuel).
Proof.
  induction fuel as [|fuel IH]; intros k T t Ht Hk.
  - cbn [solve fst snd]. split; [| exact Ht]. intros len s _. left. reflexivity.
  - cbn [solve]. cbv zeta.
    destruct (assoc k (PrimArray.get t (hash k i_0))) as [v|] eqn:Ea.
    + destruct (Uint63.leb v T).
      * cbn [fst snd]. split; [| exact Ht].
        exact (Ht _ _ _ (assoc_In _ _ _ Ea)).
      * apply explore_ok; assumption.
    + apply explore_ok; assumption.
Qed.

(** The bound computed for 16-bit columns of the model is sound. *)
Lemma bound_ok (L : list Z) (T : Z) (t : table) :
  Forall (fun v => 0 <= v < 65536) L -> tbl_ok t ->
  sound L (bound L T t).1 /\ tbl_ok (bound L T t).2.
Proof.
  intros HL Ht. unfold bound.
  assert (Hv : Forall valid16 (map Uint63.of_Z L)).
  { induction HL as [|v L Hv HL IH]; constructor; [| exact IH].
    unfold valid16. rewrite of_Z_16; lia. }
  assert (Ec : cols_of (map Uint63.of_Z L) = L).
  { unfold cols_of. induction HL as [|v L Hv0 HL IH]; [reflexivity |].
    cbn [map]. rewrite of_Z_16 by exact Hv0. f_equal. apply IH.
    inversion Hv; assumption. }
  destruct (normpot_ok _ Hv) as [Ek Hu]. rewrite Ec in Hu.
  destruct (normpot (map Uint63.of_Z L)) as [k u]. cbn [fst snd] in Ek, Hu.
  cbv zeta. destruct (Uint63.leb u (Uint63.of_Z T)).
  - split; assumption.
  - subst k.
    destruct (solve_ok 200 (normalize (map Uint63.of_Z L)) (Uint63.of_Z T) t Ht
                (normalize_valid _ Hv)) as [Hs Ht'].
    split; [| exact Ht'].
    intros len s Hr. apply (Hs len). apply normalize_sound; [exact Hv |].
    rewrite Ec. exact Hr.
Qed.

(** ** The loops as a pass over the index pairs *)

Lemma for_count_foldM {S : Type} (body : Z -> S -> outcome S) (k : nat) :
  forall (lo : Z) (s : S), for_count k lo body s = foldM body (zrange k lo) s.
Proof.
  induction k as [|k IH]; intros lo s; [reflexivity |].
  cbn [for_count zrange foldM]. destruct (body lo s); try reflexivity.
  apply IH.
Qed.

Lemma foldM_app {S A : Type} (f : A -> S -> outcome S) (l1 l2 : list A) :
  forall s, foldM f (l1 ++ l2) s = foldM f l1 s ≫= foldM f l2.
Proof.
  induction l1 as [|x l1 IH]; intros s; [reflexivity |].
  cbn [app foldM]. destruct (f x s); try reflexivity. apply IH.
Qed.

Lemma foldM_map {S A B : Type} (f : B -> S -> outcome S) (h : A -> B)
    (l : list A) :
  forall s, foldM f (map h l) s = foldM (fun x => f (h x)) l s.
Proof.
  induction l as [|x l IH]; intros s; [reflexivity |].
  cbn [map foldM]. destruct (f (h x) s); try reflexivity. apply IH.
Qed.

Lemma foldM_flat_map {S A B : Type} (f : B -> S -> outcome S)
    (h : A -> list B) (l : list A) :
  forall s, foldM f (flat_map h l) s = foldM (fun x => foldM f (h x)) l s.
Proof.
  induction l as [|x l IH]; intros s; [reflexivity |].
  cbn [flat_map foldM]. rewrite foldM_app.
  destruct (foldM f (h x) s); try reflexivity. apply IH.
Qed.

Lemma foldM_ext {S A : Type} (f f' : A -> S -> outcome S) (l : list A) :
  (forall x s, f x s = f' x s) -> forall s, foldM f l s = foldM f' l s.
Proof.
  intros E. induction l as [|x l IH]; intros s; [reflexivity |].
  cbn [foldM]. rewrite E. destruct (f' x s); try reflexivity. apply IH.
Qed.

Lemma loops_foldM {S : Type} (body : Z -> Z -> S -> outcome S) (n0 : Z)
    (s : S) :
  for_loop 0 (n0 - 1) (fun i => for_loop (i + 1) n0 (body i)) s
  = foldM (fun ij => body ij.1 ij.2) (pairs_lex n0) s.
Proof.
  unfold for_loop, pairs_lex. rewrite for_count_foldM, foldM_flat_map.
  apply foldM_ext. intros i s0. rewrite for_count_foldM, foldM_map.
  reflexivity.
Qed.

Lemma foldM_inv {S A : Type} (Inv : S -> Prop) (f : A -> S -> outcome S)
    (l : list A) :
  (forall x s0, In x l -> Inv s0 -> exists s1, f x s0 = Normal s1 /\ Inv s1) ->
  forall s, Inv s -> exists s', foldM f l s = Normal s' /\ Inv s'.
Proof.
  induction l as [|x l IH]; intros Hf s Hs.
  - exists s. split; [reflexivity | exact Hs].
  - cbn [foldM]. destruct (Hf x s (or_introl eq_refl) Hs) as (s1 & -> & H1).
    rewrite bind_Normal. apply IH; [| exact H1].
    intros y s0 Hy. apply Hf. right. exact Hy.
Qed.

Lemma zrange_In (k : nat) :
  forall lo x, In x (zrange k lo) -> lo <= x < lo + Z.of_nat k.
Proof.
  induction k as [|k IH]; intros lo x Hx; [destruct Hx |].
  destruct Hx as [<-|Hx]; [lia |]. apply IH in Hx. lia.
Qed.

Lemma pairs_lex_In (n0 : Z) (ij : Z * Z) :
  In ij (pairs_lex n0) -> 0 <= ij.1 < ij.2 /\ ij.2 < n0.
Proof.
  unfold pairs_lex. intros H. apply in_flat_map in H.
  destruct H as (i & Hi & Hj). apply in_map_iff in Hj.
  destruct Hj as (j & <- & Hj). apply zrange_In in Hi, Hj. cbn [fst snd]. lia.
Qed.

(** ** One expansion, exactly *)

(** The combine step of an expansion, and what the undo step leaves
    after a recursive call that satisfies [post]. *)
Lemma combine_step (p tc : GateMat) (i j mi mj : Z) :
  inv p -> 0 <= i < j -> j < n p -> post p tc ->
  cols p !! Z.to_nat i = Some mi -> cols p !! Z.to_nat j = Some mj ->
  savings (Z.land mi mj) <> 0 ->
  exists q,
    combine (n p) (g p) i j (Z.land mi mj) (savings (Z.land mi mj)) tc
    = Normal q
    /\ inv q /\ n q = n p + 1 /\ g q = g p - savings (Z.land mi mj)
    /\ combine_cols (cols p) i j = Some (cols q, Z.land mi mj)
    /\ weight (cols q) + 2 <= weight (cols p)
    /\ 1 <= savings (Z.land mi mj)
    /\ old_pair q = Normal (i, j)
    /\ forall tr, post q tr ->
         undo i j mi mj tr
         = Normal (set_mat tr (<[Z.to_nat j := mj]>
                                 (<[Z.to_nat i := mi]> (mat tr))))
         /\ post p (set_mat tr (<[Z.to_nat j := mj]>
                                  (<[Z.to_nat i := mi]> (mat tr))))
         /\ history_from (n p) tr = (i, j) :: history_from (n q) tr.
Proof.
  intros Hinv Hij Hjn Hpost Ei Ej Hs.
  destruct (inv_facts p Hinv) as (Lm & Li & Hn & H16 & Lc & Hcap).
  pose proof Hpost as (Lmt & Lit & Ecols & Eind & Hnt & Hnt2 & l0 & Hrep).
  pose proof (Forall_lookup_1 _ _ _ _ H16 Ei) as Hmi. simpl in Hmi.
  pose proof (Forall_lookup_1 _ _ _ _ H16 Ej) as Hmj. simpl in Hmj.
  assert (Eti : mat tc !! Z.to_nat i = Some mi).
  { rewrite <- Ecols in Ei. rewrite lookup_take_lt in Ei by lia. exact Ei. }
  assert (Etj : mat tc !! Z.to_nat j = Some mj).
  { rewrite <- Ecols in Ej. rewrite lookup_take_lt in Ej by lia. exact Ej. }
  pose proof (land_16 mi mj Hmi Hmj) as Hc.
  pose proof (combine_cols_eq (cols p) i j mi mj Hij ltac:(lia) Ei Ej) as Ecc.
  destruct (combine_cols_props _ _ _ _ _ Ecc H16)
    as (_ & Hw1 & Hw2 & Hlen1 & H161).
  destruct (savings_nonzero _ Hc Hs) as [Hpc Hsv].
  rewrite (combine_normal (n p) (g p) i j _ mi mj tc) by (assumption || lia).
  set (c := Z.land mi mj) in *. set (t := savings c) in *.
  set (l1 := <[Z.to_nat j := Z.lxor mj c]>
               (<[Z.to_nat i := Z.lxor mi c]> (cols p)) ++ [c]) in *.
  match goal with |- context [Normal ?q0 = Normal _] => set (q := q0) end.
  assert (Ecq : cols q = l1).
  { unfold cols, q. cbn [n mat].
    replace (Z.to_nat (n p + 1)) with (S (Z.to_nat (n p))) by lia.
    apply cols_combined; (assumption || lia). }
  assert (Hinvq : inv q).
  { split.
    - unfold well_formed. fold (cols q). rewrite Ecq.
      unfold q at 1 2 3 4. cbn [n mat ind]. rewrite !length_insert, Lmt, Lit.
      apply forallb_col16 in H161. rewrite H161. unfold N.
      destruct (Z.leb_spec 8 (n p + 1)); [| lia].
      destruct (Z.leb_spec (n p + 1) 128); [| lia]. reflexivity.
    - rewrite Ecq. unfold q. cbn [n]. lia. }
  exists q. split; [reflexivity |]. split; [exact Hinvq |].
  split; [reflexivity |]. split; [reflexivity |].
  split; [rewrite Ecq; exact Ecc |]. split; [rewrite Ecq; lia |].
  split; [exact Hsv |]. split.
  { unfold old_pair, q. cbn [n ind]. unfold N.
    destruct (Z.eqb_spec (n p + 1) 8) as [|_]; [lia |].
    rewrite (rd_normal _ (2 * (n p + 1 - 8) - 2) i), bind_Normal.
    - rewrite (rd_normal _ (2 * (n p + 1 - 8) - 1) j), bind_Normal.
      + reflexivity.
      + lia.
      + replace (Z.to_nat (2 * (n p + 1 - 8) - 1))
          with (Z.to_nat (2 * (n p - 8) + 1)) by lia.
        apply list_lookup_insert_eq. rewrite length_insert. lia.
    - lia.
    - replace (Z.to_nat (2 * (n p + 1 - 8) - 2))
        with (Z.to_nat (2 * (n p - 8))) by lia.
      rewrite list_lookup_insert_ne by lia.
      apply list_lookup_insert_eq. lia. }
  intros tr Hpr.
  destruct Hpr as (Lmr & Lir & Ecolsr & Eindr & Hnr & Hnr2 & l' & Hrepr).
  rewrite Ecq in Ecolsr, Hnr2, Hrepr.
  replace (n q) with (n p + 1) in * by reflexivity.
  replace (g q) with (g p - t) in * by reflexivity.
  assert (E2 : take (Z.to_nat (2 * (n p - N)) + 2) (ind tr)
               = take (Z.to_nat (2 * (n p - N))) (ind tc) ++ [i; j]).
  { replace (Z.to_nat (2 * (n p - N)) + 2)%nat
      with (Z.to_nat (2 * (n p + 1 - N))) by (unfold N; lia).
    rewrite Eindr. unfold q. cbn [ind].
    replace (Z.to_nat (2 * (n p + 1 - N)))
      with (Z.to_nat (2 * (n p - N)) + 2)%nat by (unfold N; lia).
    replace (Z.to_nat (2 * (n p - N) + 1))
      with (Z.to_nat (2 * (n p - N)) + 1)%nat by (unfold N; lia).
    apply take_two_inserts. unfold N. lia. }
  assert (EH : history_from (n p) tr = (i, j) :: history_from (n p + 1) tr).
  { unfold history_from.
    rewrite (drop_two (ind tr) (ind tc) (Z.to_nat (2 * (n p - N))) i j)
      by (assumption || (unfold N; lia)).
    replace (Z.to_nat (n tr - n p)) with (S (Z.to_nat (n tr - (n p + 1))))
      by lia.
    cbn [pairs_of].
    replace (Z.to_nat (2 * (n p - N)) + 2)%nat
      with (Z.to_nat (2 * (n p + 1 - N))) by (unfold N; lia).
    reflexivity. }
  split; [apply undo_normal; (assumption || lia) |].
  split; [| exact EH].
  unfold post, set_mat. cbn [mat ind n g]. rewrite !length_insert.
  split; [assumption |]. split; [assumption |]. split.
  { rewrite !take_insert_lt by lia.
    replace (take (Z.to_nat (n p)) (mat tr))
      with (take (Z.to_nat (n p)) (take (Z.to_nat (n p + 1)) (mat tr)))
      by (rewrite take_take; f_equal; lia).
    rewrite Ecolsr. unfold l1.
    rewrite take_app_length' by (rewrite !length_insert; lia).
    apply restore_cols; assumption. }
  split.
  { replace (take (Z.to_nat (2 * (n p - N))) (ind tr))
      with (take (Z.to_nat (2 * (n p - N)))
              (take (Z.to_nat (2 * (n p + 1 - N))) (ind tr)))
      by (rewrite take_take; f_equal; unfold N; lia).
    rewrite Eindr. rewrite take_take.
    replace (Z.to_nat (2 * (n p - N)) `min` Z.to_nat (2 * (n p + 1 - N)))%nat
      with (Z.to_nat (2 * (n p - N))) by (unfold N; lia).
    unfold q. cbn [ind]. rewrite !take_insert_ge by (unfold N; lia).
    exact Eind. }
  split; [lia |]. split; [lia |].
  exists l'.
  change (history_from (n p)
            {| mat := <[Z.to_nat j:=mj]> (<[Z.to_nat i:=mi]> (mat tr));
               ind := ind tr; n := n tr; g := g tr |})
    with (history_from (n p) tr).
  rewrite EH. cbn [replay]. rewrite Ecc.
  destruct (Z.eqb_spec (savings c) 0) as [E0|_]; [contradiction |].
  rewrite Hrepr. f_equal. f_equal. fold t. lia.
Qed.

(** The best branch is replaced exactly when the count is smaller. *)
Lemma keep_best_exact (p tu : GateMat) (b : Best) :
  inv p -> post p tu -> best_ok p b ->
  (g tu < gb b ->
   exists b', keep_best (n p) tu b = Normal b' /\ best_ok p b'
              /\ gb b' = g tu /\ nb b' = n tu
              /\ pairs_of (Z.to_nat (nb b' - n p)) (indb b')
                 = history_from (n p) tu)
  /\ (gb b <= g tu -> keep_best (n p) tu b = Normal b).
Proof.
  intros Hinv Hpost Hbest.
  destruct (keep_best_step p tu b Hinv Hpost Hbest) as (b0 & Eb0 & Hb0).
  destruct (inv_facts p Hinv) as (Lm & Li & Hn & H16 & Lc & Hcap).
  destruct Hpost as (Lmt & Lit & Ecols & Eind & Hnt & Hnt2 & l0 & Hrep).
  pose proof Hbest as (Lb & Hgb & Hb).
  pose proof (weight_nonneg (cols p)) as Hw.
  revert Eb0. unfold keep_best. split.
  - intros Hlt. destruct (Z.ltb_spec (g tu) (gb b)) as [_|Hge]; [| lia].
    revert Eb0. rewrite memcpy_normal by (unfold N; lia). rewrite bind_Normal.
    intros Eb0. eexists. split; [reflexivity |].
    split; [injection Eb0 as <-; exact Hb0 |]. cbn [indb nb gb].
    split; [reflexivity |]. split; [reflexivity |].
    unfold history_from.
    apply pairs_of_ext. change (Z.to_nat 0) with 0%nat. rewrite take_0.
    cbn [app]. rewrite take_app_le
      by (rewrite length_take, length_drop; unfold N; lia).
    rewrite take_take. f_equal. unfold N. lia.
  - intros Hge. destruct (Z.ltb_spec (g tu) (gb b)) as [Hlt|_]; [lia |].
    reflexivity.
Qed.

(** The state returned when a branch was kept. *)
Lemma finish_improved (p tc : GateMat) (b : Best) :
  inv p -> post p tc -> best_ok p b -> gb b < 1024 ->
  exists p', finish (n p) (tc, b) = Normal p' /\ post p p'
             /\ g p' = gb b /\ n p' = nb b
             /\ history_from (n p) p'
                = pairs_of (Z.to_nat (nb b - n p)) (indb b).
Proof.
  intros Hinv Hpost Hbest Hlt.
  destruct (finish_step p tc b Hinv Hpost Hbest) as (p0 & Ep0 & Hp0).
  destruct (inv_facts p Hinv) as (Lm & Li & Hn & H16 & Lc & Hcap).
  pose proof Hpost as (Lmt & Lit & Ecols & Eind & Hnt & Hnt2 & l0 & Hrep).
  destruct Hbest as (Lb & Hgb & Hb).
  destruct (Hb Hlt) as (Hnb & Hnb2 & l' & Hrepb).
  pose proof (weight_nonneg (cols p)) as Hw.
  revert Ep0. unfold finish. cbn [fst snd].
  destruct (Z.ltb_spec (gb b) 1024) as [_|Hge]; [| lia].
  rewrite memcpy_normal by (unfold N; lia). rewrite bind_Normal.
  intros Ep0. eexists. split; [reflexivity |].
  split; [injection Ep0 as <-; exact Hp0 |]. cbn [n g].
  split; [reflexivity |]. split; [reflexivity |].
  unfold history_from. cbn [n ind].
  apply pairs_of_ext.
  rewrite drop_app_length' by (rewrite length_take; unfold N; lia).
  rewrite take_app_le by (rewrite length_take; change (Z.to_nat 0) with 0%nat;
                          rewrite drop_0; lia).
  change (Z.to_nat 0) with 0%nat. rewrite drop_0, take_take. f_equal. lia.
Qed.

(** ** The body of the loops, exactly *)

Lemma visit_skip (rec : GateMat -> outcome GateMat) (p tc : GateMat)
    (b : Best) (io jo i j mi mj : Z) :
  inv p -> 0 <= i < j -> j < n p -> post p tc ->
  cols p !! Z.to_nat i = Some mi -> cols p !! Z.to_nat j = Some mj ->
  savings (Z.land mi mj) = 0 \/ prior_indep io jo (n p - 1) i j = true ->
  visit rec (n p) (g p) io jo i j (tc, b) = Normal (tc, b).
Proof.
  intros Hinv Hij Hjn Hpost Ei Ej Hskip.
  destruct (inv_facts p Hinv) as (Lm & Li & Hn & H16 & Lc & Hcap).
  pose proof Hpost as (Lmt & Lit & Ecols & Eind & Hnt & Hnt2 & l0 & Hrep).
  pose proof (Forall_lookup_1 _ _ _ _ H16 Ei) as Hmi. simpl in Hmi.
  pose proof (Forall_lookup_1 _ _ _ _ H16 Ej) as Hmj. simpl in Hmj.
  assert (Eti : mat tc !! Z.to_nat i = Some mi).
  { rewrite <- Ecols in Ei. rewrite lookup_take_lt in Ei by lia. exact Ei. }
  assert (Etj : mat tc !! Z.to_nat j = Some mj).
  { rewrite <- Ecols in Ej. rewrite lookup_take_lt in Ej by lia. exact Ej. }
  pose proof (land_16 mi mj Hmi Hmj) as Hc.
  unfold visit. cbn [fst snd].
  rewrite (rd_normal (mat tc) i mi), bind_Normal by (assumption || lia).
  rewrite (rd_normal (mat tc) j mj), bind_Normal by (assumption || lia).
  rewrite share_spec, bind_Normal by assumption.
  destruct (Z.eqb_spec (savings (Z.land mi mj)) 0) as [|Hs]; [reflexivity |].
  destruct Hskip as [E0| ->]; [contradiction | reflexivity].
Qed.

Lemma visit_expand (rec : GateMat -> outcome GateMat) (p tc : GateMat)
    (b : Best) (io jo i j mi mj : Z) :
  inv p -> 0 <= i < j -> j < n p -> post p tc ->
  cols p !! Z.to_nat i = Some mi -> cols p !! Z.to_nat j = Some mj ->
  savings (Z.land mi mj) <> 0 -> prior_indep io jo (n p - 1) i j = false ->
  visit rec (n p) (g p) io jo i j (tc, b)
  = (q ← combine (n p) (g p) i j (Z.land mi mj) (savings (Z.land mi mj)) tc;
     tr ← rec q;
     tu ← undo i j mi mj tr;
     b' ← keep_best (n p) tu b;
     Normal (tu, b')).
Proof.
  intros Hinv Hij Hjn Hpost Ei Ej Hs Hpi.
  destruct (inv_facts p Hinv) as (Lm & Li & Hn & H16 & Lc & Hcap).
  pose proof Hpost as (Lmt & Lit & Ecols & Eind & Hnt & Hnt2 & l0 & Hrep).
  pose proof (Forall_lookup_1 _ _ _ _ H16 Ei) as Hmi. simpl in Hmi.
  pose proof (Forall_lookup_1 _ _ _ _ H16 Ej) as Hmj. simpl in Hmj.
  assert (Eti : mat tc !! Z.to_nat i = Some mi).
  { rewrite <- Ecols in Ei. rewrite lookup_take_lt in Ei by lia. exact Ei. }
  assert (Etj : mat tc !! Z.to_nat j = Some mj).
  { rewrite <- Ecols in Ej. rewrite lookup_take_lt in Ej by lia. exact Ej. }
  pose proof (land_16 mi mj Hmi Hmj) as Hc.
  unfold visit. cbn [fst snd].
  rewrite (rd_normal (mat tc) i mi), bind_Normal by (assumption || lia).
  rewrite (rd_normal (mat tc) j mj), bind_Normal by (assumption || lia).
  rewrite share_spec, bind_Normal by assumption.
  destruct (Z.eqb_spec (savings (Z.land mi mj)) 0) as [|_]; [contradiction |].
  rewrite Hpi. unfold expand. cbn [fst snd].
  rewrite (rd_normal (mat tc) i mi), bind_Normal by (assumption || lia).
  rewrite (rd_normal (mat tc) j mj), bind_Normal by (assumption || lia).
  reflexivity.
Qed.

(** A pair all of whose branches end with at least [G] gates leaves a
    best count of at least [G], and leaves a best branch of at most [G]
    gates as it is. *)
Lemma visit_bounded (fuel : nat) (p tc : GateMat) (b : Best)
    (io jo i j G : Z) :
  inv p -> weight (cols p) < Z.of_nat (S fuel) ->
  0 <= i < j -> j < n p -> post p tc -> best_ok p b ->
  (forall L' c, combine_cols (cols p) i j = Some (L', c) -> savings c <> 0 ->
     forall hh l s, replay L' hh = Some (l, s) ->
                    G <= g p - (savings c + s)) ->
  exists s', visit (bestgates fuel) (n p) (g p) io jo i j (tc, b) = Normal s'
             /\ post p s'.1 /\ best_ok p s'.2
             /\ (gb b <= G -> s'.2 = b)
             /\ (G <= gb b -> G <= gb s'.2).
Proof.
  intros Hinv Hfuel Hij Hjn Hpost Hbest Hbd.
  destruct (inv_facts p Hinv) as (Lm & Li & Hn & H16 & Lc & Hcap).
  destruct (lookup_lt_is_Some_2 (cols p) (Z.to_nat i)) as [mi Ei]; [lia |].
  destruct (lookup_lt_is_Some_2 (cols p) (Z.to_nat j)) as [mj Ej]; [lia |].
  destruct (Z.eq_dec (savings (Z.land mi mj)) 0) as [E0|Hs].
  { rewrite (visit_skip _ p tc b io jo i j mi mj) by (assumption || auto).
    exists (tc, b). cbn [fst snd]. auto. }
  destruct (prior_indep io jo (n p - 1) i j) eqn:Epi.
  { rewrite (visit_skip _ p tc b io jo i j mi mj) by (assumption || auto).
    exists (tc, b). cbn [fst snd]. auto. }
  rewrite (visit_expand _ p tc b io jo i j mi mj) by assumption.
  destruct (combine_step p tc i j mi mj Hinv Hij Hjn Hpost Ei Ej Hs)
    as (q & -> & Hinvq & Enq & Egq & Ecc & Hwq & Hsv & Eold & Hundo).
  rewrite bind_Normal.
  destruct (bestgates_post fuel q Hinvq ltac:(lia)) as (tr & -> & Hpr).
  rewrite bind_Normal.
  destruct (Hundo tr Hpr) as (-> & Hpu & EH). rewrite bind_Normal.
  set (tu := set_mat tr _) in *.
  pose proof Hpr as (_ & _ & _ & _ & _ & _ & l' & Hrepr).
  pose proof (Hbd _ _ Ecc Hs _ _ _ Hrepr) as HG.
  assert (Egu : g tu = g tr) by reflexivity.
  destruct (keep_best_exact p tu b Hinv Hpu Hbest) as [Hlt Hge].
  destruct (Z.lt_ge_cases (g tu) (gb b)) as [H1|H1].
  - destruct (Hlt H1) as (b' & -> & Hb' & Egb & _).
    rewrite bind_Normal. eexists. split; [reflexivity |]. cbn [fst snd].
    split; [exact Hpu |]. split; [exact Hb' |]. split; lia.
  - rewrite (Hge H1), bind_Normal. eexists. split; [reflexivity |].
    cbn [fst snd]. auto.
Qed.

(** ** The search keeps the first branch of the most savings *)

Lemma bestgates_path (h : list (Z * Z)) :
  forall (fuel : nat) (p : GateMat) (io jo B : Z),
    inv p -> g p <= 1024 -> weight (cols p) < Z.of_nat fuel ->
    old_pair p = Normal (io, jo) ->
    (forall hh l s, replay (cols p) hh = Some (l, s) -> s <= B) ->
    path_ok (cols p) io jo h B ->
    exists p', bestgates fuel p = Normal p' /\ post p p'
               /\ g p' = g p - B
               /\ n p' = n p + Z.of_nat (length h)
               /\ history_from (n p) p' = h.
Proof.
  induction h as [|[i j] h IH]; intros fuel p io jo B Hinv Hg Hfuel Eold Hroot Hp.
  - cbn [path_ok] in Hp. subst B.
    destruct (inv_facts p Hinv) as (Lm & Li & Hn & H16 & Lc & Hcap).
    destruct fuel as [|fuel]; [pose proof (weight_nonneg (cols p)); lia |].
    cbn [bestgates]. rewrite Eold, bind_Normal. cbv beta iota.
    rewrite (loops_foldM
               (fun i j => visit (bestgates fuel) (n p) (g p) io jo i j)).
    destruct (foldM_inv (fun s => s = (p, best_init))
                (fun ij => visit (bestgates fuel) (n p) (g p) io jo ij.1 ij.2)
                (pairs_lex (n p))) with (s := (p, best_init))
      as (s' & -> & ->); [| reflexivity |].
    + intros [i j] s0 Hin ->. apply pairs_lex_In in Hin. cbn [fst snd] in *.
      destruct (lookup_lt_is_Some_2 (cols p) (Z.to_nat i)) as [mi Ei]; [lia |].
      destruct (lookup_lt_is_Some_2 (cols p) (Z.to_nat j)) as [mj Ej]; [lia |].
      exists (p, best_init). split; [| reflexivity].
      apply (visit_skip _ p p best_init io jo i j mi mj);
        try assumption; try lia; [apply post_refl; assumption |].
      left. destruct (Z.eq_dec (savings (Z.land mi mj)) 0) as [|Hs];
        [assumption | exfalso].
      pose proof (Forall_lookup_1 _ _ _ _ H16 Ei) as Hmi. simpl in Hmi.
      pose proof (Forall_lookup_1 _ _ _ _ H16 Ej) as Hmj. simpl in Hmj.
      destruct (savings_nonzero _ (land_16 mi mj Hmi Hmj) Hs) as [_ Hsv].
      pose proof (combine_cols_eq (cols p) i j mi mj ltac:(lia) ltac:(lia)
                    Ei Ej) as Ecc.
      specialize (Hroot [(i, j)]). cbn [replay] in Hroot. rewrite Ecc in Hroot.
      destruct (Z.eqb_spec (savings (Z.land mi mj)) 0) as [|_];
        [contradiction |].
      specialize (Hroot _ _ eq_refl). lia.
    + rewrite bind_Normal. unfold finish. cbn [fst snd best_init gb].
      exists p. split; [reflexivity |]. split; [apply post_refl; assumption |].
      split; [lia |]. split; [cbn [length]; lia |].
      unfold history_from. rewrite Z.sub_diag. reflexivity.
  - cbn [path_ok] in Hp.
    destruct Hp as (L' & c & l1 & l2 & Ecc & Hs & Epi & Epl & Hl1 & Hp').
    destruct (inv_facts p Hinv) as (Lm & Li & Hn & H16 & Lc & Hcap).
    rewrite Lc, Z2Nat.id in Epi, Epl by lia.
    assert (HB : 1 <= B).
    { destruct (combine_cols_props _ _ _ _ _ Ecc H16) as (Hc & _).
      destruct (savings_nonzero _ Hc Hs) as [_ Hsv].
      pose proof (Hroot [(i, j)]) as Hr. cbn [replay] in Hr. rewrite Ecc in Hr.
      destruct (Z.eqb_spec (savings c) 0) as [|_]; [contradiction |].
      specialize (Hr _ _ eq_refl). lia. }
    destruct fuel as [|fuel]; [pose proof (weight_nonneg (cols p)); lia |].
    cbn [bestgates]. rewrite Eold, bind_Normal. cbv beta iota.
    rewrite (loops_foldM
               (fun i j => visit (bestgates fuel) (n p) (g p) io jo i j)).
    assert (Hin : forall x, In x (l1 ++ (i, j) :: l2) ->
                            0 <= x.1 < x.2 /\ x.2 < n p).
    { intros x Hx. rewrite <- Epl in Hx. apply pairs_lex_In. exact Hx. }
    rewrite Epl, foldM_app.
    (* the pairs before the one kept *)
    destruct (foldM_inv
                (fun s => post p s.1 /\ best_ok p s.2 /\ g p - B + 1 <= gb s.2)
                (fun ij => visit (bestgates fuel) (n p) (g p) io jo ij.1 ij.2)
                l1) with (s := (p, best_init))
      as ([tc1 b1] & -> & Hpost1 & Hbest1 & Hgb1).
    { intros [i' j'] [tc b] Hx (Hpost & Hbest & Hgb). cbn [fst snd] in *.
      destruct (Hin (i', j')) as [Hij' Hjn'];
        [apply in_or_app; left; exact Hx |]. cbn [fst snd] in *.
      rewrite Forall_forall in Hl1.
      assert (Hw : worse (cols p) B (i', j')).
      { apply Hl1. apply list_elem_of_In. exact Hx. }
      destruct (visit_bounded fuel p tc b io jo i' j' (g p - B + 1)
                  Hinv Hfuel Hij' Hjn' Hpost Hbest)
        as (s' & Es & Hps & Hbs & _ & Hge).
      { intros L1 c1 Ecc1 Hs1 hh l s Hr.
        pose proof (Hw L1 c1 Ecc1 Hs1 hh l s Hr). lia. }
      exists s'. auto. }
    { cbn [fst snd best_init gb].
      split; [apply post_refl; assumption |].
      split; [apply best_init_ok | lia]. }
    cbn [fst snd] in *. rewrite bind_Normal. cbn [foldM fst snd].
    (* the pair kept *)
    destruct (Hin (i, j)) as [Hij Hjn];
      [apply in_or_app; right; left; reflexivity |]. cbn [fst snd] in *.
    destruct (combine_cols_inv _ _ _ _ _ Ecc)
      as (mi & mj & _ & _ & Ei & Ej & Ec & EL').
    rewrite (visit_expand _ p tc1 b1 io jo i j mi mj) by (subst c; assumption).
    destruct (combine_step p tc1 i j mi mj Hinv Hij Hjn Hpost1 Ei Ej
                ltac:(subst c; assumption))
      as (q & -> & Hinvq & Enq & Egq & Ecc' & Hwq & Hsv & Eoldq & Hundo).
    rewrite <- Ec in *. rewrite Ecc in Ecc'. injection Ecc' as EL.
    rewrite bind_Normal.
    destruct (IH fuel q i j (B - savings c) Hinvq ltac:(lia) ltac:(lia) Eoldq)
      as (tr & -> & Hpr & Egr & Enr & Ehr).
    { intros hh l s Hr. specialize (Hroot ((i, j) :: hh)).
      cbn [replay] in Hroot. rewrite Ecc in Hroot.
      destruct (Z.eqb_spec (savings c) 0) as [|_]; [contradiction |].
      rewrite EL, Hr in Hroot. specialize (Hroot _ _ eq_refl). lia. }
    { rewrite <- EL. exact Hp'. }
    rewrite bind_Normal.
    destruct (Hundo tr Hpr) as (-> & Hpu & EH). rewrite bind_Normal.
    set (tu := set_mat tr _) in *.
    assert (Egu : g tu = g tr) by reflexivity.
    assert (Enu : n tu = n tr) by reflexivity.
    destruct (keep_best_exact p tu b1 Hinv Hpu Hbest1) as [Hlt _].
    destruct (Hlt ltac:(lia)) as (b2 & -> & Hbest2 & Egb2 & Enb2 & Eh2).
    rewrite bind_Normal.
    change (history_from (n p) tu) with (history_from (n p) tr) in Eh2.
    rewrite EH, Ehr in Eh2. rewrite !bind_Normal. cbv beta.
    (* the pairs after it *)
    destruct (foldM_inv
                (fun s => post p s.1 /\ s.2 = b2)
                (fun ij => visit (bestgates fuel) (n p) (g p) io jo ij.1 ij.2)
                l2) with (s := (tu, b2))
      as ([tc3 b3] & -> & Hpost3 & Hb3).
    { intros [i' j'] [tc b] Hx (Hpost & Hb). cbn [fst snd] in *. subst b.
      destruct (Hin (i', j')) as [Hij' Hjn'];
        [apply in_or_app; right; right; exact Hx |]. cbn [fst snd] in *.
      destruct (visit_bounded fuel p tc b2 io jo i' j' (g p - B)
                  Hinv Hfuel Hij' Hjn' Hpost Hbest2)
        as (s' & Es & Hps & Hbs & Heq & _).
      { intros L1 c1 Ecc1 Hs1 hh l s Hr. specialize (Hroot ((i', j') :: hh)).
        cbn [replay] in Hroot. rewrite Ecc1 in Hroot.
        destruct (Z.eqb_spec (savings c1) 0) as [|_]; [contradiction |].
        rewrite Hr in Hroot. specialize (Hroot _ _ eq_refl). lia. }
      exists s'. split; [exact Es |]. split; [exact Hps |].
      apply Heq. lia. }
    { cbn [fst snd]. auto. }
    cbn [fst snd] in *. subst b3. rewrite bind_Normal.
    destruct (finish_improved p tc3 b2 Hinv Hpost3 Hbest2 ltac:(lia))
      as (p' & -> & Hpp & Egp & Enp & Ehp).
    exists p'. split; [reflexivity |]. split; [exact Hpp |].
    split; [lia |]. split; [cbn [length]; lia |].
    rewrite Ehp. exact Eh2.
Qed.

(** ** The check is sound *)

Lemma below_sound (L : list Z) (v : int) (B : Z) :
  Forall (fun v => 0 <= v < 65536) L -> sound L v -> below v B = true ->
  forall hh l s, replay L hh = Some (l, s) -> s < B.
Proof.
  intros H16 Hs Hb hh l s Hr. unfold below in Hb.
  apply andb_prop in Hb. destruct Hb as [Hm Hlt]. apply Z.ltb_lt in Hlt.
  destruct (Hs _ _ (replay_reach hh L l s H16 Hr)) as [->|Hle]; [| lia].
  rewrite Uint63.eqb_refl in Hm. discriminate.
Qed.

Lemma check_before_sound (L : list Z) (i j B : Z) (pl : list (Z * Z)) :
  Forall (fun v => 0 <= v < 65536) L ->
  forall t t', tbl_ok t -> check_before L i j B pl t = (true, t') ->
    tbl_ok t'
    /\ exists l1 l2, pl = l1 ++ (i, j) :: l2 /\ Forall (worse L B) l1.
Proof.
  intros H16. induction pl as [|[i' j'] pl IH]; intros t t' Ht E.
  - discriminate.
  - cbn [check_before] in E.
    destruct ((i' =? i) && (j' =? j)) eqn:Eij.
    + apply andb_prop in Eij. destruct Eij as [Ei Ej].
      apply Z.eqb_eq in Ei, Ej. subst i' j'. injection E as <-.
      split; [exact Ht |]. exists [], pl. split; [reflexivity | constructor].
    + destruct (combine_cols L i' j') as [[L' c]|] eqn:Ecc; [| discriminate].
      destruct (combine_cols_props _ _ _ _ _ Ecc H16) as (_ & _ & _ & _ & H16').
      destruct (Z.eqb_spec (savings c) 0) as [E0|Hs].
      * destruct (IH t t' Ht E) as (Ht' & l1 & l2 & -> & Hl1).
        split; [exact Ht' |]. exists ((i', j') :: l1), l2.
        split; [reflexivity |]. constructor; [| exact Hl1].
        intros L1 c1 Ecc1 Hs1. cbn [fst snd] in Ecc1. rewrite Ecc in Ecc1.
        injection Ecc1 as <- <-. contradiction.
      * destruct (bound_ok L' (B - savings c - 1) t H16' Ht) as [Hsd Ht1].
        destruct (bound L' (B - savings c - 1) t) as [v t1].
        cbn [fst snd] in Hsd, Ht1.
        destruct (below v (B - savings c)) eqn:Eb; [| discriminate].
        destruct (IH _ t' Ht1 E) as (Ht' & l1 & l2 & -> & Hl1).
        split; [exact Ht' |]. exists ((i', j') :: l1), l2.
        split; [reflexivity |]. constructor; [| exact Hl1].
        intros L1 c1 Ecc1 Hs1 hh l s Hr. cbn [fst snd] in Ecc1.
        rewrite Ecc in Ecc1. injection Ecc1 as <- <-.
        pose proof (below_sound L' v _ H16' Hsd Eb hh l s Hr). lia.
Qed.

Lemma check_path_sound (h : list (Z * Z)) :
  forall (L : list Z) (io jo B : Z) (t : table),
    Forall (fun v => 0 <= v < 65536) L -> tbl_ok t ->
    (check_path L io jo h B t).1 = true -> path_ok L io jo h B.
Proof.
  induction h as [|[i j] h IH]; intros L io jo B t H16 Ht E.
  - cbn [check_path fst] in E. apply Z.eqb_eq in E. exact E.
  - cbn [check_path] in E.
    destruct (combine_cols L i j) as [[L' c]|] eqn:Ecc; [| discriminate].
    destruct (combine_cols_props _ _ _ _ _ Ecc H16) as (_ & _ & _ & _ & H16').
    destruct ((savings c =? 0)
              || prior_indep io jo (Z.of_nat (length L) - 1) i j) eqn:Eo;
      [discriminate |].
    apply orb_false_elim in Eo. destruct Eo as [Es Epi].
    apply Z.eqb_neq in Es.
    destruct (check_before L i j B (pairs_lex (Z.of_nat (length L))) t)
      as [ok t1] eqn:Eb.
    destruct ok; [| discriminate].
    destruct (check_before_sound L i j B _ H16 t t1 Ht Eb)
      as (Ht1 & l1 & l2 & Epl & Hl1).
    cbn [path_ok]. exists L', c, l1, l2.
    repeat (split; [assumption |]).
    apply (IH L' i j (B - savings c) t1 H16' Ht1 E).
Qed.

Lemma check_search_sound (L : list Z) (h : list (Z * Z)) (B : Z) :
  check_search L h B = true ->
  Forall (fun v => 0 <= v < 65536) L
  /\ (forall hh l s, replay L hh = Some (l, s) -> s <= B)
  /\ path_ok L 0 0 h B.
Proof.
  unfold check_search. intros E. apply andb_prop in E. destruct E as [E16 E].
  apply forallb_col16 in E16. split; [exact E16 |].
  destruct (bound_ok L B empty_table E16 tbl_ok_empty) as [Hsd Ht].
  destruct (bound L B empty_table) as [v t]. cbn [fst snd] in Hsd, Ht.
  apply andb_prop in E. destruct E as [EB E].
  split.
  - intros hh l s Hr. pose proof (below_sound L v _ E16 Hsd EB hh l s Hr). lia.
  - exact (check_path_sound h L 0 0 B _ E16 Ht E).
Qed.

(** ** The driver on a record whose histories pass the check *)

Lemma savings_le_popcount (v : Z) : savings v <= popcount v.
Proof.
  unfold savings. pose proof (popcount_bounds v).
  destruct (v =? 0); lia.
Qed.

(** [bestmat] after a search entered in a copy [t1] of the initial
    state [p]. *)
Lemma bestmat_run (p t1 t2 : GateMat) :
  initial p = true -> initial t1 = true -> cols t1 = cols p -> post t1 t2 ->
  exists t3,
    bestmat p t2
    = Normal ({| mat := mat p; ind := ind p; n := n p; g := g t2 |}, t3)
    /\ ind t3 = ind t2 /\ n t3 = n t2 /\ g t3 = g t2
    /\ length (mat t3) = 128%nat
    /\ replay (cols p) (history_from 8 t2) = Some (cols t3, g t1 - g t2).
Proof.
  intros Hi Hi1 Ec1 Hp.
  destruct (initial_inv t1 Hi1) as (Hinv1 & Hn1 & Hw1).
  destruct (initial_inv p Hi) as (Hinv & Hn & _).
  destruct (inv_facts p Hinv) as (Lmp & Lip & _ & H16 & Lc & _).
  destruct Hp as (Lm2 & Li2 & Ecols & _ & Hn2 & Hn2' & l' & Hrep).
  rewrite Ec1, Hn1 in *. change (Z.to_nat 8) with 8%nat in Ecols.
  assert (El : set_mat t2 (take 8 (mat p) ++ drop 8 (mat t2)) = t2).
  { unfold cols in Ecols. rewrite Hn in Ecols.
    change (Z.to_nat 8) with 8%nat in Ecols.
    rewrite <- Ecols, take_drop. destruct t2; reflexivity. }
  pose proof Hrep as Hrep'.
  unfold history_from, N in Hrep.
  change (Z.to_nat (2 * (8 - 8))) with 0%nat in Hrep. rewrite drop_0 in Hrep.
  destruct (replay_loop_spec (Z.to_nat (n t2 - 8)) 0 t2 (cols p) l'
              (g t1 - g t2) Lm2 Li2)
    as (t3 & E3 & Hc3); [assumption | assumption | lia | exact Hrep |].
  destruct (replay_loop_frame _ _ _ _ E3) as (F1 & F2 & F3 & F4).
  exists t3. split.
  { unfold bestmat. rewrite load_orig_normal, bind_Normal by assumption.
    rewrite El. unfold for_loop, N. rewrite Z.sub_0_r.
    change (Z.of_nat 0) with 0 in E3. rewrite E3. reflexivity. }
  do 3 (split; [assumption |]). split; [lia |].
  rewrite Hrep'. f_equal. f_equal. unfold cols. rewrite F2, <- Hc3.
  f_equal. lia.
Qed.

Lemma blockPrint_block_of (t : GateMat) :
  8 <= n t -> length (cols t) = Z.to_nat (n t) ->
  blockPrint t = block_of (cols t) (history_from 8 t) (g t).
Proof.
  intros Hn Lc. unfold blockPrint, block_of. fold (cols t). rewrite Lc.
  rewrite Z2Nat.id by lia. unfold history_from, N.
  change (Z.to_nat (2 * (8 - 8))) with 0%nat. rewrite drop_0. reflexivity.
Qed.

(** One matrix pair: when the check passes for the packed columns, the
    history [h] and the savings [B], the search returns [h]. *)
Lemma optimize_pair_path (fuel : nat) (InitMat : list Z) (k : Z)
    (orig test : GateMat) (h : list (Z * Z)) (B : Z) (Lf : list Z) :
  length InitMat = 32%nat -> forallb byte InitMat = true ->
  k = 0 \/ k = 1 ->
  length (mat orig) = 128%nat -> length (ind orig) = 256%nat ->
  length (mat test) = 128%nat -> length (ind test) = 256%nat ->
  (129 <= fuel)%nat ->
  check_search (packed_columns InitMat k) h B = true ->
  replay (packed_columns InitMat k) h = Some (Lf, B) ->
  let L := packed_columns InitMat k in
  let G0 := sumZ (map savings L) - 8 in
  exists o t3,
    optimize_pair fuel InitMat k orig test
    = Normal (o, t3, {| original := block_of L [] G0;
                        optimized := block_of Lf h (G0 - B) |})
    /\ length (mat t3) = 128%nat /\ length (ind t3) = 256%nat
    /\ g t3 = G0 - B /\ g o = G0 - B.
Proof.
  intros Li Hb Hk Lmo Lio Lmt Lit Hfuel Hc Hr L G0.
  destruct (check_search_sound _ _ _ Hc) as (H16 & Hroot & Hpath).
  destruct (build_orig_normal InitMat k orig Li Hb Hk Lmo Lio)
    as (o & Eo & Hio & Eco & Ego).
  destruct (copyMat_initial o test Hio Lmt Lit) as (t1 & E1 & Hi1 & Ec1 & Eg1).
  destruct (initial_inv t1 Hi1) as (Hinv1 & Hn1 & Hw1).
  destruct (initial_inv o Hio) as (Hinvo & Hno & _).
  destruct (inv_facts o Hinvo) as (Lm' & Li' & _ & _ & Lco & _).
  fold L in Eco, H16, Hroot, Hpath, Hr. rewrite Eco in Ego. fold G0 in Ego.
  assert (HG : g t1 <= 1024).
  { rewrite Eg1, Ego. unfold G0.
    pose proof (sumZ_map_le savings popcount L savings_le_popcount) as H1.
    fold (weight L) in H1. pose proof Hw1 as H2. rewrite Ec1, Eco in H2.
    lia. }
  assert (Eold : old_pair t1 = Normal (0, 0)).
  { unfold old_pair. rewrite Hn1. reflexivity. }
  rewrite <- Eco, <- Ec1 in Hroot, Hpath.
  assert (Hf : weight (cols t1) < Z.of_nat fuel) by lia.
  destruct (bestgates_path h fuel t1 0 0 B Hinv1 HG Hf Eold Hroot Hpath)
    as (t2 & E2 & Hp2 & Eg2 & En2 & Eh2).
  destruct (bestmat_run o t1 t2 Hio Hi1 Ec1 Hp2)
    as (t3 & E3 & F1 & F2 & F3 & F4 & Hrep).
  rewrite Hn1 in Eh2. rewrite Eh2, Eco, Hr in Hrep.
  injection Hrep as EL Eg.
  exists {| mat := mat o; ind := ind o; n := n o; g := g t2 |}, t3.
  split.
  { unfold optimize_pair. rewrite Eo, bind_Normal, E1, bind_Normal.
    rewrite E2, bind_Normal, E3, bind_Normal. cbv beta iota.
    f_equal. f_equal. f_equal.
    - rewrite (blockPrint_block_of o) by (rewrite ?Hno; lia || assumption).
      rewrite Eco, Ego. unfold history_from. rewrite Hno. reflexivity.
    - assert (Lc3 : length (cols t3) = Z.to_nat (n t3)).
      { destruct Hp2 as (_ & _ & _ & _ & Hlo & Hhi & _).
        unfold cols. rewrite length_take. lia. }
      rewrite (blockPrint_block_of t3) by (assumption || lia).
      unfold history_from. rewrite F1, F2. fold (history_from 8 t2).
      rewrite Eh2, <- EL, F3. f_equal. lia. }
  split; [exact F4 |]. split.
  { rewrite F1. destruct Hp2 as (_ & H & _). exact H. }
  cbn [g]. split; lia.
Qed.

(** ** Record 4 *)

Lemma check_pair0 : check_search (packed_columns record4 0) history0 22 = true.
Proof. vm_cast_no_check (eq_refl true). Qed.

Lemma check_pair1 : check_search (packed_columns record4 1) history1 20 = true.
Proof. vm_cast_no_check (eq_refl true). Qed.

(** C1: for record 4 the program reports, for the pair (A2X, S2X), 42
    original gates, 17 optimized columns and 20 optimized gates; for the
    pair (X2S, X2A), 38 original gates, 18 optimized columns and 18
    optimized gates; and a total of 38 gates.  The whole report is the
    one of the header comment of bestboth.c. *)
Theorem record4_report (fuel : nat) (orig0 orig1 test : GateMat) :
  (129 <= fuel)%nat ->
  length (mat orig0) = 128%nat -> length (ind orig0) = 256%nat ->
  length (mat orig1) = 128%nat -> length (ind orig1) = 256%nat ->
  length (mat test) = 128%nat -> length (ind test) = 256%nat ->
  exists test' r,
    main_record fuel record4 orig0 orig1 test = Normal (test', r)
    /\ r = header_report
    /\ gates (original (first_pair r)) = 42
    /\ ncols (optimized (first_pair r)) = 17
    /\ gates (optimized (first_pair r)) = 20
    /\ gates (original (second_pair r)) = 38
    /\ ncols (optimized (second_pair r)) = 18
    /\ gates (optimized (second_pair r)) = 18
    /\ total r = 38.
Proof.
  intros Hfuel Lm0 Li0 Lm1 Li1 Lmt Lit.
  assert (Hr0 : exists Lf,
             replay (packed_columns record4 0) history0 = Some (Lf, 22)
             /\ block_of Lf history0 20
                = optimized (first_pair header_report)).
  { eexists. split; vm_compute; reflexivity. }
  assert (Hr1 : exists Lf,
             replay (packed_columns record4 1) history1 = Some (Lf, 20)
             /\ block_of Lf history1 18
                = optimized (second_pair header_report)).
  { eexists. split; vm_compute; reflexivity. }
  destruct Hr0 as (Lf0 & Hr0 & Eb0). destruct Hr1 as (Lf1 & Hr1 & Eb1).
  destruct (optimize_pair_path fuel record4 0 orig0 test history0 22 Lf0
              eq_refl eq_refl (or_introl eq_refl) Lm0 Li0 Lmt Lit Hfuel
              check_pair0 Hr0)
    as (o0 & t0 & E0 & Lmt0 & Lit0 & Egt0 & Ego0).
  destruct (optimize_pair_path fuel record4 1 orig1 t0 history1 20 Lf1
              eq_refl eq_refl (or_intror eq_refl) Lm1 Li1 Lmt0 Lit0 Hfuel
              check_pair1 Hr1)
    as (o1 & t1 & E1 & _ & _ & Egt1 & Ego1).
  assert (G0 : sumZ (map savings (packed_columns record4 0)) - 8 = 42)
    by (vm_compute; reflexivity).
  assert (G1 : sumZ (map savings (packed_columns record4 1)) - 8 = 38)
    by (vm_compute; reflexivity).
  rewrite G0 in E0, Egt0, Ego0. rewrite G1 in E1, Egt1, Ego1.
  change (42 - 22) with 20 in *. change (38 - 20) with 18 in *.
  rewrite Eb0 in E0. rewrite Eb1 in E1.
  exists t1, header_report. split.
  - unfold main_record. rewrite E0, bind_Normal. cbv beta iota.
    rewrite E1, bind_Normal. cbv beta iota.
    rewrite Egt0, Egt1, Ego0, Ego1. reflexivity.
  - repeat split.
Qed.

Lemma record4_report_witness :
  exists test',
    main_record 129 record4 test_static test_static test_static
    = Normal (test', header_report).
Proof.
  destruct (record4_report 129 test_static test_static test_static)
    as (test' & r & E & -> & _);
    [lia | reflexivity | reflexivity | reflexivity | reflexivity
     | reflexivity | reflexivity |].
  exists test'. exact E.
Defined.

(** * Further properties of the code *)

(** ** Exhaustive checks over small ranges *)

Lemma below_In (k : nat) (v : Z) : 0 <= v < Z.of_nat k -> In v (upto k).
Proof.
  intros Hv. unfold upto. apply in_map_iff. exists (Z.to_nat v).
  split; [lia |]. apply in_seq. lia.
Qed.

Lemma all1_spec (k : nat) (P : Z -> bool) (x : Z) :
  all1 k P = true -> 0 <= x < Z.of_nat k -> P x = true.
Proof.
  unfold all1. rewrite forallb_forall. intros H Hx.
  apply H, below_In, Hx.
Qed.

Lemma all2_spec (k : nat) (P : Z -> Z -> bool) (x y : Z) :
  all2 k P = true -> 0 <= x < Z.of_nat k -> 0 <= y < Z.of_nat k ->
  P x y = true.
Proof.
  intros H Hx Hy. unfold all2 in H.
  apply (all1_spec k (P x) y); [| assumption].
  apply (all1_spec k (fun x => all1 k (P x)) x); assumption.
Qed.

Lemma all3_spec (k : nat) (P : Z -> Z -> Z -> bool) (x y z : Z) :
  all3 k P = true -> 0 <= x < Z.of_nat k -> 0 <= y < Z.of_nat k ->
  0 <= z < Z.of_nat k -> P x y z = true.
Proof.
  intros H Hx Hy Hz. unfold all3 in H.
  apply (all2_spec k (P x) y z); [| assumption | assumption].
  apply (all1_spec k (fun x => all2 k (P x)) x); assumption.
Qed.

(** The low [k] bits of an integer, as C's [x & (2^k - 1)] on a two's
    complement [int]. *)
Lemma land_low (x : Z) (k : Z) :
  0 <= k -> 0 <= Z.land x (Z.ones k) < 2 ^ k.
Proof.
  intros Hk. rewrite Z.land_ones by assumption.
  apply Z.mod_pos_bound. apply Z.pow_pos_nonneg; lia.
Qed.

Lemma low2 (x : Z) : 0 <= Z.land x 3 < Z.of_nat 4.
Proof. exact (land_low x 2 ltac:(lia)). Qed.

Lemma low4 (x : Z) : 0 <= Z.land x 15 < Z.of_nat 16.
Proof. exact (land_low x 4 ltac:(lia)). Qed.

Lemma low8 (x : Z) : 0 <= Z.land x 255 < Z.of_nat 256.
Proof. exact (land_low x 8 ltac:(lia)). Qed.

Lemma land_land (x m k : Z) : Z.land (Z.land x m) k = Z.land x (Z.land m k).
Proof. symmetry. apply Z.land_assoc. Qed.

(** ** GF(2^2) *)

(** The operations read the two low bits of their arguments only. *)
Lemma G4_mul_low (x y : Z) : G4_mul x y = G4_mul (Z.land x 3) (Z.land y 3).
Proof.
  unfold G4_mul. rewrite !(land_land x 3), !(land_land y 3). reflexivity.
Qed.

Lemma G4_sq_low (x : Z) : G4_sq x = G4_sq (Z.land x 3).
Proof. unfold G4_sq. rewrite !(land_land x 3). reflexivity. Qed.

Lemma G4_scl_N_low (x : Z) : G4_scl_N x = G4_scl_N (Z.land x 3).
Proof. unfold G4_scl_N. rewrite !(land_land x 3). reflexivity. Qed.

Lemma G4_scl_N2_low (x : Z) : G4_scl_N2 x = G4_scl_N2 (Z.land x 3).
Proof. unfold G4_scl_N2. rewrite !(land_land x 3). reflexivity. Qed.

Lemma G4_check :
  all3 4 (fun x y z =>
    (G4_mul x y =? G4_mul y x)
    && (G4_mul (G4_mul x y) z =? G4_mul x (G4_mul y z))
    && (G4_mul x (Z.lxor y z) =? Z.lxor (G4_mul x y) (G4_mul x z))
    && (0 <=? G4_mul x y) && (G4_mul x y <? 4)
    && (G4_mul G4_one x =? x)
    && ((x =? 0) || (G4_mul x (G4_sq x) =? G4_one))
    && (G4_sq x =? G4_mul x x)
    && (G4_scl_N x =? G4_mul G4_N x)
    && (G4_scl_N2 x =? G4_mul G4_N2 x)
    && (G4_mul G4_N G4_N =? G4_N2)) = true.
Proof. vm_compute. reflexivity. Qed.

Lemma G4_facts (x y z : Z) :
  0 <= x < 4 -> 0 <= y < 4 -> 0 <= z < 4 ->
  G4_mul x y = G4_mul y x
  /\ G4_mul (G4_mul x y) z = G4_mul x (G4_mul y z)
  /\ G4_mul x (Z.lxor y z) = Z.lxor (G4_mul x y) (G4_mul x z)
  /\ 0 <= G4_mul x y < 4
  /\ G4_mul G4_one x = x
  /\ (x <> 0 -> G4_mul x (G4_sq x) = G4_one)
  /\ G4_sq x = G4_mul x x
  /\ G4_scl_N x = G4_mul G4_N x
  /\ G4_scl_N2 x = G4_mul G4_N2 x.
Proof.
  intros Hx Hy Hz.
  pose proof (all3_spec 4 _ x y z G4_check ltac:(lia) ltac:(lia) ltac:(lia))
    as H. cbv beta in H.
  repeat (apply andb_prop in H; destruct H as [H ?]).
  repeat match goal with
         | H : orb _ _ = true |- _ => apply orb_prop in H
         end.
  repeat split; lia.
Qed.

Lemma lxor_low0 (y z m : Z) :
  Z.land (Z.lxor y z) m = Z.lxor (Z.land y m) (Z.land z m).
Proof.
  apply Z.bits_inj'. intros k Hk.
  rewrite !Z.land_spec, !Z.lxor_spec, !Z.land_spec.
  destruct (Z.testbit y k), (Z.testbit z k), (Z.testbit m k); reflexivity.
Qed.

Lemma lxor_low' (y z : Z) :
  Z.lxor (Z.land y 3) (Z.land z 3) = Z.land (Z.lxor y z) 3.
Proof. symmetry. apply lxor_low0. Qed.

Lemma lxor_low (y z m : Z) :
  Z.land (Z.lxor y z) m = Z.lxor (Z.land y m) (Z.land z m).
Proof.
  apply Z.bits_inj'. intros k Hk.
  rewrite !Z.land_spec, !Z.lxor_spec, !Z.land_spec.
  destruct (Z.testbit y k), (Z.testbit z k), (Z.testbit m k); reflexivity.
Qed.

Lemma G4_mul_l (x y : Z) : G4_mul (Z.land x 3) y = G4_mul x y.
Proof.
  rewrite (G4_mul_low (Z.land x 3) y), (G4_mul_low x y), land_land.
  reflexivity.
Qed.

Lemma G4_mul_r (x y : Z) : G4_mul x (Z.land y 3) = G4_mul x y.
Proof.
  rewrite (G4_mul_low x (Z.land y 3)), (G4_mul_low x y), land_land.
  reflexivity.
Qed.

Lemma G4_mul_range (x y : Z) : 0 <= G4_mul x y < 4.
Proof.
  rewrite G4_mul_low. pose proof (low2 x). pose proof (low2 y).
  apply (G4_facts (Z.land x 3) (Z.land y 3) 0); lia.
Qed.

Lemma land_small (v k : Z) : 0 <= k -> 0 <= v < 2 ^ k -> Z.land v (Z.ones k) = v.
Proof. intros Hk Hv. rewrite Z.land_ones by lia. apply Z.mod_small. lia. Qed.

Lemma G4_mul_ring_all (x y z : Z) :
  G4_mul x y = G4_mul y x
  /\ G4_mul (G4_mul x y) z = G4_mul x (G4_mul y z)
  /\ G4_mul x (Z.lxor y z) = Z.lxor (G4_mul x y) (G4_mul x z)
  /\ 0 <= G4_mul x y < 4.
Proof.
  pose proof (low2 x) as Hx. pose proof (low2 y) as Hy.
  pose proof (low2 z) as Hz.
  destruct (G4_facts (Z.land x 3) (Z.land y 3) (Z.land z 3))
    as (Hc & Ha & Hd & Hr & _); [lia | lia | lia |].
  split; [| split; [| split]].
  - rewrite (G4_mul_low x y), (G4_mul_low y x). exact Hc.
  - rewrite <- (G4_mul_r _ z), (G4_mul_low x y).
    rewrite <- (G4_mul_l x), (G4_mul_low y z). exact Ha.
  - rewrite (G4_mul_low x (Z.lxor y z)), (G4_mul_low x y), (G4_mul_low x z).
    rewrite lxor_low. exact Hd.
  - apply G4_mul_range.
Qed.

(** The laws of the field GF(2^2), for arguments that are arbitrary
    [int] values. *)
Lemma G4_unit_inverse (x : Z) :
  G4_mul G4_one x = Z.land x 3
  /\ G4_mul x (G4_sq x) = (if Z.land x 3 =? 0 then 0 else G4_one).
Proof.
  pose proof (low2 x) as Hx.
  destruct (G4_facts (Z.land x 3) 0 0) as (_ & _ & _ & _ & H1 & Hi & _);
    [lia | lia | lia |].
  split.
  - rewrite <- (G4_mul_r G4_one x). exact H1.
  - rewrite (G4_mul_low x (G4_sq x)), (G4_sq_low x), G4_mul_r.
    destruct (Z.eqb_spec (Z.land x 3) 0) as [E | E].
    + rewrite E. reflexivity.
    + apply Hi, E.
Qed.

Lemma G4_helpers (x : Z) :
  G4_sq x = G4_mul x x
  /\ G4_scl_N x = G4_mul G4_N x
  /\ G4_scl_N2 x = G4_mul G4_N2 x.
Proof.
  pose proof (low2 x) as Hx.
  destruct (G4_facts (Z.land x 3) 0 0)
    as (_ & _ & _ & _ & _ & _ & Hs & Hn & Hn2); [lia | lia | lia |].
  rewrite (G4_sq_low x), (G4_scl_N_low x), (G4_scl_N2_low x).
  rewrite (G4_mul_low x x), <- (G4_mul_r G4_N x), <- (G4_mul_r G4_N2 x).
  auto.
Qed.

(** ** GF(2^4) *)

Lemma G16_mul_low (x y : Z) :
  G16_mul x y = G16_mul (Z.land x 15) (Z.land y 15).
Proof.
  unfold G16_mul. rewrite !(land_land x 15), !(land_land y 15). reflexivity.
Qed.

Lemma G16_inv_low (x : Z) : G16_inv x = G16_inv (Z.land x 15).
Proof. unfold G16_inv. rewrite !(land_land x 15). reflexivity. Qed.

Lemma G16_sq_scl_low (x : Z) : G16_sq_scl x = G16_sq_scl (Z.land x 15).
Proof. unfold G16_sq_scl. rewrite !(land_land x 15). reflexivity. Qed.

Lemma G16_mul_l (x y : Z) : G16_mul (Z.land x 15) y = G16_mul x y.
Proof.
  rewrite (G16_mul_low (Z.land x 15) y), (G16_mul_low x y), land_land.
  reflexivity.
Qed.

Lemma G16_mul_r (x y : Z) : G16_mul x (Z.land y 15) = G16_mul x y.
Proof.
  rewrite (G16_mul_low x (Z.land y 15)), (G16_mul_low x y), land_land.
  reflexivity.
Qed.

Lemma G16_check :
  all3 16 (fun x y z =>
    (G16_mul x y =? G16_mul y x)
    && (G16_mul (G16_mul x y) z =? G16_mul x (G16_mul y z))
    && (G16_mul x (Z.lxor y z) =? Z.lxor (G16_mul x y) (G16_mul x z))
    && (0 <=? G16_mul x y) && (G16_mul x y <? 16)) = true.
Proof. vm_compute. reflexivity. Qed.

Lemma G16_check1 :
  all1 16 (fun x =>
    (G16_mul G16_one x =? x)
    && ((x =? 0) || (G16_mul x (G16_inv x) =? G16_one))
    && (G16_inv (G16_inv x) =? x)
    && (0 <=? G16_inv x) && (G16_inv x <? 16)
    && (G16_sq_scl x =? G16_mul G16_nu (G16_mul x x))
    && (0 <=? G16_sq_scl x) && (G16_sq_scl x <? 16)) = true.
Proof. vm_compute. reflexivity. Qed.

Lemma G16_facts (x y z : Z) :
  0 <= x < 16 -> 0 <= y < 16 -> 0 <= z < 16 ->
  G16_mul x y = G16_mul y x
  /\ G16_mul (G16_mul x y) z = G16_mul x (G16_mul y z)
  /\ G16_mul x (Z.lxor y z) = Z.lxor (G16_mul x y) (G16_mul x z)
  /\ 0 <= G16_mul x y < 16.
Proof.
  intros Hx Hy Hz.
  pose proof (all3_spec 16 _ x y z G16_check ltac:(lia) ltac:(lia) ltac:(lia))
    as H. cbv beta in H.
  repeat (apply andb_prop in H; destruct H as [H ?]).
  repeat split; lia.
Qed.

Lemma G16_facts1 (x : Z) :
  0 <= x < 16 ->
  G16_mul G16_one x = x
  /\ (x <> 0 -> G16_mul x (G16_inv x) = G16_one)
  /\ G16_inv (G16_inv x) = x
  /\ 0 <= G16_inv x < 16
  /\ G16_sq_scl x = G16_mul G16_nu (G16_mul x x)
  /\ 0 <= G16_sq_scl x < 16.
Proof.
  intros Hx.
  pose proof (all1_spec 16 _ x G16_check1 ltac:(lia)) as H. cbv beta in H.
  repeat (apply andb_prop in H; destruct H as [H ?]).
  repeat match goal with
         | H : orb _ _ = true |- _ => apply orb_prop in H
         end.
  repeat split; lia.
Qed.

Lemma G16_mul_ring_all (x y z : Z) :
  G16_mul x y = G16_mul y x
  /\ G16_mul (G16_mul x y) z = G16_mul x (G16_mul y z)
  /\ G16_mul x (Z.lxor y z) = Z.lxor (G16_mul x y) (G16_mul x z)
  /\ 0 <= G16_mul x y < 16.
Proof.
  pose proof (low4 x) as Hx. pose proof (low4 y) as Hy.
  pose proof (low4 z) as Hz.
  destruct (G16_facts (Z.land x 15) (Z.land y 15) (Z.land z 15))
    as (Hc & Ha & Hd & Hr); [lia | lia | lia |].
  split; [| split; [| split]].
  - rewrite (G16_mul_low x y), (G16_mul_low y x). exact Hc.
  - rewrite <- (G16_mul_r _ z), (G16_mul_low x y).
    rewrite <- (G16_mul_l x), (G16_mul_low y z). exact Ha.
  - rewrite (G16_mul_low x (Z.lxor y z)), (G16_mul_low x y),
      (G16_mul_low x z).
    rewrite lxor_low. exact Hd.
  - rewrite G16_mul_low. exact Hr.
Qed.

(** X4: [G16_inv] computes the inverse for [G16_mul]: the product of
    [x] and [G16_inv x] is the unit 15 unless the four low bits of [x]
    are zero, in which case it is 0; applying [G16_inv] twice gives the
    four low bits back, and the result is in 0..15. *)
Theorem G16_inv_is_inverse (x : Z) :
  G16_mul x (G16_inv x) = (if Z.land x 15 =? 0 then 0 else G16_one)
  /\ G16_inv (G16_inv x) = Z.land x 15
  /\ 0 <= G16_inv x < 16.
Proof.
  pose proof (low4 x) as Hx.
  destruct (G16_facts1 (Z.land x 15)) as (_ & Hi & Hii & Hr & _); [lia |].
  rewrite (G16_mul_low x (G16_inv x)), (G16_inv_low x), G16_mul_r.
  split; [| split; assumption].
  destruct (Z.eqb_spec (Z.land x 15) 0) as [E | E].
  - rewrite E. reflexivity.
  - apply Hi, E.
Qed.

(** X5: [G16_sq_scl x] is the square of [x] scaled by [nu = 1] (the
    element N^2 * alpha^2), as products of [G16_mul]. *)
Theorem G16_sq_scl_is_scaled_square (x : Z) :
  G16_sq_scl x = G16_mul G16_nu (G16_mul x x).
Proof.
  pose proof (low4 x) as Hx.
  destruct (G16_facts1 (Z.land x 15)) as (_ & _ & _ & _ & Hs & _); [lia |].
  rewrite (G16_sq_scl_low x), (G16_mul_low x x). exact Hs.
Qed.

(** ** GF(2^8) *)

Lemma G256_inv_low (x : Z) : G256_inv x = G256_inv (Z.land x 255).
Proof. unfold G256_inv. rewrite !(land_land x 255). reflexivity. Qed.

Lemma G256_check :
  all1 256 (fun x =>
    (G256_inv (G256_inv x) =? x)
    && (0 <=? G256_inv x) && (G256_inv x <? 256)
    && Bool.eqb (G256_inv x =? 0) (x =? 0)) = true.
Proof. vm_compute. reflexivity. Qed.

Lemma eqb_bool_eq (a b : bool) : Bool.eqb a b = true -> a = b.
Proof. destruct a, b; (reflexivity || discriminate). Qed.

(** X6: [G256_inv] is an involution on the bytes: applied twice it
    gives the eight low bits of its argument back; its result is a
    byte, and it is 0 exactly when the eight low bits of the argument
    are 0. *)
Theorem G256_inv_involution (x : Z) :
  G256_inv (G256_inv x) = Z.land x 255
  /\ 0 <= G256_inv x < 256
  /\ (G256_inv x = 0 <-> Z.land x 255 = 0).
Proof.
  pose proof (low8 x) as Hx.
  pose proof (all1_spec 256 _ (Z.land x 255) G256_check ltac:(lia)) as H.
  cbv beta in H.
  repeat (apply andb_prop in H; destruct H as [H ?]).
  rewrite (G256_inv_low x).
  match goal with
  | H : Bool.eqb _ _ = true |- _ => apply eqb_bool_eq in H; rename H into Hz
  end.
  split; [lia |]. split; [lia |].
  rewrite <- !Z.eqb_eq. rewrite Hz. reflexivity.
Qed.

(** *** The change of basis *)

Lemma land_1_testbit (v : Z) : Z.land v 1 = if Z.testbit v 0 then 1 else 0.
Proof. exact (land_1_bit v). Qed.

Ltac lxor_bits :=
  apply Z.bits_inj'; intros k Hk; rewrite !Z.lxor_spec;
  repeat match goal with
         | |- context [Z.testbit ?v k] => destruct (Z.testbit v k)
         end; reflexivity.

Lemma lxor_swap (y y' B : Z) :
  Z.lxor (Z.lxor y y') B = Z.lxor (Z.lxor y B) y'.
Proof. lxor_bits. Qed.

Lemma lxor_both (y y' B : Z) :
  Z.lxor y y' = Z.lxor (Z.lxor y B) (Z.lxor y' B).
Proof. lxor_bits. Qed.

Lemma lxor_right (y y' B : Z) :
  Z.lxor (Z.lxor y y') B = Z.lxor y (Z.lxor y' B).
Proof. lxor_bits. Qed.

(** The loop is additive in the pair of its two integer arguments, for
    every table. *)
Lemma newbasis_loop_lxor (b : list Z) (k : nat) :
  forall x x' y y',
    newbasis_loop k b (Z.lxor x x') (Z.lxor y y')
    = Z.lxor (newbasis_loop k b x y) (newbasis_loop k b x' y').
Proof.
  induction k as [|k IH]; intros x x' y y'; [reflexivity |].
  cbn [newbasis_loop]. rewrite Z.shiftr_lxor.
  rewrite !land_1_testbit, Z.lxor_spec.
  destruct (Z.testbit x 0), (Z.testbit x' 0); cbn [xorb Z.eqb].
  - rewrite (lxor_both y y' (nth k b 0)). apply IH.
  - rewrite lxor_swap. apply IH.
  - rewrite lxor_right. apply IH.
  - apply IH.
Qed.

(** The loop reads the [k] low bits of [x] only. *)
Lemma newbasis_loop_low (b : list Z) (k : nat) :
  forall x x' y,
    (forall i, 0 <= i < Z.of_nat k -> Z.testbit x i = Z.testbit x' i) ->
    newbasis_loop k b x y = newbasis_loop k b x' y.
Proof.
  induction k as [|k IH]; intros x x' y H; [reflexivity |].
  cbn [newbasis_loop]. rewrite !land_1_testbit, (H 0) by lia.
  apply IH. intros i Hi. rewrite !Z.shiftr_spec by lia. apply H. lia.
Qed.

Lemma G256_newbasis_low (x : Z) (b : list Z) :
  G256_newbasis x b = G256_newbasis (Z.land x 255) b.
Proof.
  unfold G256_newbasis. apply newbasis_loop_low. intros i Hi.
  rewrite Z.land_spec. change 255 with (Z.ones 8).
  rewrite Z.ones_spec_low by lia. rewrite andb_true_r. reflexivity.
Qed.

Lemma basis_check :
  all1 256 (fun x =>
    (G256_newbasis (G256_newbasis x A2X) X2A =? x)
    && (G256_newbasis (G256_newbasis x X2A) A2X =? x)
    && (G256_newbasis (G256_newbasis x X2S) S2X =? x)
    && (G256_newbasis (G256_newbasis x S2X) X2S =? x)) = true.
Proof. vm_compute. reflexivity. Qed.

(** X8: the tables come in inverse pairs: converting with [A2X] and
    then with [X2A], or the other way round, gives the byte back, and
    so do [X2S] and [S2X]. *)
Theorem basis_changes_are_inverse (x : Z) :
  G256_newbasis (G256_newbasis x A2X) X2A = Z.land x 255
  /\ G256_newbasis (G256_newbasis x X2A) A2X = Z.land x 255
  /\ G256_newbasis (G256_newbasis x X2S) S2X = Z.land x 255
  /\ G256_newbasis (G256_newbasis x S2X) X2S = Z.land x 255.
Proof.
  pose proof (low8 x) as Hx.
  pose proof (all1_spec 256 _ (Z.land x 255) basis_check ltac:(lia)) as H.
  cbv beta in H.
  repeat (apply andb_prop in H; destruct H as [H ?]).
  rewrite (G256_newbasis_low x A2X), (G256_newbasis_low x X2A),
    (G256_newbasis_low x X2S), (G256_newbasis_low x S2X).
  repeat split; lia.
Qed.

(** *** The S-box of FIPS-197 *)

Lemma AES_check :
  all1 256 (fun n =>
    let m := inverse_in_A n in
    (0 <=? m) && (m <? 256)
    && (if n =? 0 then m =? 0 else AES_mul n m =? 1)
    && (Sbox n =? AES_affine m)) = true.
Proof. vm_compute. reflexivity. Qed.

Lemma Sbox_AES (n : Z) :
  0 <= n < 256 ->
  AES_inverse_of n (inverse_in_A n) /\ Sbox n = AES_affine (inverse_in_A n).
Proof.
  intros Hn.
  pose proof (all1_spec 256 _ n AES_check ltac:(lia)) as H. cbv beta zeta in H.
  repeat (apply andb_prop in H; destruct H as [H ?]).
  unfold AES_inverse_of.
  destruct (Z.eqb_spec n 0); repeat split; (lia || congruence).
Qed.

(** *** The laws of the subfields *)

(** X1: [G4_mul] is the multiplication of a field on the 2-bit values,
    whatever [int] values it is given (it reads their two low bits):
    commutative, associative, distributive over XOR, with results in
    0..3, unit 3, and [G4_sq x] the inverse of every [x] whose two low
    bits are not both zero. *)
Theorem G4_mul_field (x y z : Z) :
  G4_mul x y = G4_mul y x
  /\ G4_mul (G4_mul x y) z = G4_mul x (G4_mul y z)
  /\ G4_mul x (Z.lxor y z) = Z.lxor (G4_mul x y) (G4_mul x z)
  /\ 0 <= G4_mul x y < 4
  /\ G4_mul G4_one x = Z.land x 3
  /\ G4_mul x (G4_sq x) = (if Z.land x 3 =? 0 then 0 else G4_one).
Proof.
  destruct (G4_mul_ring_all x y z) as (Hc & Ha & Hd & Hr).
  destruct (G4_unit_inverse x) as (H1 & Hi).
  repeat split; (assumption || lia).
Qed.

(** X2: the three one-argument helpers of GF(2^2) are products:
    [G4_sq x] is [x * x], [G4_scl_N x] is [N * x] with [N = 2] (Omega^2)
    and [G4_scl_N2 x] is [N^2 * x] with [N^2 = 1] (Omega), for every
    [int] value [x]. *)
Theorem G4_helpers_are_products (x : Z) :
  G4_sq x = G4_mul x x
  /\ G4_scl_N x = G4_mul G4_N x
  /\ G4_scl_N2 x = G4_mul G4_N2 x
  /\ G4_mul G4_N G4_N = G4_N2.
Proof.
  destruct (G4_helpers x) as (Hs & Hn & Hn2).
  repeat split; assumption.
Qed.

(** X3: [G16_mul] is a commutative, associative multiplication that
    distributes over XOR, with results in 0..15 and unit 15, for all
    [int] arguments (it reads their four low bits). *)
Theorem G16_mul_field (x y z : Z) :
  G16_mul x y = G16_mul y x
  /\ G16_mul (G16_mul x y) z = G16_mul x (G16_mul y z)
  /\ G16_mul x (Z.lxor y z) = Z.lxor (G16_mul x y) (G16_mul x z)
  /\ 0 <= G16_mul x y < 16
  /\ G16_mul G16_one x = Z.land x 15.
Proof.
  destruct (G16_mul_ring_all x y z) as (Hc & Ha & Hd & Hr).
  pose proof (low4 x) as Hx.
  destruct (G16_facts1 (Z.land x 15)) as (H1 & _); [lia |].
  rewrite <- (G16_mul_r G16_one x).
  repeat split; (assumption || lia).
Qed.

(** X7: for every table [b], [G256_newbasis] is linear over GF(2) in
    its first argument (the image of an XOR is the XOR of the images,
    and 0 goes to 0) and reads the eight low bits of it only. *)
Theorem G256_newbasis_linear (b : list Z) (x y : Z) :
  G256_newbasis (Z.lxor x y) b
  = Z.lxor (G256_newbasis x b) (G256_newbasis y b)
  /\ G256_newbasis 0 b = 0
  /\ G256_newbasis x b = G256_newbasis (Z.land x 255) b.
Proof.
  split; [| split].
  - unfold G256_newbasis.
    rewrite <- (newbasis_loop_lxor b 8 x y 0 0). reflexivity.
  - unfold G256_newbasis. cbn. reflexivity.
  - apply G256_newbasis_low.
Qed.

(** X9: [Sbox] is the S-box of AES: for every byte [n] it is the
    affine transformation of SubBytes applied to the multiplicative
    inverse of [n] in GF(2^8) modulo [x^8 + x^4 + x^3 + x + 1] (0 for
    [n = 0]); the inverse is what the steps of [Sbox] before the affine
    part compute, read in the polynomial basis. *)
Theorem Sbox_is_AES_Sbox (n : Z) :
  0 <= n < 256 ->
  exists m, AES_inverse_of n m /\ m = inverse_in_A n
            /\ Sbox n = AES_affine m.
Proof.
  intros Hn. exists (inverse_in_A n).
  destruct (Sbox_AES n Hn) as [Hi Hs]. auto.
Qed.

Lemma Sbox_is_AES_Sbox_witness :
  0 <= 0x53 < 256
  /\ exists m, AES_inverse_of 0x53 m /\ m = inverse_in_A 0x53
               /\ Sbox 0x53 = AES_affine m.
Proof.
  split; [lia |]. apply (Sbox_is_AES_Sbox 0x53). lia.
Defined.

(** ** copyMat *)

Lemma memcpy_cases (dst : list Z) (doff : Z) (src : list Z) (soff len : Z) :
  (exists r, memcpy dst doff src soff len = Normal r)
  \/ memcpy dst doff src soff len = Undefined.
Proof. unfold memcpy. destruct (_ && _); eauto. Qed.

Lemma memcpy_negative (dst : list Z) (doff : Z) (src : list Z) (soff len : Z) :
  len < 0 -> memcpy dst doff src soff len = Undefined.
Proof.
  intros H. unfold memcpy.
  destruct (Z.leb_spec 0 len); [lia | reflexivity].
Qed.

Lemma memcpy_overrun (dst : list Z) (doff : Z) (src : list Z) (soff len : Z) :
  Z.of_nat (length dst) < doff + len ->
  memcpy dst doff src soff len = Undefined.
Proof.
  intros H. unfold memcpy.
  destruct (Z.leb_spec (doff + len) (Z.of_nat (length dst))); [lia |].
  rewrite andb_false_r. reflexivity.
Qed.

(** X11: [copyMat] is undefined when [p->n] is below 8 (the length
    [(n - N) * 2] of the second [memcpy] is negative) or above the number
    of entries of [q->mat]. *)
Theorem copyMat_out_of_range (p q : GateMat) :
  n p < N \/ Z.of_nat (length (mat q)) < n p ->
  copyMat p q = Undefined.
Proof.
  intros H. unfold copyMat. cbv zeta. unfold N in *.
  destruct (Z_lt_le_dec (Z.of_nat (length (mat q))) (n p)) as [Hbig | Hsmall].
  - rewrite (memcpy_overrun (mat q)) by lia. reflexivity.
  - destruct H as [H | H]; [| lia].
    destruct (memcpy_cases (mat q) 0 (mat p) 0 (n p)) as [[r ->] | ->];
      [| reflexivity].
    rewrite bind_Normal, (memcpy_negative (ind q)) by lia. reflexivity.
Qed.

Lemma copyMat_out_of_range_witness :
  n test_static < N /\ copyMat test_static test_static = Undefined.
Proof.
  split; [unfold N; cbn; lia |].
  apply (copyMat_out_of_range test_static test_static).
  left. unfold N. cbn. lia.
Defined.

Lemma copyMat_normal (p q : GateMat) :
  length (mat p) = 128%nat -> length (ind p) = 256%nat ->
  length (mat q) = 128%nat -> length (ind q) = 256%nat ->
  N <= n p <= 128 ->
  exists q',
    copyMat p q = Normal q'
    /\ n q' = n p /\ g q' = g p
    /\ length (mat q') = 128%nat /\ length (ind q') = 256%nat
    /\ cols q' = cols p
    /\ history_from N q' = history_from N p
    /\ drop (Z.to_nat (n p)) (mat q') = drop (Z.to_nat (n p)) (mat q)
    /\ drop (Z.to_nat (2 * (n p - N))) (ind q')
       = drop (Z.to_nat (2 * (n p - N))) (ind q).
Proof.
  intros Lmp Lip Lmq Liq Hn. unfold N in *. unfold copyMat. cbv zeta.
  rewrite (memcpy_normal (mat q) 0 (mat p) 0 (n p)), bind_Normal by lia.
  rewrite (memcpy_normal (ind q) 0 (ind p) 0 ((n p - N) * 2)), bind_Normal
    by (unfold N; lia).
  eexists. split; [reflexivity |]. cbn [n g mat ind].
  change (Z.to_nat 0) with 0%nat. rewrite !take_0, !drop_0. cbn [app].
  rewrite !Z.add_0_l. unfold N.
  replace ((n p - 8) * 2) with (2 * (n p - 8)) by lia.
  split; [reflexivity |]. split; [reflexivity |].
  split. { rewrite length_app, length_take, length_drop. lia. }
  split. { rewrite length_app, length_take, length_drop. lia. }
  split. { unfold cols. cbn [n mat].
           rewrite take_app_le by (rewrite length_take; lia).
           rewrite take_take. f_equal. lia. }
  split. { unfold history_from, N. cbn [n ind].
           change (Z.to_nat (2 * (8 - 8))) with 0%nat. rewrite !drop_0.
           apply pairs_of_ext.
           replace (2 * Z.to_nat (n p - 8))%nat
             with (Z.to_nat (2 * (n p - 8))) by lia.
           rewrite take_app_le by (rewrite length_take; lia).
           rewrite take_take. f_equal. lia. }
  split.
  - rewrite drop_app_length'; [reflexivity |].
    rewrite length_take. lia.
  - rewrite drop_app_length'; [reflexivity |].
    rewrite length_take. lia.
Qed.

Lemma blockPrint_eq (p q : GateMat) :
  n q = n p -> g q = g p -> cols q = cols p ->
  history_from N q = history_from N p ->
  blockPrint q = blockPrint p.
Proof.
  intros En Eg Ec Eh. unfold blockPrint. fold (cols p) (cols q).
  unfold history_from, N in Eh.
  change (Z.to_nat (2 * (8 - 8))) with 0%nat in Eh. rewrite !drop_0 in Eh.
  unfold N. rewrite Ec, Eh, En, Eg. reflexivity.
Qed.

(** X10: for arrays of the declared sizes and [8 <= p->n <= 128],
    [copyMat] returns normally; the copy has the columns in use, the
    recorded pairs, the column count and the gate count of [*p], so that
    it prints the same block, and the entries of [*q] behind the copied
    ones are as they were. *)
Theorem copyMat_copies (p q : GateMat) :
  length (mat p) = 128%nat -> length (ind p) = 256%nat ->
  length (mat q) = 128%nat -> length (ind q) = 256%nat ->
  N <= n p <= 128 ->
  exists q',
    copyMat p q = Normal q'
    /\ n q' = n p /\ g q' = g p
    /\ cols q' = cols p
    /\ blockPrint q' = blockPrint p
    /\ length (mat q') = 128%nat /\ length (ind q') = 256%nat
    /\ drop (Z.to_nat (n p)) (mat q') = drop (Z.to_nat (n p)) (mat q)
    /\ drop (Z.to_nat (2 * (n p - N))) (ind q')
       = drop (Z.to_nat (2 * (n p - N))) (ind q).
Proof.
  intros Lmp Lip Lmq Liq Hn.
  destruct (copyMat_normal p q Lmp Lip Lmq Liq Hn)
    as (q' & E & En & Eg & Lm & Li & Ec & Eh & Dm & Di).
  exists q'. repeat split; try assumption.
  apply blockPrint_eq; assumption.
Qed.

Lemma copyMat_copies_witness :
  exists q',
    copyMat demo_searched test_static = Normal q'
    /\ n q' = 9 /\ g q' = -7
    /\ blockPrint q' = blockPrint demo_searched.
Proof.
  destruct (copyMat_copies demo_searched test_static)
    as (q' & E & En & Eg & _ & Eb & _);
    [reflexivity | reflexivity | reflexivity | reflexivity
     | unfold N; cbn; lia |].
  exists q'. auto.
Defined.

(** ** The search on states with and without a pair to share *)

Lemma wf_facts (p : GateMat) :
  well_formed p = true ->
  length (mat p) = 128%nat /\ length (ind p) = 256%nat
  /\ 8 <= n p <= 128
  /\ Forall (fun v => 0 <= v < 65536) (cols p)
  /\ length (cols p) = Z.to_nat (n p).
Proof.
  unfold well_formed, N. intros H.
  repeat (apply andb_prop in H; destruct H as [H ?]).
  apply Nat.eqb_eq in H.
  repeat match goal with
         | H : (_ =? _)%nat = true |- _ => apply Nat.eqb_eq in H
         | H : (_ <=? _) = true |- _ => apply Z.leb_le in H
         | H : forallb col16 _ = true |- _ => apply forallb_col16 in H
         end.
  repeat split; try assumption.
  unfold cols. rewrite length_take. lia.
Qed.

Lemma old_pair_wf (p : GateMat) :
  well_formed p = true -> exists io jo, old_pair p = Normal (io, jo).
Proof.
  intros Hwf. destruct (wf_facts p Hwf) as (Lm & Li & Hn & _).
  unfold old_pair, N. cbv zeta.
  destruct (Z.eqb_spec (n p) 8) as [E | E]; [eauto |].
  destruct (lookup_lt_is_Some_2 (ind p) (Z.to_nat (2 * (n p - 8) - 2)))
    as [io Eio]; [lia |].
  destruct (lookup_lt_is_Some_2 (ind p) (Z.to_nat (2 * (n p - 8) - 1)))
    as [jo Ejo]; [lia |].
  exists io, jo.
  rewrite (rd_normal (ind p) (2 * (n p - 8) - 2) io), bind_Normal
    by (lia || assumption).
  rewrite (rd_normal (ind p) (2 * (n p - 8) - 1) jo), bind_Normal
    by (lia || assumption).
  reflexivity.
Qed.

Lemma foldM_id {S A : Type} (f : A -> S -> outcome S) (l : list A) (s : S) :
  (forall x, In x l -> f x s = Normal s) -> foldM f l s = Normal s.
Proof.
  induction l as [|x l IH]; intros H; [reflexivity |].
  cbn [foldM]. rewrite (H x (or_introl eq_refl)), bind_Normal.
  apply IH. intros y Hy. apply H. right. exact Hy.
Qed.

Lemma existsb_false {A : Type} (f : A -> bool) (l : list A) :
  existsb f l = false -> forall x, In x l -> f x = false.
Proof.
  induction l as [|a l IH]; intros H x Hx; [destruct Hx |].
  cbn [existsb] in H. apply orb_false_elim in H. destruct H as [Ha Hl].
  destruct Hx as [-> | Hx]; [assumption | apply IH; assumption].
Qed.

Lemma nth_lookup_Z (l : list Z) (i : nat) :
  (i < length l)%nat -> l !! i = Some (nth i l 0).
Proof.
  intros Hi. destruct (lookup_lt_is_Some_2 l i Hi) as [v Hv].
  rewrite Hv. f_equal. symmetry. apply nth_lookup_Some with (d := 0) in Hv.
  exact Hv.
Qed.

Lemma cols_lookup (p : GateMat) (i : nat) (v : Z) :
  cols p !! i = Some v -> mat p !! i = Some v.
Proof.
  unfold cols. intros H. apply lookup_take_Some in H. tauto.
Qed.

(** A pair of columns without an overlap to share is passed over. *)
Lemma visit_nothing (rec : GateMat -> outcome GateMat) (p : GateMat)
    (b : Best) (io jo i j : Z) :
  well_formed p = true -> 0 <= i < j -> j < n p ->
  savings (Z.land (nth (Z.to_nat i) (cols p) 0)
                  (nth (Z.to_nat j) (cols p) 0)) = 0 ->
  visit rec (n p) (g p) io jo i j (p, b) = Normal (p, b).
Proof.
  intros Hwf Hi Hj Hs. destruct (wf_facts p Hwf) as (Lm & Li & Hn & H16 & Lc).
  pose proof (nth_lookup_Z (cols p) (Z.to_nat i) ltac:(lia)) as Ei.
  pose proof (nth_lookup_Z (cols p) (Z.to_nat j) ltac:(lia)) as Ej.
  set (mi := nth (Z.to_nat i) (cols p) 0) in *.
  set (mj := nth (Z.to_nat j) (cols p) 0) in *.
  pose proof (Forall_lookup_1 _ _ _ _ H16 Ei) as Hmi.
  pose proof (Forall_lookup_1 _ _ _ _ H16 Ej) as Hmj.
  cbv beta in Hmi, Hmj.
  unfold visit. cbn [fst snd].
  rewrite (rd_normal (mat p) i mi), bind_Normal
    by (lia || apply cols_lookup, Ei).
  rewrite (rd_normal (mat p) j mj), bind_Normal
    by (lia || apply cols_lookup, Ej).
  rewrite share_spec, bind_Normal by (apply land_16; assumption).
  rewrite Hs. reflexivity.
Qed.

(** X12: when no two of the columns in use share two rows (every table
    entry [share[mat[i] & mat[j]]] is 0), [bestgates] returns with the
    state exactly as it was: nothing is added and no array entry is
    written. *)
Theorem bestgates_nothing_to_share (fuel : nat) (p : GateMat) :
  well_formed p = true -> sharable (cols p) = false ->
  bestgates (S fuel) p = Normal p.
Proof.
  intros Hwf Hs. destruct (wf_facts p Hwf) as (Lm & Li & Hn & H16 & Lc).
  cbn [bestgates]. destruct (old_pair_wf p Hwf) as (io & jo & ->).
  rewrite bind_Normal.
  rewrite (loops_foldM (fun i j => visit (bestgates fuel) (n p) (g p) io jo i j)).
  rewrite foldM_id.
  - rewrite bind_Normal. unfold finish. reflexivity.
  - intros [i j] Hij. cbn [fst snd].
    pose proof (pairs_lex_In _ _ Hij) as [H1 H2]. cbn [fst snd] in H1, H2.
    apply visit_nothing; [assumption | lia | lia |].
    unfold sharable in Hs. rewrite Lc, Z2Nat.id in Hs by lia.
    pose proof (existsb_false _ _ Hs (i, j) Hij) as H. cbn [fst snd] in H.
    apply negb_false_iff, Z.eqb_eq in H. exact H.
Qed.

Lemma bestgates_nothing_to_share_witness :
  well_formed unit_columns = true /\ sharable (cols unit_columns) = false
  /\ bestgates 1 unit_columns = Normal unit_columns.
Proof.
  split; [reflexivity |]. split; [reflexivity |].
  apply (bestgates_nothing_to_share 0 unit_columns); reflexivity.
Defined.

(** *** Every pair of an initial state is tried *)

Lemma zrange_In_inv (k : nat) :
  forall lo x, lo <= x < lo + Z.of_nat k -> In x (zrange k lo).
Proof.
  induction k as [|k IH]; intros lo x H; [lia |].
  cbn [zrange]. destruct (Z.eq_dec lo x) as [-> | Hne]; [left; reflexivity |].
  right. apply IH. lia.
Qed.

Lemma pairs_lex_In_inv (n0 i j : Z) :
  0 <= i < j -> j < n0 -> In (i, j) (pairs_lex n0).
Proof.
  intros Hi Hj. unfold pairs_lex. apply in_flat_map. exists i. split.
  - apply zrange_In_inv. lia.
  - apply in_map, zrange_In_inv. lia.
Qed.

(** The best branch kept in the locals only gets better. *)
Lemma visit_gb_mono (rec : GateMat -> outcome GateMat) (n0 g0 io jo i j : Z)
    (s s' : GateMat * Best) :
  visit rec n0 g0 io jo i j s = Normal s' -> gb s'.2 <= gb s.2.
Proof.
  unfold visit. intros H.
  apply bind_normal in H. destruct H as (mi & _ & H).
  apply bind_normal in H. destruct H as (mj & _ & H).
  apply bind_normal in H. destruct H as (t & _ & H).
  destruct (t =? 0); [injection H as <-; lia |].
  destruct (prior_indep _ _ _ _ _); [injection H as <-; lia |].
  unfold expand in H.
  apply bind_normal in H. destruct H as (? & _ & H).
  apply bind_normal in H. destruct H as (? & _ & H).
  apply bind_normal in H. destruct H as (tc & _ & H).
  apply bind_normal in H. destruct H as (tr & _ & H).
  apply bind_normal in H. destruct H as (tu & _ & H).
  apply bind_normal in H. destruct H as (b' & Hk & H).
  injection H as <-. cbn [snd]. unfold keep_best in Hk.
  destruct (Z.ltb_spec (g tu) (gb s.2)) as [Hlt | Hge].
  - apply bind_normal in Hk. destruct Hk as (h & _ & Hk).
    injection Hk as <-. cbn [gb]. lia.
  - injection Hk as <-. lia.
Qed.

Lemma post_gain (p p' : GateMat) : inv p -> post p p' -> g p' <= g p.
Proof.
  intros Hinv (_ & _ & _ & _ & _ & _ & l' & Hrep).
  destruct (inv_facts p Hinv) as (_ & _ & _ & H16 & _).
  destruct (replay_props _ _ _ _ Hrep H16) as (_ & _ & _ & Hs). lia.
Qed.

(** X13: from an initial state whose gate count is at most 1024 and at
    least 128 above [INT_MIN] (no subtraction of savings overflows), the
    search saves at least what the best single pair of columns saves:
    for every pair [i < j] of the 8 columns the gate count left is at
    most the count on entry minus the table entry of their overlap. *)
Theorem bestgates_beats_every_pair (fuel : nat) (p : GateMat) (i j mi mj : Z) :
  initial p = true -> -2147483520 <= g p <= 1024 -> (129 <= fuel)%nat ->
  0 <= i < j ->
  cols p !! Z.to_nat i = Some mi -> cols p !! Z.to_nat j = Some mj ->
  exists p', bestgates fuel p = Normal p'
             /\ g p' <= g p - savings (Z.land mi mj).
Proof.
  intros Hi Hg Hfuel Hij Ei Ej.
  destruct (initial_inv p Hi) as (Hinv & Hn & Hw).
  destruct (inv_facts p Hinv) as (Lm & Li & _ & H16 & Lc & _).
  assert (Hj : j < n p).
  { apply lookup_lt_Some in Ej. lia. }
  destruct (Z.eq_dec (savings (Z.land mi mj)) 0) as [E0 | Hne].
  { destruct (bestgates_post fuel p Hinv) as (p' & E & Hp); [lia |].
    exists p'. split; [assumption |]. rewrite E0.
    pose proof (post_gain p p' Hinv Hp). lia. }
  destruct fuel as [|fuel]; [lia |].
  cbn [bestgates].
  assert (Eold : old_pair p = Normal (0, 0)).
  { unfold old_pair, N. rewrite Hn. reflexivity. }
  rewrite Eold, bind_Normal.
  rewrite (loops_foldM (fun i j => visit (bestgates fuel) (n p) (g p) 0 0 i j)).
  destruct (in_split _ _ (pairs_lex_In_inv (n p) i j Hij Hj))
    as (l1 & l2 & El).
  rewrite El, foldM_app.
  assert (Hrec : forall q, inv q -> weight (cols q) < Z.of_nat fuel ->
                   exists q', bestgates fuel q = Normal q' /\ post q q').
  { intros q. apply bestgates_post. }
  assert (Hin : forall x, In x (l1 ++ (i, j) :: l2) -> 0 <= x.1 < x.2 /\ x.2 < n p).
  { intros x Hx. rewrite <- El in Hx. apply pairs_lex_In, Hx. }
  destruct (foldM_inv (fun s => post p s.1 /\ best_ok p s.2)
              (fun ij => visit (bestgates fuel) (n p) (g p) 0 0 ij.1 ij.2)
              l1) with (s := (p, best_init)) as (s1 & E1 & Hp1 & Hb1).
  { intros x [tc b] Hx [Htc Hb].
    destruct (Hin x) as [Hx1 Hx2]; [apply in_or_app; left; exact Hx |].
    apply visit_step; (assumption || lia). }
  { split; [apply post_refl; assumption | apply best_init_ok]. }
  rewrite E1, bind_Normal. cbn [foldM fst snd]. destruct s1 as [tc b].
  cbn [fst snd] in Hp1, Hb1.
  (* the pair (i, j) is expanded *)
  assert (Hpi : prior_indep 0 0 (n p - 1) i j = false).
  { unfold prior_indep. destruct (Z.ltb_spec i 0); [lia | reflexivity]. }
  rewrite (visit_expand _ p tc b 0 0 i j mi mj)
    by (assumption || lia).
  destruct (combine_step p tc i j mi mj Hinv Hij Hj Hp1 Ei Ej Hne)
    as (q & Eq & Hinvq & Hnq & Hgq & _ & Hwq & Hs1 & _ & Hundo).
  rewrite Eq, bind_Normal.
  destruct (Hrec q Hinvq) as (tr & Er & Hpr); [lia |].
  rewrite Er, bind_Normal.
  destruct (Hundo tr Hpr) as (Eu & Hpu & _).
  rewrite Eu, bind_Normal.
  set (tu := set_mat tr _) in *.
  assert (Hgu : g tu <= g p - savings (Z.land mi mj)).
  { pose proof (post_gain q tr Hinvq Hpr). unfold tu, set_mat. cbn [g]. lia. }
  destruct (keep_best_exact p tu b Hinv Hpu Hb1) as [Hlt Hge].
  assert (Hkb : exists b', keep_best (n p) tu b = Normal b' /\ best_ok p b'
                           /\ gb b' <= g p - savings (Z.land mi mj)).
  { destruct (Z_lt_le_dec (g tu) (gb b)) as [H | H].
    - destruct (Hlt H) as (b' & Ek & Hb' & Eg' & _). exists b'.
      split; [assumption | split; [assumption | lia]].
    - exists b. split; [apply Hge; lia | split; [assumption | lia]]. }
  destruct Hkb as (b' & Ek & Hb' & Hgb').
  rewrite Ek, !bind_Normal.
  destruct (foldM_inv (fun s => post p s.1 /\ best_ok p s.2
                                /\ gb s.2 <= g p - savings (Z.land mi mj))
              (fun ij => visit (bestgates fuel) (n p) (g p) 0 0 ij.1 ij.2)
              l2) with (s := (tu, b')) as (s2 & E2 & Hp2 & Hb2 & Hg2).
  { intros x [tc0 b0] Hx (Htc & Hb & Hgb0). cbn [fst snd] in Htc, Hb, Hgb0.
    destruct (Hin x) as [Hx1 Hx2];
      [apply in_or_app; right; right; exact Hx |].
    destruct (visit_step fuel p tc0 b0 0 0 x.1 x.2)
      as (s' & Es & Hps & Hbs); try (assumption || lia).
    exists s'. split; [assumption |]. split; [assumption |].
    split; [assumption |].
    pose proof (visit_gb_mono _ _ _ _ _ _ _ _ _ Es) as Hm.
    cbn [snd] in Hm. lia. }
  { split; [assumption | split; assumption]. }
  rewrite E2, bind_Normal. destruct s2 as [tc2 b2].
  cbn [fst snd] in Hp2, Hb2, Hg2.
  destruct (finish_improved p tc2 b2 Hinv Hp2 Hb2) as (p' & Ef & _ & Eg' & _);
    [lia |].
  exists p'. split; [assumption | lia].
Qed.

Lemma bestgates_beats_every_pair_witness :
  initial demo = true
  /\ exists p', bestgates 129 demo = Normal p' /\ g p' <= -6 - 1.
Proof.
  split; [reflexivity |].
  apply (bestgates_beats_every_pair 129 demo 0 1 3 3);
    [reflexivity | cbn; lia | lia | lia | reflexivity | reflexivity].
Defined.

(** *** The branch the search keeps *)

(** X14: the search keeps the first of the best branches.  From an
    initial state whose gate count is at most 1024 and at least 128
    above [INT_MIN]: if no
    sequence of combine moves from the 8 columns saves more than [B],
    and [h] is a sequence of moves that saves [B], each of them expanded
    by the search and each pair visited before it at its level leading
    only to sequences that save less, then the search returns with the
    history [h], [B] gates saved and one column added per move. *)
Theorem bestgates_first_best (fuel : nat) (p : GateMat) (h : list (Z * Z))
    (B : Z) :
  initial p = true -> -2147483520 <= g p <= 1024 -> (129 <= fuel)%nat ->
  (forall hh l s, replay (cols p) hh = Some (l, s) -> s <= B) ->
  path_ok (cols p) 0 0 h B ->
  exists p', bestgates fuel p = Normal p'
             /\ g p' = g p - B
             /\ n p' = 8 + Z.of_nat (length h)
             /\ history_from 8 p' = h.
Proof.
  intros Hi Hg Hfuel Hroot Hpath.
  destruct (initial_inv p Hi) as (Hinv & Hn & Hw).
  assert (Eold : old_pair p = Normal (0, 0)).
  { unfold old_pair, N. rewrite Hn. reflexivity. }
  destruct (bestgates_path h fuel p 0 0 B Hinv ltac:(lia) ltac:(lia) Eold
              Hroot Hpath)
    as (p' & E & _ & Eg & En & Eh).
  exists p'. rewrite Hn in *. auto.
Qed.

(** On [tied] the pair (0, 1) is visited first and expanded, but saves
    less in all; the branches through (0, 2) and through (0, 3) both
    save 5, and the search keeps the one through (0, 2). *)
Lemma bestgates_first_best_witness :
  initial tied = true
  /\ (exists p', bestgates 129 tied = Normal p'
                 /\ g p' = -6 /\ n p' = 11
                 /\ history_from 8 p' = [(0, 2); (3, 8); (1, 9)])
  /\ savings (Z.land 7 3) = 1
  /\ replay (cols tied) [(0, 3); (2, 8); (1, 9)]
     = Some ([0; 0; 0; 0; 0; 0; 0; 0; 0; 4; 3], 5).
Proof.
  split; [reflexivity |]. split; [| split; reflexivity].
  assert (Hc : check_search (cols tied) [(0, 2); (3, 8); (1, 9)] 5 = true)
    by (vm_compute; reflexivity).
  destruct (check_search_sound _ _ _ Hc) as (_ & Hroot & Hpath).
  apply (bestgates_first_best 129 tied [(0, 2); (3, 8); (1, 9)] 5);
    [reflexivity | cbn; lia | lia | exact Hroot | exact Hpath].
Defined.

(** ** The optimised matrix *)

(** The three calls [main] makes for one matrix pair, from an initial
    state [p]: the history the search leaves replays from the columns of
    [p] to the columns [bestmat] leaves. *)
Lemma pipeline_run (fuel : nat) (p t0 : GateMat) :
  initial p = true ->
  length (mat t0) = 128%nat -> length (ind t0) = 256%nat ->
  (129 <= fuel)%nat ->
  exists t1 t2 t3,
    copyMat p t0 = Normal t1
    /\ bestgates fuel t1 = Normal t2
    /\ bestmat p t2
       = Normal ({| mat := mat p; ind := ind p; n := n p; g := g t2 |}, t3)
    /\ length (mat t3) = 128%nat /\ length (ind t3) = 256%nat
    /\ 8 <= n t3 <= 72 /\ g t3 = g t2
    /\ blockPrint t3 = block_of (cols t3) (history_from 8 t3) (g t3)
    /\ Z.of_nat (length (history_from 8 t3)) = n t3 - 8
    /\ replay (cols p) (history_from 8 t3) = Some (cols t3, g p - g t3).
Proof.
  intros Hi Lm Li Hfuel.
  destruct (copyMat_initial p t0 Hi Lm Li) as (t1 & E1 & Hi1 & Ec1 & Eg1).
  destruct (initial_inv t1 Hi1) as (Hinv1 & Hn1 & Hw1).
  destruct (initial_inv p Hi) as (Hinv & Hn & _).
  destruct (inv_facts p Hinv) as (Lmp & Lip & _ & H16 & Lc & _).
  destruct (bestgates_post fuel t1 Hinv1) as [t2 [E2 Hp]]; [lia |].
  destruct (bestmat_run p t1 t2 Hi Hi1 Ec1 Hp)
    as (t3 & E3 & F1 & F2 & F3 & F4 & Hrep).
  pose proof Hp as (Lm2 & Li2 & _ & _ & Hlo & Hhi & _).
  rewrite Hn1 in Hlo, Hhi.
  assert (Eh : history_from 8 t3 = history_from 8 t2).
  { unfold history_from. rewrite F1, F2. reflexivity. }
  assert (Lc3 : length (cols t3) = Z.to_nat (n t3)).
  { unfold cols. rewrite length_take. lia. }
  exists t1, t2, t3.
  split; [assumption |]. split; [assumption |]. split; [assumption |].
  split; [assumption |]. split; [congruence |]. split; [lia |].
  split; [assumption |].
  split; [apply blockPrint_block_of; (lia || assumption) |].
  split.
  { unfold history_from, N. rewrite pairs_of_length.
    - lia.
    - rewrite length_drop, F1, Li2.
      change (Z.to_nat (2 * (8 - 8))) with 0%nat. lia. }
  rewrite Eh, Hrep, F3, Eg1. reflexivity.
Qed.

(** *** The recorded pairs *)

Lemma replay_indices (h : list (Z * Z)) :
  forall (l l' : list Z) (s : Z) (k : nat) (i j : Z),
    replay l h = Some (l', s) -> h !! k = Some (i, j) ->
    0 <= i < j /\ j < Z.of_nat (length l) + Z.of_nat k.
Proof.
  induction h as [|[i0 j0] h IH]; intros l l' s k i j Hr Hk;
    [discriminate |].
  cbn [replay] in Hr.
  destruct (combine_cols l i0 j0) as [[l1 c] |] eqn:Ec; [| discriminate].
  destruct (savings c =? 0); [discriminate |].
  destruct (replay l1 h) as [[l2 s2] |] eqn:Er; [| discriminate].
  destruct (combine_cols_inv _ _ _ _ _ Ec)
    as (mi & mj & Hij & Hj & _ & _ & _ & El1).
  destruct k as [|k].
  - injection Hk as <- <-. lia.
  - cbn in Hk. destruct (IH _ _ _ _ _ _ Er Hk) as [H1 H2].
    split; [assumption |].
    rewrite El1, length_app, !length_insert in H2. cbn [length] in H2. lia.
Qed.

(** *** The linear map of the matrix *)

Lemma apply_cols_snoc (l : list Z) :
  forall (x : list bool) (c : Z) (b : bool),
    length x = length l ->
    apply_cols (l ++ [c]) (x ++ [b])
    = Z.lxor (apply_cols l x) (if b then c else 0).
Proof.
  induction l as [|a l IH]; intros [|b0 x] c b Hl; try discriminate.
  - cbn. rewrite Z.lxor_0_r. reflexivity.
  - cbn [app apply_cols]. rewrite IH by (cbn in Hl; lia).
    rewrite Z.lxor_assoc. reflexivity.
Qed.

Lemma lxor_cancel_l (a v : Z) : Z.lxor a (Z.lxor a v) = v.
Proof.
  rewrite <- Z.lxor_assoc, Z.lxor_nilpotent, Z.lxor_0_l. reflexivity.
Qed.

Lemma apply_cols_insert (l : list Z) :
  forall (x : list bool) (i : nat) (m v : Z),
    l !! i = Some m -> length x = length l ->
    apply_cols (<[i := v]> l) x
    = Z.lxor (apply_cols l x) (if nth i x false then Z.lxor m v else 0).
Proof.
  induction l as [|a l IH]; intros [|b x] i m v Hi Hl; try discriminate.
  destruct i as [|i].
  - injection Hi as ->.
    change (<[0%nat := v]> (m :: l)) with (v :: l). cbn [apply_cols nth].
    destruct b.
    + rewrite (Z.lxor_comm m (apply_cols l x)), Z.lxor_assoc.
      rewrite lxor_cancel_l. apply Z.lxor_comm.
    + rewrite Z.lxor_0_r. reflexivity.
  - change (<[S i := v]> (a :: l)) with (a :: <[i := v]> l).
    cbn [apply_cols nth]. cbn in Hi.
    rewrite (IH x i m v Hi) by (cbn in Hl; lia).
    rewrite Z.lxor_assoc. reflexivity.
Qed.

Lemma apply_cols_combine (L L' : list Z) (x : list bool) (i j c : Z) :
  combine_cols L i j = Some (L', c) -> length x = length L ->
  apply_cols L' (x ++ [xorb (nth (Z.to_nat i) x false)
                            (nth (Z.to_nat j) x false)])
  = apply_cols L x.
Proof.
  intros Ec Hl.
  destruct (combine_cols_inv _ _ _ _ _ Ec)
    as (mi & mj & Hij & Hj & Ei & Ej & Hc & ->).
  rewrite apply_cols_snoc by (rewrite !length_insert; exact Hl).
  rewrite (apply_cols_insert _ x (Z.to_nat j) mj);
    [| rewrite list_lookup_insert_ne by lia; exact Ej
     | rewrite length_insert; exact Hl].
  rewrite (apply_cols_insert _ x (Z.to_nat i) mi) by assumption.
  rewrite !lxor_cancel_l.
  destruct (nth (Z.to_nat i) x false), (nth (Z.to_nat j) x false);
    cbn [xorb]; rewrite ?Z.lxor_0_r.
  - rewrite Z.lxor_assoc, Z.lxor_nilpotent, Z.lxor_0_r. reflexivity.
  - rewrite Z.lxor_assoc, Z.lxor_nilpotent, Z.lxor_0_r. reflexivity.
  - rewrite Z.lxor_assoc, Z.lxor_nilpotent, Z.lxor_0_r. reflexivity.
  - reflexivity.
Qed.

Lemma replay_apply (h : list (Z * Z)) :
  forall (l l' : list Z) (s : Z) (x : list bool),
    replay l h = Some (l', s) -> length x = length l ->
    apply_cols l' (signals x h) = apply_cols l x.
Proof.
  induction h as [|[i j] h IH]; intros l l' s x Hr Hl.
  - injection Hr as El Es. subst l'. reflexivity.
  - cbn [replay] in Hr.
    destruct (combine_cols l i j) as [[l1 c] |] eqn:Ec; [| discriminate].
    destruct (savings c =? 0); [discriminate |].
    destruct (replay l1 h) as [[l2 s2] |] eqn:Er; [| discriminate].
    injection Hr as El Es. subst l'. cbn [signals].
    rewrite (IH l1 l2 s2 _ Er).
    + apply (apply_cols_combine _ _ _ _ _ _ Ec Hl).
    + destruct (combine_cols_inv _ _ _ _ _ Ec)
        as (mi & mj & _ & _ & _ & _ & _ & El1).
      rewrite El1, !length_app, !length_insert. cbn [length]. lia.
Qed.

(** *** What the optimised block shows *)

(** X15: the index pairs printed for the optimised matrix are valid:
    there is one pair per added column, the pair number [k] (from 0) is
    [i < j] with [j] below [8 + k], the number of columns when it was
    recorded, and every added column saved at least one gate.  The gate
    count on entry is an [int] at least 128 above [INT_MIN], so that no
    subtraction of savings overflows. *)
Theorem recorded_pairs_in_range (fuel : nat) (p t0 : GateMat) :
  initial p = true -> -2147483520 <= g p <= 2147483647 ->
  length (mat t0) = 128%nat -> length (ind t0) = 256%nat ->
  (129 <= fuel)%nat ->
  exists t1 t2 p' t3,
    copyMat p t0 = Normal t1
    /\ bestgates fuel t1 = Normal t2
    /\ bestmat p t2 = Normal (p', t3)
    /\ Z.of_nat (length (pairs (blockPrint t3))) = ncols (blockPrint t3) - 8
    /\ (forall k i j, pairs (blockPrint t3) !! k = Some (i, j) ->
          0 <= i < j /\ j < 8 + Z.of_nat k)
    /\ gates (blockPrint t3) <= g p - (ncols (blockPrint t3) - 8).
Proof.
  intros Hi Hg Lm Li Hfuel.
  destruct (pipeline_run fuel p t0 Hi Lm Li Hfuel)
    as (t1 & t2 & t3 & E1 & E2 & E3 & _ & _ & Hn3 & _ & Eb & Lh & Hrep).
  destruct (initial_inv p Hi) as (Hinv & Hn & _).
  destruct (inv_facts p Hinv) as (_ & _ & _ & H16 & Lc & _).
  destruct (replay_props _ _ _ _ Hrep H16) as (_ & Ll & _ & Hs).
  exists t1, t2, {| mat := mat p; ind := ind p; n := n p; g := g t2 |}, t3.
  split; [assumption |]. split; [assumption |]. split; [exact E3 |].
  rewrite Eb. cbn [pairs ncols gates block_of]. rewrite Ll.
  split; [lia |]. split; [| lia].
  intros k i j Hk.
  destruct (replay_indices _ _ _ _ _ _ _ Hrep Hk) as [H1 H2].
  split; [assumption | lia].
Qed.

Lemma recorded_pairs_in_range_witness :
  initial demo = true
  /\ exists t1 t2 p' t3,
       copyMat demo test_static = Normal t1
       /\ bestgates 129 t1 = Normal t2
       /\ bestmat demo t2 = Normal (p', t3)
       /\ (forall k i j, pairs (blockPrint t3) !! k = Some (i, j) ->
             0 <= i < j /\ j < 8 + Z.of_nat k).
Proof.
  split; [reflexivity |].
  destruct (recorded_pairs_in_range 129 demo test_static)
    as (t1 & t2 & p' & t3 & E1 & E2 & E3 & _ & H & _);
    [reflexivity | cbn; lia | reflexivity | reflexivity | lia |].
  exists t1, t2, p', t3. auto.
Defined.

(** X16: the optimised matrix computes the same linear map as the
    original one.  With the added signals, each the XOR of the two
    signals its pair names, the columns [bestmat] leaves give the same
    outputs as the 8 original columns, for every value of the 8
    inputs. *)
Theorem optimised_matrix_same_map (fuel : nat) (p t0 : GateMat)
    (x : list bool) :
  initial p = true ->
  length (mat t0) = 128%nat -> length (ind t0) = 256%nat ->
  (129 <= fuel)%nat -> length x = 8%nat ->
  exists t1 t2 p' t3,
    copyMat p t0 = Normal t1
    /\ bestgates fuel t1 = Normal t2
    /\ bestmat p t2 = Normal (p', t3)
    /\ apply_cols (cols t3) (signals x (pairs (blockPrint t3)))
       = apply_cols (cols p) x.
Proof.
  intros Hi Lm Li Hfuel Hx.
  destruct (pipeline_run fuel p t0 Hi Lm Li Hfuel)
    as (t1 & t2 & t3 & E1 & E2 & E3 & _ & _ & Hn3 & _ & Eb & Lh & Hrep).
  destruct (initial_inv p Hi) as (Hinv & Hn & _).
  destruct (inv_facts p Hinv) as (_ & _ & _ & H16 & Lc & _).
  exists t1, t2, {| mat := mat p; ind := ind p; n := n p; g := g t2 |}, t3.
  split; [assumption |]. split; [assumption |]. split; [exact E3 |].
  rewrite Eb. cbn [pairs block_of].
  apply (replay_apply _ _ _ _ _ Hrep). lia.
Qed.

Lemma optimised_matrix_same_map_witness :
  initial demo = true
  /\ exists t1 t2 p' t3,
       copyMat demo test_static = Normal t1
       /\ bestgates 129 t1 = Normal t2
       /\ bestmat demo t2 = Normal (p', t3)
       /\ apply_cols (cols t3)
            (signals [true; false; false; false; false; false; false; false]
               (pairs (blockPrint t3)))
          = 3.
Proof.
  split; [reflexivity |].
  apply (optimised_matrix_same_map 129 demo test_static
           [true; false; false; false; false; false; false; false]);
    [reflexivity | reflexivity | reflexivity | lia | reflexivity].
Defined.

(** ** The driver *)

Lemma byte_high (x k : Z) : 0 <= x < 256 -> 8 <= k -> Z.testbit x k = false.
Proof.
  intros Hx Hk. destruct (Z.eq_dec x 0) as [-> | Hne]; [apply Z.bits_0 |].
  apply Z.bits_above_log2; [lia |].
  assert (Z.log2 x < 8) by (apply Z.log2_lt_pow2; lia). lia.
Qed.

Lemma pack_low (x y : Z) :
  0 <= x < 256 -> 0 <= y < 256 ->
  Z.land (Z.lor x (Z.shiftl y 8)) 0xFF = x.
Proof.
  intros Hx Hy. apply Z.bits_inj'. intros k Hk.
  rewrite Z.land_spec, Z.lor_spec. change 255 with (Z.ones 8).
  destruct (Z_lt_le_dec k 8) as [Hlt | Hge].
  - rewrite Z.ones_spec_low, Z.shiftl_spec_low by lia.
    rewrite orb_false_r, andb_true_r. reflexivity.
  - rewrite Z.ones_spec_high, (byte_high x k) by lia.
    rewrite andb_false_r. reflexivity.
Qed.

Lemma pack_high (x y : Z) :
  0 <= x < 256 -> 0 <= y < 256 ->
  Z.shiftr (Z.land (Z.lor x (Z.shiftl y 8)) 0xFF00) 8 = y.
Proof.
  intros Hx Hy. apply Z.bits_inj'. intros k Hk.
  rewrite Z.shiftr_spec, Z.land_spec, Z.lor_spec by lia.
  rewrite Z.shiftl_spec by lia. rewrite (byte_high x (k + 8)) by lia.
  replace (k + 8 - 8) with k by lia. cbn [orb].
  change 0xFF00 with (Z.shiftl (Z.ones 8) 8).
  rewrite Z.shiftl_spec by lia. replace (k + 8 - 8) with k by lia.
  destruct (Z_lt_le_dec k 8) as [Hlt | Hge].
  - rewrite Z.ones_spec_low by lia. apply andb_true_r.
  - rewrite Z.ones_spec_high, (byte_high y k) by lia. reflexivity.
Qed.

(** X18: the block printed before the optimisation shows the input
    matrices: for pair 0 the two rows of hex bytes are the first and the
    fourth matrix of the record (A2X and S2X), for pair 1 the third and
    the second (X2S and X2A); it has 8 columns and no index pair.
    Packing two bytes into a column and printing its two halves is a
    round trip. *)
Theorem original_block_shows_input (InitMat : list Z) (k : Z) (orig : GateMat) :
  length InitMat = 32%nat -> forallb byte InitMat = true ->
  k = 0 \/ k = 1 ->
  length (mat orig) = 128%nat -> length (ind orig) = 256%nat ->
  exists o,
    build_orig InitMat k orig = Normal o
    /\ low_row (blockPrint o)
       = take 8 (drop (if k =? 0 then 0 else 16) InitMat)
    /\ high_row (blockPrint o)
       = take 8 (drop (if k =? 0 then 24 else 8) InitMat)
    /\ pairs (blockPrint o) = [] /\ ncols (blockPrint o) = 8.
Proof.
  intros LI HI Hk Lm Li.
  destruct (build_orig_normal InitMat k orig LI HI Hk Lm Li)
    as (o & E & Ho & Hc & Hg).
  destruct (initial_inv o Ho) as (_ & Hn & _).
  exists o. split; [assumption |].
  unfold blockPrint. cbn [low_row high_row pairs ncols].
  fold (cols o). rewrite Hc, Hn. unfold N.
  change (Z.to_nat (8 - 8)) with 0%nat. cbn [pairs_of].
  split; [| split; [| split; reflexivity]].
  - do 32 (destruct InitMat as [|? InitMat]; [discriminate |]).
    destruct InitMat; [| discriminate].
    cbn [forallb] in HI.
    repeat (apply andb_prop in HI; destruct HI as [?%byte_spec HI]).
    destruct Hk as [-> | ->]; cbn; rewrite !pack_low by assumption;
      reflexivity.
  - do 32 (destruct InitMat as [|? InitMat]; [discriminate |]).
    destruct InitMat; [| discriminate].
    cbn [forallb] in HI.
    repeat (apply andb_prop in HI; destruct HI as [?%byte_spec HI]).
    destruct Hk as [-> | ->]; cbn; rewrite !pack_high by assumption;
      reflexivity.
Qed.

Lemma original_block_shows_input_witness :
  exists o,
    build_orig record4 1 test_static = Normal o
    /\ low_row (blockPrint o) = X2S /\ high_row (blockPrint o) = X2A.
Proof.
  destruct (original_block_shows_input record4 1 test_static)
    as (o & E & Hl & Hh & _);
    [reflexivity | reflexivity | right; reflexivity | reflexivity
     | reflexivity |].
  exists o. auto.
Defined.

(** One matrix pair of a record. *)
Lemma optimize_pair_run (fuel : nat) (InitMat : list Z) (k : Z)
    (orig test : GateMat) :
  length InitMat = 32%nat -> forallb byte InitMat = true ->
  k = 0 \/ k = 1 ->
  length (mat orig) = 128%nat -> length (ind orig) = 256%nat ->
  length (mat test) = 128%nat -> length (ind test) = 256%nat ->
  (129 <= fuel)%nat ->
  let L := packed_columns InitMat k in
  let G0 := sumZ (map savings L) - 8 in
  exists o t3 h Lf s,
    optimize_pair fuel InitMat k orig test
    = Normal (o, t3, {| original := block_of L [] G0;
                        optimized := block_of Lf h (G0 - s) |})
    /\ replay L h = Some (Lf, s)
    /\ length (mat t3) = 128%nat /\ length (ind t3) = 256%nat
    /\ g t3 = G0 - s /\ g o = G0 - s.
Proof.
  intros Li Hb Hk Lmo Lio Lmt Lit Hfuel L G0.
  destruct (build_orig_normal InitMat k orig Li Hb Hk Lmo Lio)
    as (o & Eo & Hio & Eco & Ego).
  destruct (initial_inv o Hio) as (Hinvo & Hno & _).
  destruct (inv_facts o Hinvo) as (Lm' & Li' & _ & _ & Lco & _).
  destruct (pipeline_run fuel o test Hio Lmt Lit Hfuel)
    as (t1 & t2 & t3 & E1 & E2 & E3 & Lm3 & Li3 & Hn3 & Eg3 & Eb3 & _ & Hrep).
  fold L in Eco. rewrite Eco in Ego, Hrep. fold G0 in Ego.
  exists {| mat := mat o; ind := ind o; n := n o; g := g t2 |}, t3,
    (history_from 8 t3), (cols t3), (g o - g t3).
  split.
  { unfold optimize_pair. rewrite Eo, bind_Normal, E1, bind_Normal.
    rewrite E2, bind_Normal, E3, bind_Normal. cbv beta iota.
    f_equal. f_equal. f_equal.
    - rewrite (blockPrint_block_of o) by (rewrite ?Hno; lia || assumption).
      rewrite Eco, Ego. unfold history_from. rewrite Hno. reflexivity.
    - rewrite Eb3. f_equal. lia. }
  split; [exact Hrep |]. split; [assumption |]. split; [assumption |].
  cbn [g]. split; lia.
Qed.

(** X17: for every record of 32 bytes the body of the loop of [main]
    runs to its end without an access outside an array.  The total it
    prints is the sum of the two optimised gate counts, which are also
    the two summands printed after it ([bestmat] has overwritten the
    original counts); each optimised count is at most the original
    count minus the number of added columns, and each optimised matrix
    has between 8 and 72 columns. *)
Theorem main_record_total (fuel : nat) (InitMat : list Z)
    (orig0 orig1 test : GateMat) :
  length InitMat = 32%nat -> forallb byte InitMat = true ->
  length (mat orig0) = 128%nat -> length (ind orig0) = 256%nat ->
  length (mat orig1) = 128%nat -> length (ind orig1) = 256%nat ->
  length (mat test) = 128%nat -> length (ind test) = 256%nat ->
  (129 <= fuel)%nat ->
  exists test' r,
    main_record fuel InitMat orig0 orig1 test = Normal (test', r)
    /\ total r = gates (optimized (first_pair r))
                 + gates (optimized (second_pair r))
    /\ summands r = (gates (optimized (first_pair r)),
                     gates (optimized (second_pair r)))
    /\ gates (optimized (first_pair r))
       <= gates (original (first_pair r))
          - (ncols (optimized (first_pair r)) - 8)
    /\ gates (optimized (second_pair r))
       <= gates (original (second_pair r))
          - (ncols (optimized (second_pair r)) - 8)
    /\ 8 <= ncols (optimized (first_pair r)) <= 72
    /\ 8 <= ncols (optimized (second_pair r)) <= 72.
Proof.
  intros LI HI Lm0 Li0 Lm1 Li1 Lmt Lit Hfuel.
  destruct (optimize_pair_run fuel InitMat 0 orig0 test LI HI
              (or_introl eq_refl) Lm0 Li0 Lmt Lit Hfuel)
    as (o0 & t0 & h0 & Lf0 & s0 & E0 & Hr0 & Lmt0 & Lit0 & Egt0 & Ego0).
  destruct (optimize_pair_run fuel InitMat 1 orig1 t0 LI HI
              (or_intror eq_refl) Lm1 Li1 Lmt0 Lit0 Hfuel)
    as (o1 & t1 & h1 & Lf1 & s1 & E1 & Hr1 & _ & _ & Egt1 & Ego1).
  assert (H16 : forall k, k = 0 \/ k = 1 ->
            Forall (fun v => 0 <= v < 65536) (packed_columns InitMat k)
            /\ length (packed_columns InitMat k) = 8%nat).
  { intros k Hk.
    destruct (build_orig_normal InitMat k orig0 LI HI Hk Lm0 Li0)
      as (o & _ & Ho & Hc & _).
    destruct (initial_inv o Ho) as (Hinv & Hn & _).
    destruct (inv_facts o Hinv) as (_ & _ & _ & H & Lc & _).
    rewrite Hc in H, Lc. split; [assumption | lia]. }
  destruct (H16 0 (or_introl eq_refl)) as [Ha0 La0].
  destruct (H16 1 (or_intror eq_refl)) as [Ha1 La1].
  destruct (replay_props _ _ _ _ Hr0 Ha0) as (_ & Ll0 & Hw0 & Hs0).
  destruct (replay_props _ _ _ _ Hr1 Ha1) as (_ & Ll1 & Hw1 & Hs1).
  pose proof (weight_le (packed_columns InitMat 0)) as Hwl0.
  pose proof (weight_le (packed_columns InitMat 1)) as Hwl1.
  pose proof (weight_nonneg Lf0). pose proof (weight_nonneg Lf1).
  eexists _, _. split.
  - unfold main_record. rewrite E0, bind_Normal. cbv beta iota.
    rewrite E1, bind_Normal. cbv beta iota. reflexivity.
  - cbn [total summands first_pair second_pair original optimized gates
           ncols block_of].
    rewrite Egt0, Egt1, Ego0, Ego1, Ll0, Ll1, La0, La1.
    repeat split; lia.
Qed.

Lemma main_record_total_witness :
  exists test' r,
    main_record 129 (replicate 32 0xFF) test_static test_static test_static
    = Normal (test', r)
    /\ total r = gates (optimized (first_pair r))
                 + gates (optimized (second_pair r)).
Proof.
  destruct (main_record_total 129 (replicate 32 0xFF)
              test_static test_static test_static)
    as (test' & r & E & Ht & _);
    [reflexivity | reflexivity | reflexivity | reflexivity | reflexivity
     | reflexivity | reflexivity | reflexivity | lia |].
  exists test', r. auto.
Defined.

(** ** Which pairs a call expands *)









